(** * opensanctions/graph: the three dataset parsers, embedded in Rocq

    The development follows the three source files

      - [datasets/md_companies/parse.py]      (module [MdCompanies]),
      - [datasets/de_offeneregister/parse.py] (module [DeOffeneregister]),
      - [datasets/cy_companies/parse.py]      (module [CyCompanies]),

    over a common model of the Python values they handle (module [Py]) and of
    the crawler context they write to (module [Ctx]). *)

From Stdlib Require Import String Ascii DecimalString.
From Stdlib Require Import List NArith ZArith Bool Lia.
Import ListNotations.

(* ===================================================================== *)
(** * Python strings and values *)
(* ===================================================================== *)

Module Py.

(** A Python [str] is a sequence of Unicode code points, so that [len] counts
    code points, as the source's [len(director) < 3] does. *)
Definition char := N.
Definition str := list char.

(** ASCII literals of the source, read as code points. *)
Definition py (s : string) : str :=
  map N_of_ascii (list_ascii_of_string s).

Arguments py s%_string.

Definition ch (a : ascii) : char := N_of_ascii a.
Arguments ch a%_char.

Fixpoint str_eqb (a b : str) : bool :=
  match a, b with
  | [], [] => true
  | x :: a', y :: b' => N.eqb x y && str_eqb a' b'
  | _, _ => false
  end.

Definition len (s : str) : nat := length s.

(** [str.isspace] on one code point: CPython's [Py_UNICODE_ISSPACE]. *)
Definition isspace (c : char) : bool :=
  ((9 <=? c) && (c <=? 13) || (28 <=? c) && (c <=? 32)
   || (c =? 133) || (c =? 160) || (c =? 5760)
   || (8192 <=? c) && (c <=? 8202)
   || (c =? 8232) || (c =? 8233) || (c =? 8239) || (c =? 8287)
   || (c =? 12288))%N.

Fixpoint lstrip (s : str) : str :=
  match s with
  | c :: s' => if isspace c then lstrip s' else s
  | [] => []
  end.

Definition rstrip (s : str) : str := rev (lstrip (rev s)).

(** [s.strip()] *)
Definition strip (s : str) : str := rstrip (lstrip s).

(** [s.removeprefix]-like test: [Some rest] when [s = p ++ rest]. *)
Fixpoint after_prefix (p s : str) : option str :=
  match p, s with
  | [], _ => Some s
  | x :: p', y :: s' => if N.eqb x y then after_prefix p' s' else None
  | _ :: _, [] => None
  end.

(** [s.partition(sep)] at the first occurrence of [sep]; [None] when [sep]
    does not occur. *)
Fixpoint partition (sep s : str) {struct s} : option (str * str) :=
  match after_prefix sep s with
  | Some rest => Some ([], rest)
  | None =>
      match s with
      | [] => None
      | c :: s' =>
          match partition sep s' with
          | Some (a, b) => Some (c :: a, b)
          | None => None
          end
      end
  end.

(** [sub in s] *)
Definition contains (sub s : str) : bool :=
  match partition sub s with Some _ => true | None => false end.

(** [s.split(sep)] for a non-empty [sep]: cut at every occurrence, left to
    right, occurrences not overlapping.  Each cut removes at least one
    character, so [length s] rounds are enough ([split_fuel_enough]). *)
Fixpoint split_fuel (n : nat) (sep s : str) : list str :=
  match n with
  | O => [s]
  | S n' =>
      match partition sep s with
      | Some (a, rest) => a :: split_fuel n' sep rest
      | None => [s]
      end
  end.

Definition split (sep s : str) : list str := split_fuel (length s) sep s.

(** [s.rsplit(sep, 1)]: one cut, at the last occurrence of [sep];
    [None] stands for the one-element list Python returns when [sep] does
    not occur. *)
Definition rsplit1 (sep s : str) : option (str * str) :=
  match partition (rev sep) (rev s) with
  | Some (b, a) => Some (rev a, rev b)
  | None => None
  end.

(** [s.replace(old, "")] for a non-empty [old]. *)
Definition remove_all (old s : str) : str := concat (split old s).

(** The decimal digits of ASCII, and the strings made of them. *)
Definition ascii_digit (c : char) : bool := ((48 <=? c) && (c <=? 57))%N.

Definition all_digits (s : str) : bool := forallb ascii_digit s.

(** [str.lower] on the ASCII range, where it maps [A-Z] to [a-z]; the ids
    that [company_id] lowers are made of ASCII prefixes and registration
    numbers, and code points beyond ASCII are left as they are here. *)
Definition lower_char (c : char) : char :=
  if ((65 <=? c) && (c <=? 90))%N then (c + 32)%N else c.

Definition lower (s : str) : str := map lower_char s.

(** A calendar date, as [datetime.date] holds it. *)
Record date := { year : Z; month : Z; day : Z }.

(** Values found in a spreadsheet cell or a JSON field. [VOther] is a value
    of another type (float, datetime), kept by its [str()] rendering; it is
    neither a [str] nor an [int].  A [bool] is an [int] for [isinstance]. *)
Inductive pyval :=
| VNone
| VStr (s : str)
| VInt (z : Z)
| VBool (b : bool)
| VDate (d : date)
| VOther (rendering : str).

Definition str_of_Z (z : Z) : str := py (NilEmpty.string_of_int (Z.to_int z)).

(** [z] in at least [n] digits, as [%04d] and [%02d] print a number that is
    not negative. *)
Definition zero_padded (n : nat) (z : Z) : str :=
  let digits := str_of_Z z in
  repeat 48%N (n - length digits) ++ digits.

(** [date.isoformat()] *)
Definition isoformat (d : date) : str :=
  zero_padded 4 (year d) ++ py "-" ++ zero_padded 2 (month d)
  ++ py "-" ++ zero_padded 2 (day d).

(** [str(v)] as an f-string renders it. *)
Definition to_str (v : pyval) : str :=
  match v with
  | VNone => py "None"
  | VStr s => s
  | VInt z => str_of_Z z
  | VBool true => py "True"
  | VBool false => py "False"
  | VDate d => isoformat d
  | VOther r => r
  end.

Definition of_opt (o : option str) : pyval :=
  match o with Some s => VStr s | None => VNone end.

(** The exceptions the three parsers can raise. *)
Inductive exn :=
| KeyError (key : pyval)
| ValueError
| AttributeError.

End Py.
Import Py.


(* ===================================================================== *)
(** * The crawler context: emitted entities, log, exceptions *)
(* ===================================================================== *)

Module Ctx.

(** An entity proxy as the parsers build it: [context.make(schema)], then an
    id, then a run of [add(prop, value)] calls.  [props] keeps the [add]
    calls in order with the values as they were handed over. *)
Record entity := {
  schema : string;
  id : option str;
  props : list (string * pyval)
}.

Definition make (sch : string) : entity :=
  {| schema := sch; id := None; props := [] |}.

Definition set_id (i : option str) (e : entity) : entity :=
  {| schema := schema e; id := i; props := props e |}.

Definition add (prop : string) (v : pyval) (e : entity) : entity :=
  {| schema := schema e; id := id e; props := props e ++ [(prop, v)] |}.

(** An entity handed to [add] stands for its id. *)
Definition ref (e : entity) : pyval := of_opt (id e).

Inductive level := Info | Warning | Error.

Record log_entry := {
  lvl : level;
  msg : string;
  args : list pyval
}.

(** What [re]'s [groupdict()] returns: the named groups in pattern order,
    [None] for a group that took no part in the match. *)
Definition groupdict := list (string * option str).

(** What a run has produced so far: the output stream, oldest first, the
    log, and the table of the one memoized function of the code base,
    [parse_officer_company_name] of de_offeneregister: its [lru_cache], most
    recently used entry first.  The table holds the result objects
    themselves, so a caller that changes a result changes the entry. *)
Record context := {
  emitted : list entity;
  logged : list log_entry;
  memo : list (str * option groupdict)
}.

Definition start : context := {| emitted := []; logged := []; memo := [] |}.

Inductive outcome (A : Type) :=
| Ok (a : A)
| Raise (e : exn).
Arguments Ok {A} a.
Arguments Raise {A} e.

(** A statement of a parser: it may emit and log, and returns or raises.
    What was emitted before an exception stays emitted. *)
Definition M (A : Type) := context -> context * outcome A.

Definition ret {A} (a : A) : M A := fun c => (c, Ok a).

Definition raise {A} (e : exn) : M A := fun c => (c, Raise e).

Definition bind {A B} (m : M A) (k : A -> M B) : M B :=
  fun c =>
    match m c with
    | (c', Ok a) => k a c'
    | (c', Raise e) => (c', Raise e)
    end.

Definition lift {A} (o : outcome A) : M A := fun c => (c, o).

(** [context.emit(e)] *)
Definition emit (e : entity) : M unit :=
  fun c =>
    ({| emitted := emitted c ++ [e]; logged := logged c; memo := memo c |},
     Ok tt).

(** [context.log.<level>(msg, args)] *)
Definition log (l : level) (m : string) (a : list pyval) : M unit :=
  fun c =>
    ({| emitted := emitted c;
        logged := logged c ++ [{| lvl := l; msg := m; args := a |}];
        memo := memo c |}, Ok tt).

(** [for x in xs: body(x)]; a [continue] is a body that returns. *)
Fixpoint for_each {A} (xs : list A) (body : A -> M unit) : M unit :=
  match xs with
  | [] => ret tt
  | x :: xs' => bind (body x) (fun _ => for_each xs' body)
  end.

(** A statement run from a context that satisfies [P]: it returns a value
    and a context that satisfy [Q], or raises in a context that satisfies
    [E]. *)
Definition triple {A} (P : context -> Prop) (m : M A)
    (Q : A -> context -> Prop) (E : context -> Prop) : Prop :=
  forall c, P c ->
    match m c with
    | (c', Ok a) => Q a c'
    | (c', Raise _) => E c'
    end.

(** The context after [ls] went to the log, in this order. *)
Definition log_all (ls : list log_entry) (c : context) : context :=
  {| emitted := emitted c; logged := logged c ++ ls; memo := memo c |}.

(** The context after [es] went out, in this order. *)
Definition emit_all (es : list entity) (c : context) : context :=
  {| emitted := emitted c ++ es; logged := logged c; memo := memo c |}.

(** The two kinds of edge of the graph, and the properties that name the
    entities at their ends. *)
Definition is_relationship (e : entity) : bool :=
  String.eqb (schema e) "Directorship" || String.eqb (schema e) "Ownership".

Definition is_end (prop : string) : bool :=
  existsb (String.eqb prop) ["organization"; "director"; "asset"; "owner"]%string.

Definition ends (e : entity) : list pyval :=
  map snd (filter (fun kv => is_end (fst kv)) (props e)).

(** [v] is the id of an entity among [seen]. *)
Definition resolved (seen : list entity) (v : pyval) : bool :=
  match v with
  | VStr i =>
      existsb (fun e =>
        negb (is_relationship e)
        && match id e with Some j => str_eqb i j | None => false end) seen
  | _ => false
  end.

(** The ordering invariant on an output stream: each relationship finds the
    entities at its ends among what went out before it. *)
Fixpoint ordered_after (seen out : list entity) : bool :=
  match out with
  | [] => true
  | e :: out' =>
      (if is_relationship e then forallb (resolved seen) (ends e) else true)
      && ordered_after (seen ++ [e]) out'
  end.

Definition ordered (out : list entity) : bool := ordered_after [] out.

(** The relationship [r] runs between [a] and [b], named in this order. *)
Definition links (r a b : entity) : Prop :=
  is_relationship r = true /\ ends r = [ref a; ref b].

(** A sub-record entity of [company] and the edge that runs from [company]
    to it. *)
Definition sub_ok (company : entity) (p : entity * entity) : Prop :=
  is_relationship (fst p) = false /\ links (snd p) company (fst p).

(** An officer entity of [company] and the edge that runs from it to
    [company]. *)
Definition officer_ok (company : entity) (p : entity * entity) : Prop :=
  is_relationship (fst p) = false /\ links (snd p) (fst p) company.

(** A stream made of relationships each followed by one entity. *)
Definition edge_first (subs : list (entity * entity)) : list entity :=
  flat_map (fun p => [snd p; fst p]) subs.

(** A stream made of entities each followed by one relationship. *)
Definition in_pairs (subs : list (entity * entity)) : list entity :=
  flat_map (fun p => [fst p; snd p]) subs.

End Ctx.
Import Ctx.

Declare Scope py_scope.
Delimit Scope py_scope with py.
Notation "x <- m ;; k" := (bind m (fun x => k))
  (at level 61, m at next level, right associativity) : py_scope.
Notation "m ;; k" := (bind m (fun _ => k))
  (at level 61, right associativity) : py_scope.
Open Scope py_scope.

(** The library functions the parsers call and whose code is not theirs:
    zavod's id helpers, followthemoney's and fingerprints' text helpers,
    [datetime.strptime] for the one format used, and the Unicode tables of
    [re] beyond the ASCII range. *)
Class Externals := {
  (** [context.make_id(parts...)] *)
  make_id : list pyval -> option str;
  (** [context.make_slug(parts...)] *)
  make_slug : list pyval -> option str;
  (** [followthemoney.util.make_entity_id(parts...)] *)
  make_entity_id : list pyval -> option str;
  (** [followthemoney.util.join_text(parts...)] *)
  join_text : list pyval -> option str;
  (** [fingerprints.generate(name)] *)
  fp : str -> option str;
  (** whether followthemoney's country type keeps the value, which is what
      [bo.has("country")] asks after [bo.add("country", value)] *)
  country_known : str -> bool;
  (** [datetime.strptime(text, "%d/%m/%Y").date()]; [None] for [ValueError] *)
  strptime_dmy : str -> option date;
  (** [str.isalnum] and [str.isdecimal] on one code point above 127 *)
  uni_alnum : char -> bool;
  uni_decimal : char -> bool;
  (** [re.IGNORECASE]: does the pattern's literal match this code point
      above 127 *)
  uni_ignorecase : char -> char -> bool
}.

(* ===================================================================== *)
(** * datasets/md_companies/parse.py *)
(* ===================================================================== *)

Module MdCompanies.

(** One spreadsheet row, by the headers [parse_company] pops. *)
Record row := {
  idno : pyval;           (* "IDNO/ Cod fiscal" *)
  name : pyval;           (* "Denumirea completa" *)
  address : pyval;        (* "Adresa" *)
  registered : pyval;     (* "Data inregistrarii" *)
  liquidated : pyval;     (* "Data lichidarii" *)
  legal_form : pyval;     (* "Forma org./jurid." *)
  directors : pyval;      (* "Lista conducatorilor" *)
  founders : pyval;       (* "Lista fondatorilor" *)
  owners : pyval          (* "Lista beneficiarilor efectivi" *)
}.

(** The body and tag of one fragment of the directors field: lines 41-48 of
    the loop of [parse_directors].  When [rsplit] gives one element the
    unpacking raises [ValueError], which the source catches: the fragment is
    kept whole and the role stays [None]. *)
Definition director_fields (director : str) : str * option str :=
  match rsplit1 (py "[") director with
  | Some (director', role) =>
      (strip director', Some (strip (remove_all (py "]") role)))
  | None => (strip director, None)
  end.

(** The same for founders and owners: lines 72-77 and 95-100. *)
Definition founder_fields (founder : str) : outcome (str * option str) :=
  let founder := remove_all (py ")") founder in
  if contains (py "(") founder then
    match rsplit1 (py "(") founder with
    | Some (founder', percentage) => Ok (strip founder', Some percentage)
    | None => Raise ValueError
    end
  else Ok (strip founder, None).

Section Parse.
Context {ext : Externals}.

Definition legal_entity (company : entity) (director : str) : entity :=
  add "name" (VStr director)
    (set_id (make_id [ref company; VStr director]) (make "LegalEntity")).

Definition directorship (company dir : entity) (director : str)
    (role : option str) : entity :=
  add "role" (of_opt role)
    (add "director" (ref dir)
      (add "organization" (ref company)
        (set_id (make_id [VStr (py "Directorship"); ref company;
                          VStr director; of_opt role])
           (make "Directorship")))).

Definition parse_directors (company : entity) (directors : pyval) : M unit :=
  match directors with
  | VNone => ret tt
  | VStr directors =>
      for_each (split (py "],") directors) (fun director =>
        let '(director, role) := director_fields director in
        if len director <? 3 then ret tt
        else
          let dir := legal_entity company director in
          emit dir ;;
          emit (directorship company dir director role))
  | _ => raise AttributeError
  end.

Definition ownership (company owner : entity) (body : str) (role : pyval)
    : entity :=
  add "role" role
    (add "owner" (ref owner)
      (add "asset" (ref company)
        (set_id (make_id [VStr (py "Ownership"); ref company; VStr body])
           (make "Ownership")))).

Definition parse_founders (company : entity) (founders : pyval) : M unit :=
  match founders with
  | VNone => ret tt
  | VInt _ | VBool _ => log Warning "last line: %s" [founders]
  | VStr founders =>
      for_each (split (py "),") founders) (fun founder =>
        fields <- lift (founder_fields founder) ;;
        let '(founder, percentage) := fields in
        let found := legal_entity company founder in
        emit found ;;
        emit (ownership company found founder (of_opt percentage)))
  | VDate _ | VOther _ => raise AttributeError
  end.

Definition owner_entity (company : entity) (owner : str)
    (country : option str) : entity :=
  add "country" (of_opt country) (legal_entity company owner).

Definition parse_owners (company : entity) (owners : pyval) : M unit :=
  match owners with
  | VNone => ret tt
  | VStr owners =>
      for_each (split (py "),") owners) (fun owner =>
        fields <- lift (founder_fields owner) ;;
        let '(owner, country) := fields in
        let bo := owner_entity company owner country in
        match country with
        | Some c =>
            if country_known c then ret tt
            else log Warning "Unknown country code" [VStr c]
        | None => ret tt
        end ;;
        emit bo ;;
        emit (ownership company bo owner
                (VStr (py "beneficiarilor efectivi"))))
  | _ => raise AttributeError
  end.

(** The sub-records of a directors field, as the loop of [parse_directors]
    keeps them, and what it emits for one. *)
Definition director_records (directors : str) : list (str * option str) :=
  filter (fun r => negb (len (fst r) <? 3))
    (map director_fields (split (py "],") directors)).

Definition director_pair (company : entity) (r : str * option str)
    : list entity :=
  let dir := legal_entity company (fst r) in
  [dir; directorship company dir (fst r) (snd r)].

(** The sub-records of a founders or owners field. *)
Definition founder_records (founders : str) : list (str * option str) :=
  flat_map (fun f => match founder_fields f with
                     | Ok r => [r]
                     | Raise _ => []
                     end)
    (split (py "),") founders).

Definition founder_pair (company : entity) (r : str * option str)
    : list entity :=
  let found := legal_entity company (fst r) in
  [found; ownership company found (fst r) (of_opt (snd r))].

Definition owner_pair (company : entity) (r : str * option str)
    : list entity :=
  let bo := owner_entity company (fst r) (snd r) in
  [bo; ownership company bo (fst r) (VStr (py "beneficiarilor efectivi"))].

Definition company_key (data : row) : option str :=
  match idno data with
  | VNone => make_id [name data; address data]
  | v => Some (py "oc-companies-md-" ++ to_str v)
  end.

Definition company_entity (data : row) : entity :=
  add "legalForm" (legal_form data)
    (add "address" (address data)
      (add "jurisdiction" (VStr (py "md"))
        (add "dissolutionDate" (liquidated data)
          (add "incorporationDate" (registered data)
            (add "name" (name data)
              (set_id (company_key data) (make "Company"))))))).

Definition parse_company (data : row) : M unit :=
  match company_key data with
  | None => log Error "Cannot generate key" [idno data; name data; address data]
  | Some _ =>
      let company := company_entity data in
      parse_directors company (directors data) ;;
      parse_founders company (founders data) ;;
      parse_owners company (owners data) ;;
      emit company
  end.

(** The stream of one company: sub-record entities each followed by its
    edge to the company, then the company itself, which goes out last and
    only if [parse_company] returned with a key. *)
Definition company_stream (data : row) (c : context) : Prop :=
  exists subs,
    Forall (sub_ok (company_entity data)) subs
    /\ emitted (fst (parse_company data c))
       = emitted c ++ in_pairs subs
         ++ match snd (parse_company data c), company_key data with
            | Ok _, Some _ => [company_entity data]
            | _, _ => []
            end.

End Parse.
End MdCompanies.

(* ===================================================================== *)
(** * Python's [re], as far as the two patterns of RE_PATTERNS need it *)
(* ===================================================================== *)

Module Re.

(** A member of a character set: [\w], [\s], [\d] or one character. *)
Inductive item :=
| IWord
| ISpace
| IDigit
| IChar (c : char).

Inductive regex :=
| Eps
| Lit (c : char)                          (* one literal character *)
| Any                                     (* [.], without DOTALL *)
| OneOf (items : list item)               (* [[...]], [\s], [\d] *)
| Seq (a b : regex)
| Alt (a b : regex)                       (* [a|b], [a] tried first *)
| Star (a : regex)                        (* [a*], greedy *)
| Group (name : option string) (a : regex).  (* [(?P<name>a)], [(a)] *)

(** [a+] *)
Definition Plus (a : regex) : regex := Seq a (Star a).
(** [a?], greedy *)
Definition Opt (a : regex) : regex := Alt a Eps.

Definition seq (rs : list regex) : regex := fold_right Seq Eps rs.

Definition lits (s : string) : regex := seq (map Lit (py s)).

(** The named groups, in the order they open. *)
Fixpoint group_names (r : regex) : list string :=
  match r with
  | Seq a b | Alt a b => group_names a ++ group_names b
  | Star a => group_names a
  | Group (Some n) a => n :: group_names a
  | Group None a => group_names a
  | _ => []
  end.

Definition captures := list (string * str).

(** What follows a pattern: it takes the rest of the text and the groups
    captured so far. *)
Definition cont := str -> captures -> option captures.

Fixpoint captured (n : string) (g : captures) : option str :=
  match g with
  | [] => None
  | (n', v) :: g' => if String.eqb n n' then Some v else captured n g'
  end.

Section Engine.
Context {ext : Externals}.

Definition ascii_alnum (c : char) : bool :=
  ((48 <=? c) && (c <=? 57) || (65 <=? c) && (c <=? 90)
   || (97 <=? c) && (c <=? 122))%N.

(** [\w] on a [str] pattern: alphanumeric or underscore. *)
Definition is_word (c : char) : bool :=
  if (c <? 128)%N then ascii_alnum c || (c =? 95)%N else uni_alnum c.

(** [\d] on a [str] pattern. *)
Definition is_digit (c : char) : bool :=
  if (c <? 128)%N then ((48 <=? c) && (c <=? 57))%N else uni_decimal c.

(** A literal of the pattern against a character of the text, under
    [re.IGNORECASE]. *)
Definition same_letter (p c : char) : bool :=
  if (c <? 128)%N then (lower_char c =? lower_char p)%N
  else uni_ignorecase p c.

Definition in_item (i : item) (c : char) : bool :=
  match i with
  | IWord => is_word c
  | ISpace => isspace c
  | IDigit => is_digit c
  | IChar p => same_letter p c
  end.

(** The rounds of a greedy repetition, [step] matching its body once: one
    more round is tried before the rest of the pattern [k], and a round has
    to consume a character.  [n] bounds the number of rounds. *)
Fixpoint rounds (step : str -> captures -> cont -> option captures)
    (k : cont) (n : nat) (s : str) (g : captures) {struct n}
    : option captures :=
  match n with
  | O => k s g
  | S n' =>
      match step s g (fun s' g' =>
              if length s' <? length s then rounds step k n' s' g' else None)
      with
      | Some g' => Some g'
      | None => k s g
      end
  end.

(** Backtracking matcher with the continuation [k] for the rest of the
    pattern: an alternation tries its left branch first, a group records
    what its body consumed, and a repetition gets as many rounds as the
    text has characters, which is all it can use ([rounds_enough]). *)
Fixpoint run (r : regex) (s : str) (g : captures) (k : cont) {struct r}
    : option captures :=
  match r with
  | Eps => k s g
  | Lit p =>
      match s with
      | c :: s' => if same_letter p c then k s' g else None
      | [] => None
      end
  | Any =>
      match s with
      | c :: s' => if (c =? 10)%N then None else k s' g
      | [] => None
      end
  | OneOf items =>
      match s with
      | c :: s' => if existsb (fun i => in_item i c) items then k s' g else None
      | [] => None
      end
  | Seq a b => run a s g (fun s' g' => run b s' g' k)
  | Alt a b =>
      match run a s g k with
      | Some g' => Some g'
      | None => run b s g k
      end
  | Star a => rounds (run a) k (length s) s g
  | Group name a =>
      run a s g (fun s' g' =>
        k s' match name with
             | Some n => (n, firstn (length s - length s') s) :: g'
             | None => g'
             end)
  end.

(** [pat.match(s)] followed by [.groupdict()]: anchored at the start only. *)
Definition match_groupdict (pat : regex) (s : str) : option groupdict :=
  match run pat s [] (fun _ g => Some g) with
  | Some g => Some (map (fun n => (n, captured n g)) (group_names pat))
  | None => None
  end.

End Engine.
End Re.

(** A literal [dict] with [str] keys; a key that is not a [str] is in none
    of the tables below. *)
Fixpoint dict_get {V} (k : str) (d : list (str * V)) : option V :=
  match d with
  | [] => None
  | (k', v) :: d' => if str_eqb k k' then Some v else dict_get k d'
  end.

Definition dict_lookup {V} (k : pyval) (d : list (str * V)) : option V :=
  match k with
  | VStr s => dict_get s d
  | _ => None
  end.

(* ===================================================================== *)
(** * datasets/de_offeneregister/parse.py *)
(* ===================================================================== *)

Module DeOffeneregister.
Import Re.

Definition SCHEMES : list (str * (string * str)) :=
  [ (py "HRA", ("Company"%string, py "Unternehmen"));
    (py "HRB", ("Company"%string, py "Kapitalgesellschaft"));
    (py "VR", ("Organization"%string, py "Verein"));
    (py "PR", ("Organization"%string,
               py "Partnerschaft (Personengesellschaft)"));
    (py "GnR", ("Organization"%string, py "Genossenschaft")) ].

(** The keys with umlauts are spelled by code point: a-umlaut 228,
    o-umlaut 246, u-umlaut 252. *)
Definition REL_SCHEMS : list (str * string) :=
  [ (py "Gesch" ++ [228%N] ++ py "ftsf" ++ [252%N] ++ py "hrer",
     "Directorship"%string);
    (py "Inhaber", "Ownership"%string);
    (py "Liquidator", "Directorship"%string);
    (py "Pers" ++ [246%N] ++ py "nlich haftender Gesellschafter",
     "Ownership"%string);
    (py "Prokurist", "Directorship"%string);
    (py "Vorstand", "Directorship"%string) ].

Definition MAPPING : list (str * string) :=
  [ (py "firstname", "firstName"%string);
    (py "lastname", "lastName"%string);
    (py "city", "address"%string);
    (py "start_date", "startDate"%string);
    (py "end_date", "endDate"%string);
    (py "position", "role"%string);
    (py "flag", "description"%string) ].

Definition court : regex := Seq (Plus (OneOf [IWord])) (lits "gericht").

Definition reg_types : regex :=
  Alt (lits "HRA") (Alt (lits "HRB") (Alt (lits "VR")
    (Alt (lits "PR") (lits "GnR")))).

(** The tail both patterns share, piece by piece: an opening parenthesis,
    [[\w]+gericht], [\s], group reg [.+], [\s], group reg_type
    [(HRA|HRB|VR|PR|GnR)], [\s], group reg_nr [[\d]+], a closing
    parenthesis, [,?], [\s?], and group summary, any characters. *)
Definition registry_tail : list regex :=
  [ Lit (ch "("); court; OneOf [ISpace];
    Group (Some "reg"%string) (Plus Any); OneOf [ISpace];
    Group (Some "reg_type"%string) (Group None reg_types); OneOf [ISpace];
    Group (Some "reg_nr"%string) (Plus (OneOf [IDigit]));
    Lit (ch ")"); Opt (Lit (ch ",")); Opt (OneOf [ISpace]);
    Group (Some "summary"%string) (Star Any) ].

(** Group name, any characters, then [,\s], group city [[\w\s-]+], [\s]
    and the tail. *)
Definition pattern_with_city : regex :=
  seq ([ Group (Some "name"%string) (Star Any); Lit (ch ","); OneOf [ISpace];
         Group (Some "city"%string)
           (Plus (OneOf [IWord; ISpace; IChar (ch "-")]));
         OneOf [ISpace] ] ++ registry_tail).

(** Group name, any characters, then [\s] and the tail. *)
Definition pattern_without_city : regex :=
  seq ([ Group (Some "name"%string) (Star Any); OneOf [ISpace] ]
       ++ registry_tail).

Definition RE_PATTERNS : list regex :=
  [ pattern_with_city; pattern_without_city ].

(** One officer of a record: the keys [make_officer_and_rel] and [make_rel]
    pop, and the items of ["other_attributes"] (empty when the key is
    missing). *)
Record officer := {
  o_type : pyval;                         (* "type" *)
  o_name : str;                           (* "name" *)
  o_position : pyval;                     (* "position" *)
  o_other : list (str * pyval)            (* "other_attributes" *)
}.

(** One line of the dump: the keys [make_company] and [parse_record] pop. *)
Record record := {
  register_art : pyval;                   (* all_attributes._registerArt *)
  native_company_number : pyval;          (* all_attributes.native_company_number *)
  register_nummer : pyval;                (* all_attributes._registerNummer *)
  current_status : pyval;
  company_number : pyval;
  jurisdiction_code : pyval;
  company_name : pyval;                   (* "name" *)
  registered_address : pyval;
  previous_names : list pyval;            (* company_name of each *)
  retrieved_at : pyval;
  officers : list officer
}.

(** followthemoney's model, for the two schemata [SCHEMES] names: a Company
    is an Asset, an Organization is not. *)
Definition is_a_Asset (sch : string) : bool := String.eqb sch "Company".

Fixpoint memo_find {V} (name : str) (m : list (str * V)) : option V :=
  match m with
  | [] => None
  | (n, v) :: m' => if str_eqb name n then Some v else memo_find name m'
  end.

Fixpoint memo_drop {V} (name : str) (m : list (str * V)) : list (str * V) :=
  match m with
  | [] => []
  | (n, v) :: m' =>
      if str_eqb name n then memo_drop name m' else (n, v) :: memo_drop name m'
  end.

(** [@lru_cache] without arguments keeps 128 entries. *)
Definition maxsize : nat := 128.

(** The entry of [name] becomes the most recent one; the least recent one
    goes when the table is full. *)
Definition memo_touch {V} (name : str) (v : V) (m : list (str * V))
    : list (str * V) :=
  firstn maxsize ((name, v) :: memo_drop name m).

(** The result object cached for [name] now has the contents [v]. *)
Fixpoint memo_store {V} (name : str) (v : V) (m : list (str * V))
    : list (str * V) :=
  match m with
  | [] => []
  | (n, v') :: m' =>
      if str_eqb name n then (n, v) :: m' else (n, v') :: memo_store name v m'
  end.

Definition set_memo (m : list (str * option groupdict)) (c : context)
    : context :=
  {| emitted := emitted c; logged := logged c; memo := m |}.

Fixpoint dict_pop (key : string) (d : groupdict)
    : option (option str * groupdict) :=
  match d with
  | [] => None
  | (k, v) :: d' =>
      if String.eqb key k then Some (v, d')
      else match dict_pop key d' with
           | Some (v', d'') => Some (v', (k, v) :: d'')
           | None => None
           end
  end.

Section Parse.
Context {ext : Externals}.

(** The body of [parse_officer_company_name]: the first pattern that
    matches gives its [groupdict()], and no pattern gives [None]. *)
Fixpoint first_match (pats : list regex) (name : str) : option groupdict :=
  match pats with
  | [] => None
  | pat :: pats' =>
      match match_groupdict pat name with
      | Some d => Some d
      | None => first_match pats' name
      end
  end.

(** [parse_officer_company_name] under [@lru_cache]: a name in the table
    gets the object stored for it, whatever its callers did to it since. *)
Definition parse_officer_company_name (name : str) : M (option groupdict) :=
  fun c =>
    let v := match memo_find name (memo c) with
             | Some v => v
             | None => first_match RE_PATTERNS name
             end in
    (set_memo (memo_touch name v (memo c)) c, Ok v).

(** [parsed_data.pop(key)] and [parsed_data.pop(key, None)] on the dict that
    [parse_officer_company_name name] returned: it is the cached object, so
    the table sees the key go. *)
Definition pop_parsed (name : str) (key : string) (default : bool)
    (d : groupdict) : M (option str * groupdict) :=
  match dict_pop key d with
  | Some (v, d') =>
      fun c => (set_memo (memo_store name (Some d') (memo c)) c, Ok (v, d'))
  | None =>
      if default then ret (None, d)
      else raise (KeyError (VStr (py key)))
  end.

(** The loop over ["other_attributes"] that officers and relationships
    share. *)
Fixpoint add_mapped (items : list (str * pyval)) (proxy : entity) : entity :=
  match items with
  | [] => proxy
  | (key, value) :: items' =>
      add_mapped items'
        match dict_get key MAPPING with
        | Some prop => add prop value proxy
        | None => proxy
        end
  end.

Definition make_rel (company officer_proxy : entity) (data : officer)
    (summary : option str) : M unit :=
  let type_ := o_position data in
  match dict_lookup type_ REL_SCHEMS with
  | None => raise (KeyError type_)
  | Some sch =>
      let proxy :=
        if String.eqb sch "Ownership" && is_a_Asset (schema company)
        then add "asset" (ref company)
               (add "owner" (ref officer_proxy) (make sch))
        else add "organization" (ref company)
               (add "director" (ref officer_proxy) (make "Directorship")) in
      let proxy :=
        set_id (make_slug [VStr (py "rel");
                           of_opt (make_entity_id
                                     [ref company; ref officer_proxy; type_])])
          proxy in
      let proxy := add "role" type_ proxy in
      let proxy := add "summary" (of_opt summary) proxy in
      emit (add_mapped (o_other data) proxy)
  end.

(** The id of an officer that has no registry reference: lines 118-120, 124
    and 129. *)
Definition opaque_id (company : entity) (name : str) : option str :=
  make_slug [VStr (py "officer");
             of_opt (make_entity_id [ref company; of_opt (fp name)])].

Definition opaque_officer (sch : string) (company : entity) (name : str)
    : entity :=
  set_id (opaque_id company name) (add "name" (VStr name) (make sch)).

(** Lines 98-133 of [make_officer_and_rel]: the officer proxy and the
    summary for its relationship. *)
Definition make_officer (company : entity) (data : officer)
    : M (entity * option str) :=
  let type_ := o_type data in
  let name := o_name data in
  built <-
    match type_ with
    | VStr t =>
        if str_eqb t (py "company") then
          parsed_data <- parse_officer_company_name name ;;
          match parsed_data with
          | Some ((_ :: _) as d) =>
              p1 <- pop_parsed name "name" false d ;;
              let proxy := add "name" (of_opt (fst p1)) (make "Company") in
              p2 <- pop_parsed name "city" true (snd p1) ;;
              let proxy := add "address" (of_opt (fst p2)) proxy in
              p3 <- pop_parsed name "reg" false (snd p2) ;;
              p4 <- pop_parsed name "reg_type" false (snd p3) ;;
              p5 <- pop_parsed name "reg_nr" false (snd p4) ;;
              let reg := [of_opt (fst p3); of_opt (fst p4); of_opt (fst p5)] in
              let proxy :=
                add "registrationNumber" (of_opt (join_text reg)) proxy in
              let proxy :=
                add "registrationNumber" (of_opt (join_text (tl reg))) proxy in
              let proxy := set_id (make_slug reg) proxy in
              p6 <- pop_parsed name "summary" false (snd p5) ;;
              ret (proxy, fst p6)
          | _ => ret (opaque_officer "Company" company name, None)
          end
        else if str_eqb t (py "person") then
          ret (opaque_officer "Person" company name, None)
        else
          log Warning "Unknown type: %s" [type_] ;;
          ret (opaque_officer "LegalEntity" company name, None)
    | _ =>
        log Warning "Unknown type: %s" [type_] ;;
        ret (opaque_officer "LegalEntity" company name, None)
    end ;;
  ret (add_mapped (o_other data) (fst built), snd built).

Definition make_officer_and_rel (company : entity) (data : officer)
    : M unit :=
  built <- make_officer company data ;;
  make_rel company (fst built) data (snd built) ;;
  emit (fst built).

Definition make_company (data : record) : M entity :=
  let reg_art := register_art data in
  match dict_lookup reg_art SCHEMES with
  | None => raise (KeyError reg_art)
  | Some (sch, legalForm) =>
      let proxy := add "legalForm" (VStr legalForm) (make sch) in
      let reg_nr := native_company_number data in
      let proxy := add "registrationNumber" reg_nr proxy in
      let proxy := set_id (make_slug [reg_nr]) proxy in
      let proxy :=
        add "registrationNumber"
          (VStr (to_str reg_art ++ py " " ++ to_str (register_nummer data)))
          proxy in
      let proxy := add "status" (current_status data) proxy in
      let proxy :=
        add "opencorporatesUrl"
          (VStr (py "https://opencorporates.com/companies/de/"
                 ++ to_str (company_number data))) proxy in
      let proxy := add "jurisdiction" (jurisdiction_code data) proxy in
      let proxy := add "name" (company_name data) proxy in
      let proxy := add "address" (registered_address data) proxy in
      let proxy :=
        fold_left (fun p n => add "previousName" n p) (previous_names data)
          proxy in
      let proxy := add "retrievedAt" (retrieved_at data) proxy in
      emit proxy ;;
      ret proxy
  end.

Definition parse_record (r : record) : M unit :=
  company <- make_company r ;;
  for_each (officers r) (make_officer_and_rel company).

(** The loop of [parse] over the decoded lines, [ix] records done so far. *)
Fixpoint parse_from (ix : N) (records : list record) : M unit :=
  match records with
  | [] =>
      if (ix =? 0)%N then ret tt
      else log Info "Parsed %d records." [VInt (Z.of_N (ix + 1))]
  | r :: records' =>
      parse_record r ;;
      let ix := (ix + 1)%N in
      (if (ix mod 10000 =? 0)%N
       then log Info "Parse record %d ..." [VInt (Z.of_N ix)]
       else ret tt) ;;
      parse_from ix records'
  end.

Definition parse (records : list record) : M unit := parse_from 0 records.

(** What the registry branch of [make_officer_and_rel] builds from the
    values it pops, put together: lines 102-114. *)
Definition registered_officer (name city reg reg_type reg_nr : option str)
    : entity :=
  let regs := [of_opt reg; of_opt reg_type; of_opt reg_nr] in
  set_id (make_slug regs)
    (add "registrationNumber" (of_opt (join_text (tl regs)))
      (add "registrationNumber" (of_opt (join_text regs))
        (add "address" (of_opt city)
          (add "name" (of_opt name) (make "Company"))))).

(** [d.get(key)] *)
Definition dict_value (key : string) (d : groupdict) : option str :=
  match dict_pop key d with
  | Some (v, _) => v
  | None => None
  end.

(** What a call of [parse_officer_company_name name] returns in context
    [c]: the object in the table, or a new result. *)
Definition cached (name : str) (c : context) : option groupdict :=
  match memo_find name (memo c) with
  | Some v => v
  | None => first_match RE_PATTERNS name
  end.

(** What the table may hold for [name] between two calls of
    [make_officer_and_rel]: the result as computed, or that result after a
    caller popped every key of it. *)
Definition entry_ok (name : str) (v : option groupdict) : Prop :=
  v = first_match RE_PATTERNS name
  \/ (v = Some [] /\ first_match RE_PATTERNS name <> None).

Definition memo_wf (c : context) : Prop :=
  forall name v, memo_find name (memo c) = Some v -> entry_ok name v.

(** The stream of one record: the company, then for each officer the
    relationship followed by the officer it names. *)
Definition record_stream (r : record) (c : context) : Prop :=
  exists company subs,
    is_relationship company = false
    /\ Forall (officer_ok company) subs
    /\ snd (parse_record r c) = Ok tt
    /\ emitted (fst (parse_record r c))
       = emitted c ++ company :: edge_first subs.

(** The entry that line 126 logs for [type_]. *)
Definition unknown_type (type_ : pyval) : log_entry :=
  {| lvl := Warning; msg := "Unknown type: %s"; args := [type_] |}.

(** Is the officer type one of the two the code knows. *)
Definition type_known (type_ : pyval) : bool :=
  match type_ with
  | VStr t => str_eqb t (py "company") || str_eqb t (py "person")
  | _ => false
  end.

End Parse.
End DeOffeneregister.

(* ===================================================================== *)
(** * datasets/cy_companies/parse.py *)
(* ===================================================================== *)

Module CyCompanies.

Definition TYPES : list (str * str) :=
  [ (py "C", py "HE"); (py "P", py "S"); (py "O", py "AE");
    (py "N", py "BN"); (py "B", py "B") ].

(** The second organisation type that [parse_organisations] passes over, a
    Greek phrase, by code point. *)
Definition trade_name : str :=
  [917; 956; 960; 959; 961; 953; 954; 942; 32;
   917; 960; 969; 957; 965; 956; 943; 945]%N.

(** One row of an [organisations_] file, by the columns the loop pops, and
    the columns it leaves. *)
Record organisation := {
  ORGANISATION_TYPE_CODE : str;
  REGISTRATION_NO : str;
  ORGANISATION_NAME : str;
  ORGANISATION_STATUS : str;
  ORGANISATION_TYPE : str;
  ORGANISATION_SUB_TYPE : str;
  REGISTRATION_DATE : option str;
  ORGANISATION_STATUS_DATE : option str;
  ADDRESS_SEQ_NO : str;
  other_columns : list (str * pyval)
}.

(** One row of an [organisation_officials_] file. *)
Record official := {
  official_type_code : str;               (* ORGANISATION_TYPE_CODE *)
  official_registration_no : str;         (* REGISTRATION_NO *)
  PERSON_OR_ORGANISATION_NAME : str;
  OFFICIAL_POSITION : str
}.

Definition company_id (org_type reg_nr : str) : outcome str :=
  match dict_get org_type TYPES with
  | None => Raise (KeyError (VStr org_type))
  | Some org_type_oc =>
      Ok (lower (py "oc-companies-cy-" ++ org_type_oc ++ reg_nr))
  end.

(** zavod's [audit_data(row, ignore)]: one warning when a column that is
    not ignored still holds a value. *)
Definition audit_data (left : list (str * pyval)) (ignore : list str)
    : M unit :=
  let unused :=
    filter (fun kv =>
      negb (existsb (str_eqb (fst kv)) ignore)
      && match snd kv with
         | VNone => false
         | VStr [] => false
         | _ => true
         end) left in
  match unused with
  | [] => ret tt
  | _ => log Warning "Unexpected data found" (map (fun kv => VStr (fst kv)) unused)
  end.

Section Parse.
Context {ext : Externals}.

Definition parse_date (text : option str) : outcome (option date) :=
  match text with
  | None => Ok None
  | Some t =>
      if len (strip t) =? 0 then Ok None
      else match strptime_dmy t with
           | Some d => Ok (Some d)
           | None => Raise ValueError
           end
  end.

Definition date_value (d : option date) : pyval :=
  match d with Some d => VDate d | None => VNone end.

(** The body of the loop of [parse_organisations]. *)
Definition parse_organisation (addresses : list (str * str))
    (row : organisation) : M unit :=
  let org_type := ORGANISATION_TYPE_CODE row in
  let reg_nr := REGISTRATION_NO row in
  if str_eqb org_type [] || str_eqb org_type trade_name then ret tt
  else
    cid <- lift (company_id org_type reg_nr) ;;
    let entity := set_id (Some cid) (make "Company") in
    let entity := add "name" (VStr (ORGANISATION_NAME row)) entity in
    let entity := add "status" (VStr (ORGANISATION_STATUS row)) entity in
    let entity :=
      if str_eqb org_type (py "O") then add "country" (VStr (py "cy")) entity
      else add "jurisdiction" (VStr (py "cy")) entity in
    org_type_oc <-
      match dict_get org_type TYPES with
      | Some oc => ret oc
      | None => raise (KeyError (VStr org_type))
      end ;;
    let oc_id := org_type_oc ++ reg_nr in
    let oc_url := py "https://opencorporates.com/companies/cy/" ++ oc_id in
    let entity := add "opencorporatesUrl" (VStr oc_url) entity in
    let entity := add "registrationNumber" (VStr oc_id) entity in
    let entity := add "registrationNumber" (VStr (org_type ++ reg_nr)) entity in
    let org_type_text := ORGANISATION_TYPE row in
    let org_subtype := ORGANISATION_SUB_TYPE row in
    let org_type_text :=
      if len (strip org_subtype) =? 0 then org_type_text
      else org_type_text ++ py " - " ++ org_subtype in
    let entity := add "legalForm" (VStr org_type_text) entity in
    reg_date <- lift (parse_date (REGISTRATION_DATE row)) ;;
    let entity := add "incorporationDate" (date_value reg_date) entity in
    status_date <- lift (parse_date (ORGANISATION_STATUS_DATE row)) ;;
    let entity := add "modifiedAt" (date_value status_date) entity in
    let addr_id := ADDRESS_SEQ_NO row in
    let entity :=
      add "address" (of_opt (dict_get addr_id addresses)) entity in
    emit entity ;;
    audit_data (other_columns row) [py "NAME_STATUS_CODE"; py "NAME_STATUS"].

Definition parse_organisations (rows : list organisation)
    (addresses : list (str * str)) : M unit :=
  for_each rows (parse_organisation addresses).

Definition parse_official (row : official) : M unit :=
  let org_type := official_type_code row in
  if negb (existsb (str_eqb org_type) (map fst TYPES)) then ret tt
  else
    let reg_nr := official_registration_no row in
    let name := PERSON_OR_ORGANISATION_NAME row in
    let position := OFFICIAL_POSITION row in
    let entity :=
      add "name" (VStr name)
        (set_id (make_id [VStr org_type; VStr reg_nr; VStr name])
           (make "LegalEntity")) in
    emit entity ;;
    let link :=
      set_id (make_id [VStr (py "Directorship"); VStr org_type; VStr reg_nr;
                       VStr name; VStr position])
        (make "Directorship") in
    cid <- lift (company_id org_type reg_nr) ;;
    let link := add "organization" (VStr cid) link in
    let link := add "director" (ref entity) link in
    let link := add "role" (VStr position) link in
    emit link.

Definition parse_officials (rows : list official) : M unit :=
  for_each rows parse_official.

End Parse.
End CyCompanies.

(* ===================================================================== *)
(** * A reference instance of the library functions *)
(* ===================================================================== *)

(** Ids in clear instead of hashed: the parts that are not empty, joined by
    a dash behind a prefix.  The examples below run the parsers with it. *)
Module Plain.

Definition text_parts (parts : list pyval) : list str :=
  flat_map (fun v =>
    match v with
    | VNone => []
    | _ => match to_str v with [] => [] | s => [s] end
    end) parts.

Fixpoint join (sep : str) (xs : list str) : str :=
  match xs with
  | [] => []
  | [x] => x
  | x :: xs' => x ++ sep ++ join sep xs'
  end.

Definition joined (prefix : string) (parts : list pyval) : option str :=
  match text_parts parts with
  | [] => None
  | xs => Some (join (py "-") (py prefix :: xs))
  end.

Definition is_none (v : pyval) : bool :=
  match v with VNone => true | _ => false end.

(** Strict slugs: no slug when a part is missing. *)
Definition slug (parts : list pyval) : option str :=
  if existsb is_none parts then None else joined "slug" parts.

Definition text (parts : list pyval) : option str :=
  match text_parts parts with
  | [] => None
  | xs => Some (join (py " ") xs)
  end.

Definition fingerprint (name : str) : option str :=
  match strip name with
  | [] => None
  | s => Some (lower s)
  end.

Definition number (s : str) : option Z :=
  match s with
  | [] => None
  | _ =>
      if forallb (fun c => (48 <=? c) && (c <=? 57))%N s
      then Some (fold_left (fun a c => 10 * a + (Z.of_N c - 48))%Z s 0%Z)
      else None
  end.

Definition leap (y : Z) : bool :=
  ((y mod 4 =? 0) && (negb (y mod 100 =? 0) || (y mod 400 =? 0)))%Z.

Definition days_in (y m : Z) : Z :=
  (if m =? 2 then (if leap y then 29 else 28)
   else if (m =? 4) || (m =? 6) || (m =? 9) || (m =? 11) then 30
   else 31)%Z.

(** Day, month and year in digits between slashes, the date being one of
    the calendar. *)
Definition dmy (t : str) : option date :=
  match split (py "/") t with
  | [d; m; y] =>
      match number d, number m, number y with
      | Some dv, Some mv, Some yv =>
          if ((length d <=? 2) && (length m <=? 2) && (length y =? 4))%nat
             && ((1 <=? yv) && (1 <=? mv) && (mv <=? 12)
                 && (1 <=? dv) && (dv <=? days_in yv mv))%Z
          then Some {| year := yv; month := mv; day := dv |}
          else None
      | _, _, _ => None
      end
  | _ => None
  end.

#[export] Instance externals : Externals := {|
  make_id := joined "id";
  make_slug := slug;
  make_entity_id := joined "sha1";
  join_text := text;
  fp := fingerprint;
  country_known := fun c => len (strip c) =? 2;
  strptime_dmy := dmy;
  uni_alnum := fun _ => false;
  uni_decimal := fun _ => false;
  uni_ignorecase := fun _ _ => false
|}.

End Plain.


(* ===================================================================== *)
(** * Sample inputs *)
(* ===================================================================== *)

Module Samples.

(** A company of the Moldovan register with one director. *)
Definition md_row : MdCompanies.row :=
  {| MdCompanies.idno := VInt 1003600012345;
     MdCompanies.name := VStr (py "Acme SRL");
     MdCompanies.address := VStr (py "Chisinau");
     MdCompanies.registered := VNone;
     MdCompanies.liquidated := VNone;
     MdCompanies.legal_form := VNone;
     MdCompanies.directors := VStr (py "Alice [Director]");
     MdCompanies.founders := VNone;
     MdCompanies.owners := VNone |}.

Definition officer_of (type_ name position : string)
    : DeOffeneregister.officer :=
  {| DeOffeneregister.o_type := VStr (py type_);
     DeOffeneregister.o_name := py name;
     DeOffeneregister.o_position := VStr (py position);
     DeOffeneregister.o_other := [] |}.

(** A line of the German dump with the given register and officers. *)
Definition de_record (art number : string)
    (officers : list DeOffeneregister.officer) : DeOffeneregister.record :=
  {| DeOffeneregister.register_art := VStr (py art);
     DeOffeneregister.native_company_number := VStr (py number);
     DeOffeneregister.register_nummer := VStr (py "1");
     DeOffeneregister.current_status := VNone;
     DeOffeneregister.company_number := VStr (py "K1101R_HRB1");
     DeOffeneregister.jurisdiction_code := VStr (py "de");
     DeOffeneregister.company_name := VStr (py "Beispiel GmbH");
     DeOffeneregister.registered_address := VNone;
     DeOffeneregister.previous_names := [];
     DeOffeneregister.retrieved_at := VNone;
     DeOffeneregister.officers := officers |}.

Definition de_company : entity :=
  set_id (Some (py "slug-hamburg-hrb-1")) (make "Company").

(** The example of the docstring of [parse_officer_company_name]. *)
Definition ha_invest : str :=
  py "HA Invest GmbH, Hamburg (Amtsgericht Hamburg HRB 125617).".

Definition ha_invest_groups : groupdict :=
  [ ("name", Some (py "HA Invest GmbH")); ("city", Some (py "Hamburg"));
    ("reg", Some (py "Hamburg")); ("reg_type", Some (py "HRB"));
    ("reg_nr", Some (py "125617")); ("summary", Some (py ".")) ]%string.

(** A row of the Cypriot register with the given registration date. *)
Definition cy_row (number date : string) : CyCompanies.organisation :=
  {| CyCompanies.ORGANISATION_TYPE_CODE := py "C";
     CyCompanies.REGISTRATION_NO := py number;
     CyCompanies.ORGANISATION_NAME := py "EXAMPLE LIMITED";
     CyCompanies.ORGANISATION_STATUS := py "Active";
     CyCompanies.ORGANISATION_TYPE := py "Limited Company";
     CyCompanies.ORGANISATION_SUB_TYPE := py "Private";
     CyCompanies.REGISTRATION_DATE := Some (py date);
     CyCompanies.ORGANISATION_STATUS_DATE := None;
     CyCompanies.ADDRESS_SEQ_NO := py "7";
     CyCompanies.other_columns := [] |}.

End Samples.

(* ===================================================================== *)
(** * Python dicts with [str] keys *)
(* ===================================================================== *)

(** [d[k] = v]: the binding of [k] is replaced where it stands, a new key
    goes to the end.  [dict_get] reads such a dict. *)
Fixpoint dict_set {V} (k : str) (v : V) (d : list (str * V))
    : list (str * V) :=
  match d with
  | [] => [(k, v)]
  | (k', v') :: d' =>
      if str_eqb k k' then (k', v) :: d' else (k', v') :: dict_set k v d'
  end.

(** [dict(zip(keys, values))]: the pairs up to the shorter list, a key that
    comes twice keeping its last value. *)
Definition dict_zip {V} (keys : list str) (values : list V)
    : list (str * V) :=
  fold_left (fun d kv => dict_set (fst kv) (snd kv) d) (combine keys values) [].

(** [d.pop(k)] without a default: the value and what is left, [None] for
    the [KeyError]. *)
Fixpoint pop_key {V} (k : str) (d : list (str * V))
    : option (V * list (str * V)) :=
  match d with
  | [] => None
  | (k', v) :: d' =>
      if str_eqb k k' then Some (v, d')
      else match pop_key k d' with
           | Some (w, d'') => Some (w, (k', v) :: d'')
           | None => None
           end
  end.

Definition pop (k : str) (d : list (str * pyval))
    : M (pyval * list (str * pyval)) :=
  match pop_key k d with
  | Some r => ret r
  | None => raise (KeyError (VStr k))
  end.

(** [s.startswith(prefix)] *)
Definition startswith (prefix s : str) : bool :=
  match after_prefix prefix s with Some _ => true | None => false end.

(** The values that were handed to [e.add(prop, ...)], in order. *)
Definition added (prop : string) (e : entity) : list pyval :=
  map snd (filter (fun kv => String.eqb (fst kv) prop) (props e)).

(* ===================================================================== *)
(** * md_companies: the rows of the workbook *)
(* ===================================================================== *)

(** [parse_company] as it is written, on the dict of one row, and its
    caller [parse_companies].  [MdCompanies.parse_company] is the same
    function on a row that has the nine labels. *)
Module MdWorkbook.

(** The labels [parse_company] pops, the Romanian letters by code point:
    a-breve 259, i-circumflex 238. *)
Definition IDNO : str := py "IDNO/ Cod fiscal".
Definition DENUMIREA : str := py "Denumirea complet" ++ [259%N].
Definition ADRESA : str := py "Adresa".
Definition DATA_INREGISTRARII : str :=
  py "Data " ++ [238%N] ++ py "nregistr" ++ [259%N] ++ py "rii".
Definition DATA_LICHIDARII : str := py "Data lichid" ++ [259%N] ++ py "rii".
Definition FORMA : str := py "Forma org./jurid.".
Definition LISTA_CONDUCATORILOR : str :=
  py "Lista conduc" ++ [259%N] ++ py "torilor".
Definition LISTA_FONDATORILOR : str := py "Lista fondatorilor".
Definition LISTA_BENEFICIARILOR : str := py "Lista beneficiarilor efectivi".

Definition labels : list str :=
  [ IDNO; DENUMIREA; ADRESA; DATA_INREGISTRARII; DATA_LICHIDARII; FORMA;
    LISTA_CONDUCATORILOR; LISTA_FONDATORILOR; LISTA_BENEFICIARILOR ].

(** The value under a label, [None] standing in when the label is missing. *)
Definition field (k : str) (data : list (str * pyval)) : pyval :=
  match dict_get k data with Some v => v | None => VNone end.

(** Is the label missing from the dict. *)
Definition missing (data : list (str * pyval)) (k : str) : bool :=
  match dict_get k data with Some _ => false | None => true end.

(** The row that a dict with the nine labels stands for. *)
Definition row_of (data : list (str * pyval)) : MdCompanies.row :=
  {| MdCompanies.idno := field IDNO data;
     MdCompanies.name := field DENUMIREA data;
     MdCompanies.address := field ADRESA data;
     MdCompanies.registered := field DATA_INREGISTRARII data;
     MdCompanies.liquidated := field DATA_LICHIDARII data;
     MdCompanies.legal_form := field FORMA data;
     MdCompanies.directors := field LISTA_CONDUCATORILOR data;
     MdCompanies.founders := field LISTA_FONDATORILOR data;
     MdCompanies.owners := field LISTA_BENEFICIARILOR data |}.

(** [header = str(cell).split(" (", 1)[0]] *)
Definition header_of (cell : pyval) : str :=
  match partition (py " (") (to_str cell) with
  | Some (header, _) => header
  | None => to_str cell
  end.

(** ["Denumirea completa" in cells], one cell *)
Definition is_label (cell : pyval) : bool :=
  match cell with
  | VStr s => str_eqb s DENUMIREA
  | _ => false
  end.

Section Parse.
Context {ext : Externals}.

Definition parse_company (data : list (str * pyval)) : M unit :=
  p1 <- pop IDNO data ;;
  p2 <- pop DENUMIREA (snd p1) ;;
  p3 <- pop ADRESA (snd p2) ;;
  let idno := fst p1 in
  let name := fst p2 in
  let address := fst p3 in
  let key :=
    match idno with
    | VNone => make_id [name; address]
    | v => Some (py "oc-companies-md-" ++ to_str v)
    end in
  let company := set_id key (make "Company") in
  match key with
  | None => log Error "Cannot generate key" [idno; name; address]
  | Some _ =>
      let company := add "name" name company in
      p4 <- pop DATA_INREGISTRARII (snd p3) ;;
      let company := add "incorporationDate" (fst p4) company in
      p5 <- pop DATA_LICHIDARII (snd p4) ;;
      let company := add "dissolutionDate" (fst p5) company in
      let company := add "jurisdiction" (VStr (py "md")) company in
      let company := add "address" address company in
      p6 <- pop FORMA (snd p5) ;;
      let company := add "legalForm" (fst p6) company in
      p7 <- pop LISTA_CONDUCATORILOR (snd p6) ;;
      MdCompanies.parse_directors company (fst p7) ;;
      p8 <- pop LISTA_FONDATORILOR (snd p7) ;;
      MdCompanies.parse_founders company (fst p8) ;;
      p9 <- pop LISTA_BENEFICIARILOR (snd p8) ;;
      MdCompanies.parse_owners company (fst p9) ;;
      emit company
  end.

(** The loop of [parse_companies]: [idx] counts the rows of the sheet, and
    [headers] is [None] until a row has a cell that is the label of the
    name column. *)
Fixpoint parse_rows (idx : N) (headers : option (list str))
    (rows : list (list pyval)) : M unit :=
  match rows with
  | [] => ret tt
  | cells :: rows' =>
      match headers with
      | None =>
          parse_rows (idx + 1)
            (if existsb is_label cells then Some (map header_of cells)
             else None)
            rows'
      | Some hs =>
          parse_company (dict_zip hs cells) ;;
          (if (0 <? idx)%N && (idx mod 10000 =? 0)%N
           then log Info "Read %d companies..." [VInt (Z.of_N idx)]
           else ret tt) ;;
          parse_rows (idx + 1) headers rows'
      end
  end.

Definition parse_companies (rows : list (list pyval)) : M unit :=
  parse_rows 0 None rows.

End Parse.
End MdWorkbook.

(** The cells the decomposers take: [parse_directors] and [parse_owners]
    return on [None] and split a [str]; [parse_founders] also returns on an
    [int]. *)
Module MdOwners.

Definition is_text (v : pyval) : bool :=
  match v with
  | VNone | VStr _ => true
  | _ => false
  end.

Definition is_text_or_int (v : pyval) : bool :=
  match v with
  | VDate _ | VOther _ => false
  | _ => true
  end.

Section Warnings.
Context {ext : Externals}.

(** The warning of [parse_owners] for one sub-record: lines 105-106. *)
Definition country_warning (r : str * option str) : list log_entry :=
  match snd r with
  | Some country =>
      if country_known country then []
      else [{| lvl := Warning; msg := "Unknown country code";
               args := [VStr country] |}]
  | None => []
  end.

End Warnings.
End MdOwners.

(* ===================================================================== *)
(** * cy_companies: addresses and the members of the archive *)
(* ===================================================================== *)

Module CyArchive.
Import CyCompanies.

(** The two functions of normality and followthemoney that
    [load_addresses] calls. *)
Class Normality := {
  (** [join_text(parts..., sep=sep)] *)
  join_text_sep : str -> list pyval -> option str;
  (** [collapse_spaces(text)] *)
  collapse_spaces : str -> option str
}.

(** One row of a [registered_office_] file, by the columns the loop pops. *)
Record office := {
  office_seq_no : option str;             (* ADDRESS_SEQ_NO *)
  STREET : option str;
  BUILDING : option str;
  TERRITORY : option str
}.

(** One member of the archive: its name, and its rows as each of the three
    loops reads them.  The name decides which loop, if any, gets to read
    them. *)
Record member := {
  member_name : str;
  office_rows : list office;
  organisation_rows : list organisation;
  official_rows : list official
}.

(** The rows that [parse_organisations] passes over: lines 39-40. *)
Definition passed_over (row : organisation) : bool :=
  str_eqb (ORGANISATION_TYPE_CODE row) []
  || str_eqb (ORGANISATION_TYPE_CODE row) trade_name.

(** [org_type in org_types], line 75 *)
Definition in_types (org_type : str) : bool :=
  existsb (str_eqb org_type) (map fst TYPES).

Section Load.
Context {norm : Normality}.

(** The address of one row, [None] when there is nothing to keep: lines
    100-106. *)
Definition office_address (row : office) : option str :=
  match join_text_sep (py ", ")
          [of_opt (BUILDING row); of_opt (STREET row); of_opt (TERRITORY row)]
  with
  | Some address => collapse_spaces (remove_all (py "_") address)
  | None => None
  end.

Definition load_addresses (rows : list office) : list (str * str) :=
  fold_left (fun addresses row =>
    match office_seq_no row with
    | None => addresses
    | Some seq_no =>
        match office_address row with
        | Some address => dict_set seq_no address addresses
        | None => addresses
        end
    end) rows [].

(** What [addresses.get(seq_no)] should come to: the address of the last
    row with this number that has one. *)
Definition last_address (seq_no : str) (rows : list office) : option str :=
  fold_left (fun found row =>
    match office_seq_no row with
    | None => found
    | Some k =>
        if str_eqb seq_no k then
          match office_address row with
          | Some address => Some address
          | None => found
          end
        else found
    end) rows None.

(** The first loop of [parse]: each [registered_office_] member replaces
    the addresses read so far. *)
Definition archive_addresses (zip : list member) : list (str * str) :=
  fold_left (fun addresses m =>
    if startswith (py "registered_office_") (member_name m)
    then load_addresses (office_rows m)
    else addresses) zip [].

Context {ext : Externals}.

(** Does [parse_date] return on this text. *)
Definition parses (text : option str) : bool :=
  match parse_date text with Ok _ => true | Raise _ => false end.

(** The body of the second loop of [parse], for one member. *)
Definition read_member (data_path : str) (addresses : list (str * str))
    (m : member) : M unit :=
  let name := member_name m in
  log Info "Reading: %s in %s" [VStr name; VStr data_path] ;;
  (if startswith (py "organisations_") name
   then parse_organisations (organisation_rows m) addresses
   else ret tt) ;;
  (if startswith (py "organisation_officials_") name
   then parse_officials (official_rows m)
   else ret tt).

(** [parse] on the members of the archive at [data_path]. *)
Definition parse (data_path : str) (zip : list member) : M unit :=
  let addresses := archive_addresses zip in
  for_each zip (read_member data_path addresses).

End Load.
End CyArchive.

(* ===================================================================== *)
(** * de_offeneregister: the schema of a relationship, the last log line,
      and what a match of the patterns cannot do without *)
(* ===================================================================== *)

Module DeMore.
Import Re DeOffeneregister.

(** The schema [make_rel] picks for a role, by the schema of the company:
    lines 77-85. *)
Definition rel_schema (company_schema : string) (position : pyval) : string :=
  match dict_lookup position REL_SCHEMS with
  | Some sch =>
      if String.eqb sch "Ownership" && is_a_Asset company_schema
      then sch else "Directorship"%string
  | None => "Directorship"%string
  end.

(** A record whose register is a key of SCHEMES and whose officers' roles
    are keys of REL_SCHEMS, and the number of entities it gives. *)
Definition known_codes (r : record) : Prop :=
  dict_lookup (register_art r) SCHEMES <> None
  /\ Forall (fun o => dict_lookup (o_position o) REL_SCHEMS <> None)
       (officers r).

Definition record_size (r : record) : nat := 1 + 2 * length (officers r).

(** The entry that the last line of [parse] logs after [n] records. *)
Definition parsed_entry (n : N) : log_entry :=
  {| lvl := Info; msg := "Parsed %d records.";
     args := [VInt (Z.of_N (n + 1))] |}.

(** Does every match of [r] have to go through the literal [p]. *)
Fixpoint requires (p : char) (r : regex) : bool :=
  match r with
  | Lit c => N.eqb c p
  | Seq a b => requires p a || requires p b
  | Alt a b => requires p a && requires p b
  | Group _ a => requires p a
  | _ => false
  end.

End DeMore.

(* ===================================================================== *)
(** * More sample inputs *)
(* ===================================================================== *)

Module Samples2.
Import MdWorkbook CyArchive.

(** normality in plain: parts joined as they are, and runs of spaces
    collapsed by stripping only. *)
#[export] Instance plain_normality : Normality := {|
  join_text_sep := fun sep parts =>
    match Plain.text_parts parts with
    | [] => None
    | xs => Some (Plain.join sep xs)
    end;
  collapse_spaces := fun s =>
    match strip s with [] => None | t => Some t end
|}.

(** A header row whose labels carry a note in parentheses, but for the
    name column, and a data row. *)
Definition header_row : list pyval :=
  [ VStr (IDNO ++ py " (tax id)"); VStr DENUMIREA; VStr ADRESA;
    VStr DATA_INREGISTRARII; VStr DATA_LICHIDARII; VStr FORMA;
    VStr LISTA_CONDUCATORILOR; VStr LISTA_FONDATORILOR;
    VStr LISTA_BENEFICIARILOR ].

Definition data_row : list pyval :=
  [ VInt 1003600012345; VStr (py "Acme SRL"); VStr (py "Chisinau");
    VNone; VNone; VNone; VStr (py "Alice [Director]"); VNone; VNone ].

Definition title_row : list pyval := [ VStr (py "Registrul de stat"); VNone ].

Definition office_of (seq street : string) : office :=
  {| office_seq_no := Some (py seq); STREET := Some (py street);
     BUILDING := None; TERRITORY := Some (py "Nicosia") |}.

Definition cy_member (name : string) (offices : list office)
    (organisations : list CyCompanies.organisation) : member :=
  {| member_name := py name; office_rows := offices;
     organisation_rows := organisations; official_rows := [] |}.

End Samples2.

(* ===================================================================== *)
(** * Facts about the string operations *)
(* ===================================================================== *)

Module PyFacts.

Lemma str_eqb_refl (a : str) : str_eqb a a = true.
Proof.
  induction a as [|x a IH]; simpl; [reflexivity|].
  now rewrite N.eqb_refl, IH.
Qed.

Lemma str_eqb_eq (a b : str) : str_eqb a b = true <-> a = b.
Proof.
  split; [|intros ->; apply str_eqb_refl].
  revert b; induction a as [|x a IH]; intros [|y b]; simpl; try easy.
  intros H. apply andb_true_iff in H as [Hx Hab].
  apply N.eqb_eq in Hx. now rewrite Hx, (IH b Hab).
Qed.

Lemma str_eqb_neq (a b : str) : str_eqb a b = false <-> a <> b.
Proof.
  split.
  - intros H E. apply str_eqb_eq in E. congruence.
  - intros H. destruct (str_eqb a b) eqn:E; [|reflexivity].
    apply str_eqb_eq in E. contradiction.
Qed.

Lemma after_prefix_app (p s rest : str) :
  after_prefix p s = Some rest -> s = p ++ rest.
Proof.
  revert s; induction p as [|x p IH]; intros s; simpl.
  - now intros [= ->].
  - destruct s as [|y s]; [discriminate|].
    destruct (N.eqb_spec x y) as [->|]; [|discriminate].
    intros H. now rewrite (IH _ H).
Qed.

Lemma partition_app (sep s a rest : str) :
  partition sep s = Some (a, rest) -> s = a ++ sep ++ rest.
Proof.
  revert a; induction s as [|c s IH]; intros a.
  - simpl. destruct (after_prefix sep []) eqn:E; [|discriminate].
    intros [= <- <-]. now apply after_prefix_app in E.
  - cbn [partition]. destruct (after_prefix sep (c :: s)) eqn:E.
    + intros [= <- <-]. now apply after_prefix_app in E.
    + destruct (partition sep s) as [[a' b']|]; [|discriminate].
      intros [= <- <-]. simpl. f_equal. now apply IH.
Qed.

(** A cut at a separator that is not empty leaves less than there was. *)
Lemma partition_shorter (sep s a rest : str) :
  sep <> [] -> partition sep s = Some (a, rest) -> length rest < length s.
Proof.
  intros Hsep H. apply partition_app in H. subst s.
  rewrite !length_app. destruct sep; [contradiction|simpl; lia].
Qed.

(** [split] never runs out of rounds: more of them change nothing. *)
Lemma split_fuel_stable (sep : str) (n m : nat) (s : str) :
  sep <> [] -> length s <= n -> length s <= m ->
  split_fuel n sep s = split_fuel m sep s.
Proof.
  intros Hsep. revert m s.
  induction n as [|n IH]; intros [|m] s Hn Hm; cbn [split_fuel];
    try reflexivity.
  - destruct (partition sep s) as [[a rest]|] eqn:E; [|reflexivity].
    apply partition_shorter in E; [|assumption]. lia.
  - destruct (partition sep s) as [[a rest]|] eqn:E; [|reflexivity].
    apply partition_shorter in E; [|assumption]. lia.
  - destruct (partition sep s) as [[a rest]|] eqn:E; [|reflexivity].
    pose proof (partition_shorter _ _ _ _ Hsep E) as Hlt.
    f_equal. apply IH; lia.
Qed.

Lemma split_fuel_enough (sep : str) (n : nat) (s : str) :
  sep <> [] -> length s <= n -> split_fuel n sep s = split sep s.
Proof.
  intros Hsep Hn. unfold split. now apply split_fuel_stable.
Qed.

(** The first occurrence of one character. *)
Lemma partition_char_first (c : char) (a b : str) :
  ~ In c a -> partition [c] (a ++ c :: b) = Some (a, b).
Proof.
  induction a as [|x a IH]; intros Hc.
  - cbn. now rewrite N.eqb_refl.
  - cbn [app partition after_prefix].
    destruct (N.eqb_spec c x) as [->|Hx]; [exfalso; apply Hc; now left|].
    rewrite IH; [reflexivity|]. intros Hin. apply Hc. now right.
Qed.

Lemma partition_char_none (c : char) (s : str) :
  ~ In c s -> partition [c] s = None.
Proof.
  induction s as [|x s IH]; intros Hc; [reflexivity|].
  cbn [partition after_prefix].
  destruct (N.eqb_spec c x) as [->|Hx]; [exfalso; apply Hc; now left|].
  rewrite IH; [reflexivity|]. intros Hin. apply Hc. now right.
Qed.

Lemma char_occurs (c : char) (s : str) :
  In c s -> exists a b, s = a ++ c :: b /\ ~ In c a.
Proof.
  induction s as [|x s IH]; [easy|].
  intros Hin. destruct (N.eq_dec c x) as [->|Hx].
  - exists [], s. now split.
  - destruct Hin as [->|Hin]; [contradiction|].
    destruct (IH Hin) as (a & b & -> & Ha).
    exists (x :: a), b. split; [reflexivity|].
    intros [E|E]; [congruence|contradiction].
Qed.

Lemma contains_char (c : char) (s : str) :
  contains [c] s = true <-> In c s.
Proof.
  unfold contains. split.
  - destruct (partition [c] s) as [[a b]|] eqn:E; [|discriminate].
    intros _. apply partition_app in E. subst s.
    apply in_or_app. right. now left.
  - intros Hin. destruct (char_occurs _ _ Hin) as (a & b & -> & Ha).
    now rewrite partition_char_first.
Qed.

(** [rsplit] cuts at the last occurrence: whatever precedes it, and
    whatever follows provided the character is not in it. *)
Lemma rsplit1_char_last (c : char) (a b : str) :
  ~ In c b -> rsplit1 [c] (a ++ c :: b) = Some (a, b).
Proof.
  intros Hb. unfold rsplit1.
  replace (rev (a ++ c :: b)) with (rev b ++ c :: rev a).
  - cbn [rev app]. rewrite partition_char_first.
    + now rewrite !rev_involutive.
    + now rewrite <- in_rev.
  - rewrite rev_app_distr. simpl. now rewrite <- app_assoc.
Qed.

Lemma rsplit1_char_none (c : char) (s : str) :
  ~ In c s -> rsplit1 [c] s = None.
Proof.
  intros Hs. unfold rsplit1. cbn [rev app].
  rewrite partition_char_none; [reflexivity|]. now rewrite <- in_rev.
Qed.

Lemma rsplit1_char_some (c : char) (s : str) :
  In c s -> exists a b, rsplit1 [c] s = Some (a, b).
Proof.
  intros Hs. unfold rsplit1. cbn [rev app].
  apply in_rev in Hs. destruct (char_occurs _ _ Hs) as (a & b & E & Ha).
  rewrite E, partition_char_first by assumption. eauto.
Qed.

Lemma not_in_filter (c : char) (s : str) :
  ~ In c (filter (fun x => negb (x =? c)%N) s).
Proof.
  intros H. apply filter_In in H as [_ H].
  now rewrite N.eqb_refl in H.
Qed.

End PyFacts.

(* ===================================================================== *)
(** * Facts about the context *)
(* ===================================================================== *)

Module CtxFacts.

Lemma emit_all_nil (c : context) : emit_all [] c = c.
Proof. destruct c. unfold emit_all. simpl. now rewrite app_nil_r. Qed.

Lemma emit_all_app (a b : list entity) (c : context) :
  emit_all (a ++ b) c = emit_all b (emit_all a c).
Proof. unfold emit_all. simpl. now rewrite app_assoc. Qed.

Lemma emit_run (e : entity) (c : context) : emit e c = (emit_all [e] c, Ok tt).
Proof. reflexivity. Qed.

Lemma emit_two (a b : entity) (c : context) :
  (emit a ;; emit b) c = (emit_all [a; b] c, Ok tt).
Proof.
  unfold bind, emit, emit_all. simpl. now rewrite <- app_assoc.
Qed.

(** A loop whose body only emits, emits the bodies' output in order. *)
Lemma for_each_emit_all {A} (f : A -> list entity) (body : A -> M unit)
    (xs : list A) :
  (forall x c, body x c = (emit_all (f x) c, Ok tt)) ->
  forall c, for_each xs body c = (emit_all (flat_map f xs) c, Ok tt).
Proof.
  intros Hbody. induction xs as [|x xs IH]; intros c; simpl.
  - now rewrite emit_all_nil.
  - unfold bind. rewrite Hbody, IH. now rewrite emit_all_app.
Qed.

(** The same for a body that may also log. *)
Lemma for_each_emitted {A} (f : A -> list entity) (body : A -> M unit)
    (xs : list A) :
  (forall x c, emitted (fst (body x c)) = emitted c ++ f x
               /\ snd (body x c) = Ok tt) ->
  forall c, emitted (fst (for_each xs body c)) = emitted c ++ flat_map f xs
            /\ snd (for_each xs body c) = Ok tt.
Proof.
  intros Hbody. induction xs as [|x xs IH]; intros c; simpl.
  - now rewrite app_nil_r.
  - unfold bind. destruct (Hbody x c) as [He Ho].
    destruct (body x c) as [c' o]. simpl in He, Ho. subst o.
    destruct (IH c') as [He' Ho']. rewrite He', He, Ho'.
    now rewrite app_assoc.
Qed.

(** A loop stops at the first body that raises. *)
Lemma for_each_raise {A} (body : A -> M unit) (before after : list A)
    (x : A) (c c' c'' : context) (e : exn) :
  for_each before body c = (c', Ok tt) ->
  body x c' = (c'', Raise e) ->
  for_each (before ++ x :: after) body c = (c'', Raise e).
Proof.
  revert c. induction before as [|y before IH]; intros c; simpl.
  - intros [= ->] Hx. unfold bind. now rewrite Hx.
  - unfold bind. destruct (body y c) as [c1 [[]|e1]]; [|discriminate].
    intros H Hx. now apply IH.
Qed.

(** ** Rules for [triple] *)

Lemma triple_ret {A} (P : context -> Prop) (a : A)
    (Q : A -> context -> Prop) (E : context -> Prop) :
  (forall c, P c -> Q a c) -> triple P (ret a) Q E.
Proof. intros H c Hc. now apply H. Qed.

Lemma triple_raise {A} (P : context -> Prop) (e : exn)
    (Q : A -> context -> Prop) (E : context -> Prop) :
  (forall c, P c -> E c) -> triple P (raise e) Q E.
Proof. intros H c Hc. now apply H. Qed.

Lemma triple_bind {A B} (P : context -> Prop) (m : M A) (k : A -> M B)
    (R : A -> context -> Prop) (Q : B -> context -> Prop)
    (E : context -> Prop) :
  triple P m R E -> (forall a, triple (R a) (k a) Q E) ->
  triple P (bind m k) Q E.
Proof.
  intros Hm Hk c Hc. unfold bind. specialize (Hm c Hc).
  destruct (m c) as [c' [a|e]]; [|assumption].
  now apply Hk.
Qed.

Lemma triple_weaken {A} (P P' : context -> Prop) (m : M A)
    (Q Q' : A -> context -> Prop) (E E' : context -> Prop) :
  triple P' m Q' E' ->
  (forall c, P c -> P' c) -> (forall a c, Q' a c -> Q a c) ->
  (forall c, E' c -> E c) ->
  triple P m Q E.
Proof.
  intros H HP HQ HE c Hc. specialize (H c (HP c Hc)).
  destruct (m c) as [c' [a|e]]; auto.
Qed.

(** A loop keeps what each round keeps. *)
Lemma triple_for_each {A} (I : context -> Prop) (body : A -> M unit)
    (xs : list A) (E : context -> Prop) :
  (forall x, triple I (body x) (fun _ => I) E) ->
  triple I (for_each xs body) (fun _ => I) E.
Proof.
  intros Hbody. induction xs as [|x xs IH]; simpl.
  - now apply triple_ret.
  - eapply triple_bind; [apply Hbody|]. intros u. apply IH.
Qed.

End CtxFacts.

(* ===================================================================== *)
(** * md_companies: what the three decomposers emit *)
(* ===================================================================== *)

Module MdFacts.
Import MdCompanies PyFacts CtxFacts.

Lemma founder_fields_total (f : str) : exists r, founder_fields f = Ok r.
Proof.
  unfold founder_fields. cbv zeta.
  change (py "(") with (@cons char 40%N (@nil char)).
  destruct (contains _ (remove_all (py ")") f)) eqn:E; [|eauto].
  apply contains_char in E.
  destruct (rsplit1_char_some _ _ E) as (a & b & ->). eauto.
Qed.

Lemma flat_map_filter_map {A B C} (g : A -> B) (keep : B -> bool)
    (f : B -> list C) (xs : list A) :
  flat_map (fun x => if keep (g x) then f (g x) else []) xs
  = flat_map f (filter keep (map g xs)).
Proof.
  induction xs as [|x xs IH]; simpl; [reflexivity|].
  destruct (keep (g x)); simpl; now rewrite IH.
Qed.

Section Emits.
Context {ext : Externals}.

(** [parse_directors] on a string emits, for each sub-record in order, the
    director and then the Directorship; it logs nothing and returns. *)
Lemma parse_directors_run (company : entity) (directors : str) (c : context) :
  parse_directors company (VStr directors) c
  = (emit_all (flat_map (director_pair company) (director_records directors)) c,
     Ok tt).
Proof.
  unfold parse_directors, director_records.
  rewrite <- (flat_map_filter_map director_fields
                (fun r => negb (len (fst r) <? 3)) (director_pair company)).
  apply for_each_emit_all.
  intros d c0. destruct (director_fields d) as [body role]. simpl.
  destruct (len body <? 3); simpl.
  - now rewrite emit_all_nil.
  - apply emit_two.
Qed.

Lemma flat_map_flat_map {A B C} (f : B -> list C) (g : A -> list B)
    (xs : list A) :
  flat_map f (flat_map g xs) = flat_map (fun x => flat_map f (g x)) xs.
Proof.
  induction xs as [|x xs IH]; simpl; [reflexivity|].
  now rewrite flat_map_app, IH.
Qed.

(** [parse_founders] on a string: every fragment gives a founder and an
    Ownership, whatever its body. *)
Lemma parse_founders_run (company : entity) (founders : str) (c : context) :
  parse_founders company (VStr founders) c
  = (emit_all (flat_map (founder_pair company) (founder_records founders)) c,
     Ok tt).
Proof.
  unfold parse_founders, founder_records. rewrite flat_map_flat_map.
  apply for_each_emit_all. intros f c0.
  destruct (founder_fields_total f) as [[body tag] E].
  unfold bind, lift. rewrite E. simpl.
  apply emit_two.
Qed.

(** [parse_owners] on a string emits the same way; it may log a warning
    about a country code on the way. *)
Lemma parse_owners_run (company : entity) (owners : str) (c : context) :
  emitted (fst (parse_owners company (VStr owners) c))
  = emitted c ++ flat_map (owner_pair company) (founder_records owners)
  /\ snd (parse_owners company (VStr owners) c) = Ok tt.
Proof.
  unfold parse_owners, founder_records. rewrite flat_map_flat_map.
  apply for_each_emitted. intros f c0.
  destruct (founder_fields_total f) as [[body tag] E].
  unfold bind, lift. rewrite E. simpl.
  destruct tag as [country|]; simpl.
  - destruct (country_known country); simpl;
      now rewrite <- app_assoc.
  - now rewrite <- app_assoc.
Qed.

(** What is not a string and not [None] stops [parse_directors] and
    [parse_owners] at [.split]. *)
Lemma parse_directors_not_str (company : entity) (v : pyval) (c : context) :
  v <> VNone -> (forall s, v <> VStr s) ->
  parse_directors company v c = (c, Raise AttributeError).
Proof. destruct v; intros H1 H2; try reflexivity; congruence. Qed.

Lemma parse_owners_not_str (company : entity) (v : pyval) (c : context) :
  v <> VNone -> (forall s, v <> VStr s) ->
  parse_owners company v c = (c, Raise AttributeError).
Proof. destruct v; intros H1 H2; try reflexivity; congruence. Qed.

(** ** The shape of the stream of one company *)

Lemma in_pairs_app (a b : list (entity * entity)) :
  in_pairs (a ++ b) = in_pairs a ++ in_pairs b.
Proof. unfold in_pairs. apply flat_map_app. Qed.

Lemma flat_map_in_pairs {R} (company : entity) (mk : R -> list entity)
    (recs : list R) :
  (forall r, exists e rel, mk r = [e; rel] /\ sub_ok company (e, rel)) ->
  exists subs, Forall (sub_ok company) subs /\ flat_map mk recs = in_pairs subs.
Proof.
  intros Hmk. induction recs as [|r recs (subs & Hsubs & E)].
  - exists []. now split.
  - destruct (Hmk r) as (e & rel & Er & Hok).
    exists ((e, rel) :: subs). split; [now constructor|].
    simpl. now rewrite Er, E.
Qed.

Lemma director_pair_ok (company : entity) (r : str * option str) :
  exists e rel, director_pair company r = [e; rel] /\ sub_ok company (e, rel).
Proof. eexists _, _. split; [reflexivity|]. now repeat split. Qed.

Lemma founder_pair_ok (company : entity) (r : str * option str) :
  exists e rel, founder_pair company r = [e; rel] /\ sub_ok company (e, rel).
Proof. eexists _, _. split; [reflexivity|]. now repeat split. Qed.

Lemma owner_pair_ok (company : entity) (r : str * option str) :
  exists e rel, owner_pair company r = [e; rel] /\ sub_ok company (e, rel).
Proof. eexists _, _. split; [reflexivity|]. now repeat split. Qed.

(** Whatever the field holds, and whether the decomposer returns or raises,
    what it emits is a run of sub-record entities each followed by its
    edge to the company. *)
Lemma parse_directors_pairs (company : entity) (v : pyval) (c : context) :
  exists subs, Forall (sub_ok company) subs
    /\ emitted (fst (parse_directors company v c)) = emitted c ++ in_pairs subs.
Proof.
  destruct v as [|s| | | |];
    try (exists []; split; [constructor|simpl; now rewrite app_nil_r]).
  rewrite parse_directors_run.
  destruct (flat_map_in_pairs company _ (director_records s)
              (director_pair_ok company)) as (subs & H & E).
  exists subs. split; [assumption|]. simpl. now rewrite E.
Qed.

Lemma parse_founders_pairs (company : entity) (v : pyval) (c : context) :
  exists subs, Forall (sub_ok company) subs
    /\ emitted (fst (parse_founders company v c)) = emitted c ++ in_pairs subs.
Proof.
  destruct v as [|s| | | |];
    try (exists []; split; [constructor|simpl; now rewrite app_nil_r]).
  rewrite parse_founders_run.
  destruct (flat_map_in_pairs company _ (founder_records s)
              (founder_pair_ok company)) as (subs & H & E).
  exists subs. split; [assumption|]. simpl. now rewrite E.
Qed.

Lemma parse_owners_pairs (company : entity) (v : pyval) (c : context) :
  exists subs, Forall (sub_ok company) subs
    /\ emitted (fst (parse_owners company v c)) = emitted c ++ in_pairs subs.
Proof.
  destruct v as [|s| | | |];
    try (exists []; split; [constructor|simpl; now rewrite app_nil_r]).
  destruct (parse_owners_run company s c) as [E1 _].
  destruct (flat_map_in_pairs company _ (founder_records s)
              (owner_pair_ok company)) as (subs & H & E).
  exists subs. split; [assumption|]. now rewrite E1, E.
Qed.

(** One company: its sub-record pairs go out first, the company itself
    last, and only when no decomposer raised. *)
Lemma parse_company_stream (data : row) (c : context) :
  company_stream data c.
Proof.
  unfold company_stream, parse_company.
  destruct (company_key data) as [key|] eqn:K.
  2:{ exists []. split; [constructor|]. cbn. now rewrite app_nil_r. }
  set (company := company_entity data).
  destruct (parse_directors_pairs company (directors data) c)
    as (s1 & H1 & E1).
  unfold bind.
  destruct (parse_directors company (directors data) c) as [c1 [[]|e1]];
    cbn [fst] in E1.
  2:{ exists s1. split; [assumption|]. cbn [fst snd]. now rewrite app_nil_r. }
  destruct (parse_founders_pairs company (founders data) c1)
    as (s2 & H2 & E2).
  destruct (parse_founders company (founders data) c1) as [c2 [[]|e2]];
    cbn [fst] in E2.
  2:{ exists (s1 ++ s2). split; [apply Forall_app; now split|]. cbn [fst snd].
      rewrite E2, E1, in_pairs_app, app_nil_r. now rewrite app_assoc. }
  destruct (parse_owners_pairs company (owners data) c2)
    as (s3 & H3 & E3).
  destruct (parse_owners company (owners data) c2) as [c3 [[]|e3]];
    cbn [fst] in E3.
  2:{ exists (s1 ++ s2 ++ s3). split; [apply Forall_app; split; [assumption|apply Forall_app; now split]|].
      cbn [fst snd]. rewrite E3, E2, E1, !in_pairs_app, app_nil_r.
      now rewrite !app_assoc. }
  exists (s1 ++ s2 ++ s3). split; [apply Forall_app; split; [assumption|apply Forall_app; now split]|].
  unfold emit. cbn [fst snd emitted].
  rewrite E3, E2, E1, !in_pairs_app. now rewrite !app_assoc.
Qed.

End Emits.
End MdFacts.

(* ===================================================================== *)
(** * The matcher: repetition never runs out of rounds *)
(* ===================================================================== *)

Module ReFacts.
Import Re.

Section Engine.
Context {ext : Externals}.

Lemma rounds_none (step : str -> captures -> cont -> option captures)
    (k : cont) :
  (forall s g k', (forall s' g', k' s' g' = None) -> step s g k' = None) ->
  (forall s g, k s g = None) ->
  forall n s g, rounds step k n s g = None.
Proof.
  intros Hstep Hk. induction n as [|n IH]; intros s g; cbn [rounds].
  - apply Hk.
  - rewrite Hstep; [apply Hk|].
    intros s' g'. destruct (length s' <? length s); [apply IH|reflexivity].
Qed.

(** A pattern cannot match when what follows it cannot. *)
Lemma run_none (r : regex) :
  forall s g (k : cont), (forall s' g', k s' g' = None) -> run r s g k = None.
Proof.
  induction r as [|p| |items|a IHa b IHb|a IHa b IHb|a IHa|name a IHa];
    intros s g k Hk; cbn [run].
  - apply Hk.
  - destruct s as [|c s]; [reflexivity|]. destruct (same_letter p c); auto.
  - destruct s as [|c s]; [reflexivity|]. destruct (c =? 10)%N; auto.
  - destruct s as [|c s]; [reflexivity|].
    destruct (existsb _ items); auto.
  - apply IHa. intros s' g'. now apply IHb.
  - rewrite IHa by assumption. now apply IHb.
  - apply rounds_none; assumption.
  - apply IHa. intros s' g'. apply Hk.
Qed.

Lemma rounds_ext (step : str -> captures -> cont -> option captures) :
  (forall s g k1 k2,
     (forall s' g', length s' <= length s -> k1 s' g' = k2 s' g') ->
     step s g k1 = step s g k2) ->
  forall n s g k1 k2,
    (forall s' g', length s' <= length s -> k1 s' g' = k2 s' g') ->
    rounds step k1 n s g = rounds step k2 n s g.
Proof.
  intros Hstep. induction n as [|n IH]; intros s g k1 k2 Hk; cbn [rounds].
  - now apply Hk.
  - rewrite (Hstep s g _ (fun s' g' =>
               if length s' <? length s then rounds step k2 n s' g' else None)).
    + now rewrite (Hk s g).
    + intros s' g' Hle. destruct (length s' <? length s) eqn:E;
        [|reflexivity].
      apply IH. intros s'' g'' Hle'. apply Hk. lia.
Qed.

(** The matcher calls what follows the pattern on the rest of the text
    only: on no text longer than the one it got. *)
Lemma run_ext (r : regex) :
  forall s g (k1 k2 : cont),
    (forall s' g', length s' <= length s -> k1 s' g' = k2 s' g') ->
    run r s g k1 = run r s g k2.
Proof.
  induction r as [|p| |items|a IHa b IHb|a IHa b IHb|a IHa|name a IHa];
    intros s g k1 k2 Hk; cbn [run].
  - now apply Hk.
  - destruct s as [|c s]; [reflexivity|].
    destruct (same_letter p c); [|reflexivity]. apply Hk. cbn. lia.
  - destruct s as [|c s]; [reflexivity|].
    destruct (c =? 10)%N; [reflexivity|]. apply Hk. cbn. lia.
  - destruct s as [|c s]; [reflexivity|].
    destruct (existsb _ items); [|reflexivity]. apply Hk. cbn. lia.
  - apply IHa. intros s' g' Hle. apply IHb.
    intros s'' g'' Hle'. apply Hk. lia.
  - rewrite (IHa s g k1 k2 Hk). now rewrite (IHb s g k1 k2 Hk).
  - now apply rounds_ext.
  - apply IHa. intros s' g' Hle. now apply Hk.
Qed.

(** As many rounds as the text has characters are as good as any number
    above: the bound on the rounds of a repetition never cuts a match. *)
Lemma rounds_enough (a : regex) (k : cont) :
  forall n m s g,
    length s <= n -> length s <= m ->
    rounds (run a) k n s g = rounds (run a) k m s g.
Proof.
  assert (Hnone : forall n s g,
            length s = 0 ->
            run a s g (fun s' g' =>
              if length s' <? length s then rounds (run a) k n s' g'
              else None) = None).
  { intros n s g Hs. apply run_none. intros s' g'. now rewrite Hs. }
  induction n as [|n IH]; intros [|m] s g Hn Hm; cbn [rounds];
    try reflexivity.
  - now rewrite Hnone by lia.
  - now rewrite Hnone by lia.
  - rewrite (run_ext a s g _ (fun s' g' =>
               if length s' <? length s then rounds (run a) k m s' g'
               else None)); [reflexivity|].
    intros s' g' Hle. destruct (length s' <? length s) eqn:E; [|reflexivity].
    apply Nat.ltb_lt in E. apply IH; lia.
Qed.

End Engine.
End ReFacts.

(* ===================================================================== *)
(** * de_offeneregister: officers, relationships and the memo table *)
(* ===================================================================== *)

Module DeFacts.
Import Re DeOffeneregister PyFacts CtxFacts.

(** ** The table of [lru_cache] *)

Lemma memo_find_firstn {V} (k : nat) (m : list (str * V)) (n : str) (v : V) :
  memo_find n (firstn k m) = Some v -> memo_find n m = Some v.
Proof.
  revert k. induction m as [|[n0 v0] m IH]; intros [|k]; simpl; try discriminate.
  destruct (str_eqb n n0); [easy|]. apply IH.
Qed.

Lemma memo_find_drop {V} (name n : str) (m : list (str * V)) :
  n <> name -> memo_find n (memo_drop name m) = memo_find n m.
Proof.
  intros Hn. induction m as [|[n0 v0] m IH]; simpl; [reflexivity|].
  destruct (str_eqb name n0) eqn:E.
  - apply str_eqb_eq in E. subst n0.
    apply str_eqb_neq in Hn. now rewrite Hn.
  - simpl. now rewrite IH.
Qed.

Lemma memo_touch_head {V} (name : str) (v : V) (m : list (str * V)) :
  memo_touch name v m = (name, v) :: firstn 127 (memo_drop name m).
Proof. reflexivity. Qed.

Lemma memo_store_head {V} (name : str) (v0 v : V) (m : list (str * V)) :
  memo_store name v ((name, v0) :: m) = (name, v) :: m.
Proof. simpl. now rewrite str_eqb_refl. Qed.

Section Officers.
Context {ext : Externals}.

Lemma memo_wf_start : memo_wf start.
Proof. intros n v H. discriminate. Qed.

Lemma memo_wf_same (c c' : context) :
  memo c' = memo c -> memo_wf c -> memo_wf c'.
Proof. intros E H n v. rewrite E. apply H. Qed.

(** A context whose table starts with an entry for [name] stays well
    formed when that entry gets another admissible value. *)
Lemma memo_wf_head (name : str) (v0 v : option groupdict)
    (tail : list (str * option groupdict)) (c : context) :
  memo c = (name, v0) :: tail -> memo_wf c -> entry_ok name v ->
  memo_wf (set_memo ((name, v) :: tail) c).
Proof.
  intros Hm Hwf Hv n w. cbn [memo set_memo memo_find].
  destruct (str_eqb n name) eqn:E.
  - apply str_eqb_eq in E. subst n. now intros [= <-].
  - intros H. apply (Hwf n w). rewrite Hm. cbn [memo_find]. now rewrite E.
Qed.

Lemma memo_wf_touch (name : str) (v : option groupdict) (c : context) :
  memo_wf c -> entry_ok name v ->
  memo_wf (set_memo (memo_touch name v (memo c)) c).
Proof.
  intros Hwf Hv n w. cbn [memo set_memo].
  rewrite memo_touch_head. cbn [memo_find].
  destruct (str_eqb n name) eqn:E.
  - apply str_eqb_eq in E. subst n. now intros [= <-].
  - intros H. apply memo_find_firstn in H.
    apply str_eqb_neq in E. rewrite (memo_find_drop _ _ _ E) in H.
    now apply Hwf.
Qed.

(** The extractor hands out an admissible value and leaves the table well
    formed, with the entry of [name] in front. *)
Lemma parse_officer_company_name_wf (name : str) (c : context) :
  memo_wf c ->
  exists v,
    parse_officer_company_name name c
    = (set_memo (memo_touch name v (memo c)) c, Ok v)
    /\ entry_ok name v
    /\ memo_wf (set_memo (memo_touch name v (memo c)) c).
Proof.
  intros Hwf. unfold parse_officer_company_name.
  destruct (memo_find name (memo c)) as [v|] eqn:F.
  - exists v. pose proof (Hwf _ _ F) as Hv.
    repeat split; [assumption|now apply memo_wf_touch].
  - exists (first_match RE_PATTERNS name).
    assert (Hv : entry_ok name (first_match RE_PATTERNS name)) by now left.
    repeat split; [assumption|now apply memo_wf_touch].
Qed.

Lemma names_with_city :
  group_names pattern_with_city
  = ["name"; "city"; "reg"; "reg_type"; "reg_nr"; "summary"]%string.
Proof. reflexivity. Qed.

Lemma names_without_city :
  group_names pattern_without_city
  = ["name"; "reg"; "reg_type"; "reg_nr"; "summary"]%string.
Proof. reflexivity. Qed.

(** The keys of a result: those of the first pattern, or of the second. *)
Lemma first_match_shape (name : str) (d : groupdict) :
  first_match RE_PATTERNS name = Some d ->
  (exists v1 v2 v3 v4 v5 v6,
     d = [("name", v1); ("city", v2); ("reg", v3); ("reg_type", v4);
          ("reg_nr", v5); ("summary", v6)]%string)
  \/ (exists v1 v3 v4 v5 v6,
     d = [("name", v1); ("reg", v3); ("reg_type", v4);
          ("reg_nr", v5); ("summary", v6)]%string).
Proof.
  unfold RE_PATTERNS. cbn [first_match]. unfold match_groupdict.
  rewrite names_with_city, names_without_city.
  destruct (run pattern_with_city name [] (fun _ g => Some g)) as [g|].
  - intros [= <-]. left. cbn [map]. repeat eexists.
  - destruct (run pattern_without_city name [] (fun _ g => Some g)) as [g|];
      [|discriminate].
    intros [= <-]. right. cbn [map]. repeat eexists.
Qed.

(** ** Officers *)

Lemma mapping_not_end (key : str) (prop : string) :
  dict_get key MAPPING = Some prop -> is_end prop = false.
Proof.
  unfold MAPPING. cbn [dict_get].
  repeat (destruct (str_eqb key _); [now intros [= <-]|]).
  discriminate.
Qed.

(** The loop over ["other_attributes"] changes neither the schema, nor the
    id, nor the ends of a proxy. *)
Lemma add_mapped_same (items : list (str * pyval)) (p : entity) :
  schema (add_mapped items p) = schema p
  /\ id (add_mapped items p) = id p
  /\ ends (add_mapped items p) = ends p.
Proof.
  revert p. induction items as [|[key value] items IH]; intros p;
    cbn [add_mapped].
  - now repeat split.
  - destruct (dict_get key MAPPING) as [prop|] eqn:E; [|apply IH].
    destruct (IH (add prop value p)) as (H1 & H2 & H3).
    rewrite H1, H2, H3. repeat split.
    unfold ends, add. cbn [props]. rewrite filter_app. cbn [filter fst].
    rewrite (mapping_not_end _ _ E). now rewrite app_nil_r.
Qed.

Lemma parse_officer_company_name_run (name : str) (c : context) :
  parse_officer_company_name name c
  = (set_memo ((name, cached name c) :: firstn 127 (memo_drop name (memo c))) c,
     Ok (cached name c)).
Proof. reflexivity. Qed.

Lemma cached_ok (name : str) (c : context) :
  memo_wf c -> entry_ok name (cached name c).
Proof.
  intros Hwf. unfold cached.
  destruct (memo_find name (memo c)) as [v|] eqn:F; [now apply Hwf|now left].
Qed.

Lemma pop_parsed_head (name : str) (key : string) (default : bool)
    (d d' : groupdict) (v : option str) (v0 : option groupdict)
    (tail : list (str * option groupdict)) (c : context) :
  memo c = (name, v0) :: tail -> dict_pop key d = Some (v, d') ->
  pop_parsed name key default d c
  = (set_memo ((name, Some d') :: tail) c, Ok (v, d')).
Proof.
  intros Hm Hd. unfold pop_parsed. rewrite Hd, Hm.
  now rewrite memo_store_head.
Qed.

Lemma pop_parsed_default (name : str) (key : string) (d : groupdict)
    (c : context) :
  dict_pop key d = None -> pop_parsed name key true d c = (c, Ok (None, d)).
Proof. intros Hd. unfold pop_parsed. now rewrite Hd. Qed.

Ltac pop_step :=
  unfold bind at 1;
  erewrite pop_parsed_head by reflexivity;
  cbv beta iota; cbn [fst snd].

(** An officer of type "company" in a run whose table is well formed: when
    the call for its name returns a dict that is not empty, the proxy gets
    the registry id and the dict in the table ends empty; otherwise the
    proxy gets the opaque id. *)
Lemma make_officer_company (company : entity) (data : officer) (c : context) :
  memo_wf c -> o_type data = VStr (py "company") ->
  let name := o_name data in
  let c' v := set_memo ((name, v) :: firstn 127 (memo_drop name (memo c))) c in
  match cached name c with
  | Some ((_ :: _) as d) =>
      make_officer company data c
      = (c' (Some []),
         Ok (add_mapped (o_other data)
               (registered_officer (dict_value "name" d) (dict_value "city" d)
                  (dict_value "reg" d) (dict_value "reg_type" d)
                  (dict_value "reg_nr" d)),
             dict_value "summary" d))
  | v =>
      make_officer company data c
      = (c' v,
         Ok (add_mapped (o_other data)
               (opaque_officer "Company" company name), None))
  end.
Proof.
  intros Hwf T name c'.
  pose proof (cached_ok name c Hwf) as Hv.
  destruct (cached name c) as [[|x d]|] eqn:C;
    unfold make_officer; rewrite T;
    change (str_eqb (py "company") (py "company")) with true; cbv iota;
    fold name; unfold bind at 1; unfold bind at 1;
    rewrite parse_officer_company_name_run, C; try reflexivity.
  destruct Hv as [Hv|[Hv _]]; [|discriminate].
  symmetry in Hv. apply first_match_shape in Hv.
  destruct Hv as [(v1&v2&v3&v4&v5&v6&Hd)|(v1&v3&v4&v5&v6&Hd)]; rewrite Hd.
  - cbv beta iota. do 6 pop_step. reflexivity.
  - cbv beta iota. pop_step. unfold bind at 1.
    rewrite pop_parsed_default by reflexivity. cbv beta iota. cbn [fst snd].
    do 4 pop_step. reflexivity.
Qed.

Lemma make_officer_person (company : entity) (data : officer) (c : context) :
  o_type data = VStr (py "person") ->
  make_officer company data c
  = (c, Ok (add_mapped (o_other data)
              (opaque_officer "Person" company (o_name data)), None)).
Proof. intros T. unfold make_officer. now rewrite T. Qed.

(** An officer of another type is logged and becomes a LegalEntity. *)
Lemma make_officer_unknown (company : entity) (data : officer) (c : context) :
  type_known (o_type data) = false ->
  make_officer company data c
  = (log_all [unknown_type (o_type data)] c,
     Ok (add_mapped (o_other data)
           (opaque_officer "LegalEntity" company (o_name data)), None)).
Proof.
  intros T. unfold make_officer.
  destruct (o_type data) as [|t| | | |]; try reflexivity.
  cbn [type_known] in T. apply orb_false_iff in T as [T1 T2].
  now rewrite T1, T2.
Qed.

Lemma type_known_cases (type_ : pyval) :
  type_known type_ = true ->
  type_ = VStr (py "company") \/ type_ = VStr (py "person").
Proof.
  destruct type_ as [|t| | | |]; try discriminate.
  cbn [type_known]. intros H. apply orb_true_iff in H as [H|H];
    apply str_eqb_eq in H; subst t; auto.
Qed.

Lemma not_relationship_mapped (items : list (str * pyval)) (p : entity) :
  is_relationship p = false -> is_relationship (add_mapped items p) = false.
Proof.
  unfold is_relationship.
  now destruct (add_mapped_same items p) as (-> & _ & _).
Qed.

(** In a run whose table is well formed [make_officer] always returns: it
    emits nothing, builds an entity that is not a relationship, logs the
    type when it does not know it, and leaves the table well formed. *)
Lemma make_officer_wf (company : entity) (data : officer) (c : context) :
  memo_wf c ->
  exists c' e s,
    make_officer company data c = (c', Ok (e, s))
    /\ memo_wf c' /\ emitted c' = emitted c
    /\ is_relationship e = false
    /\ logged c' = logged c ++
         (if type_known (o_type data) then []
          else [unknown_type (o_type data)]).
Proof.
  intros Hwf.
  destruct (type_known (o_type data)) eqn:K.
  - destruct (type_known_cases _ K) as [T|T].
    + pose proof (make_officer_company company data c Hwf T) as H.
      pose proof (cached_ok (o_name data) c Hwf) as Hv.
      cbv zeta in H.
      destruct (cached (o_name data) c) as [[|x d]|] eqn:C;
        (eexists _, _, _; split; [exact H|]);
        (split; [|split; [reflexivity|split;
           [now apply not_relationship_mapped
           |cbn [logged set_memo]; now rewrite app_nil_r]]]).
      * now apply (memo_wf_touch (o_name data) (Some [])).
      * apply (memo_wf_touch (o_name data) (Some [])); [assumption|].
        right. split; [reflexivity|].
        destruct Hv as [Hv|[Hv _]]; [|discriminate]. now rewrite <- Hv.
      * now apply (memo_wf_touch (o_name data) None).
    + rewrite (make_officer_person company data c T).
      eexists _, _, _. split; [reflexivity|].
      repeat split; [assumption| |now rewrite app_nil_r].
      now apply not_relationship_mapped.
  - rewrite (make_officer_unknown company data c K).
    eexists _, _, _. split; [reflexivity|].
    repeat split; [exact Hwf|]. now apply not_relationship_mapped.
Qed.

(** ** Relationships *)

Lemma make_rel_unknown (company officer_proxy : entity) (data : officer)
    (summary : option str) (c : context) :
  dict_lookup (o_position data) REL_SCHEMS = None ->
  make_rel company officer_proxy data summary c
  = (c, Raise (KeyError (o_position data))).
Proof. intros H. unfold make_rel. now rewrite H. Qed.

Lemma make_rel_known (company officer_proxy : entity) (data : officer)
    (summary : option str) (c : context) (sch : string) :
  dict_lookup (o_position data) REL_SCHEMS = Some sch ->
  exists rel,
    make_rel company officer_proxy data summary c = (emit_all [rel] c, Ok tt)
    /\ links rel officer_proxy company.
Proof.
  intros H. unfold make_rel. rewrite H.
  eexists. split; [reflexivity|]. unfold links, is_relationship.
  destruct (add_mapped_same (o_other data)
    (add "summary" (of_opt summary)
       (add "role" (o_position data)
          (set_id
             (make_slug
                [VStr (py "rel");
                 of_opt
                   (make_entity_id
                      [ref company; ref officer_proxy; o_position data])])
             (if (sch =? "Ownership")%string && is_a_Asset (schema company)
              then
               add "asset" (ref company)
                 (add "owner" (ref officer_proxy) (make sch))
              else
               add "organization" (ref company)
                 (add "director" (ref officer_proxy) (make "Directorship")))))))
    as (-> & _ & ->).
  destruct (String.eqb_spec sch "Ownership") as [->|_];
    [destruct (is_a_Asset (schema company))|]; now split.
Qed.

(** ** One officer *)

(** A known role: the relationship goes out first, the officer it names
    right after it. *)
Lemma make_officer_and_rel_known (company : entity) (data : officer)
    (c : context) (sch : string) :
  memo_wf c -> dict_lookup (o_position data) REL_SCHEMS = Some sch ->
  exists c1 officer_proxy summary rel,
    make_officer company data c = (c1, Ok (officer_proxy, summary))
    /\ make_officer_and_rel company data c
       = (emit_all [rel; officer_proxy] c1, Ok tt)
    /\ links rel officer_proxy company
    /\ is_relationship officer_proxy = false
    /\ memo_wf c1 /\ emitted c1 = emitted c
    /\ logged c1 = logged c ++
         (if type_known (o_type data) then []
          else [unknown_type (o_type data)]).
Proof.
  intros Hwf Hrole.
  destruct (make_officer_wf company data c Hwf)
    as (c1 & e & s & Ho & Hwf1 & Hem & Hrel & Hlog).
  destruct (make_rel_known company e data s c1 sch Hrole) as (rel & Hr & Hl).
  exists c1, e, s, rel. repeat split; try assumption; try apply Hl.
  unfold make_officer_and_rel, bind. rewrite Ho. cbn [fst snd].
  rewrite Hr. unfold emit, emit_all. cbn [emitted logged memo].
  now rewrite <- app_assoc.
Qed.

(** An unknown role: [make_rel] raises before anything went out. *)
Lemma make_officer_and_rel_unknown (company : entity) (data : officer)
    (c : context) :
  memo_wf c -> dict_lookup (o_position data) REL_SCHEMS = None ->
  exists c1,
    make_officer_and_rel company data c
    = (c1, Raise (KeyError (o_position data)))
    /\ memo_wf c1 /\ emitted c1 = emitted c
    /\ logged c1 = logged c ++
         (if type_known (o_type data) then []
          else [unknown_type (o_type data)]).
Proof.
  intros Hwf Hrole.
  destruct (make_officer_wf company data c Hwf)
    as (c1 & e & s & Ho & Hwf1 & Hem & Hrel & Hlog).
  exists c1. repeat split; try assumption.
  unfold make_officer_and_rel, bind. rewrite Ho. cbn [fst snd].
  now rewrite (make_rel_unknown company e data s c1 Hrole).
Qed.

(** ** One record *)

Lemma schemes_cases (v : pyval) (sch : string) (form : str) :
  dict_lookup v SCHEMES = Some (sch, form) ->
  sch = "Company"%string \/ sch = "Organization"%string.
Proof.
  destruct v as [|t| | | |]; try discriminate.
  unfold SCHEMES. cbn [dict_lookup dict_get].
  repeat match goal with
         | |- context [str_eqb t ?k] =>
             destruct (str_eqb t k); [intros [= <- _]; tauto|]
         end.
  discriminate.
Qed.

Lemma previous_names_schema (names : list pyval) (p : entity) :
  schema (fold_left (fun p n => add "previousName" n p) names p) = schema p.
Proof.
  revert p. induction names as [|n names IH]; intros p; cbn [fold_left];
    [reflexivity|].
  now rewrite IH.
Qed.

(** A known register: the company goes out, and it is what the officers'
    relationships will point to. *)
Lemma make_company_run (r : record) (c : context) (sch : string) (form : str) :
  dict_lookup (register_art r) SCHEMES = Some (sch, form) ->
  exists company,
    make_company r c = (emit_all [company] c, Ok company)
    /\ is_relationship company = false.
Proof.
  intros H. unfold make_company. rewrite H.
  eexists. split; [reflexivity|].
  unfold is_relationship. cbn [schema add set_id].
  rewrite previous_names_schema. cbn [schema add set_id make].
  destruct (schemes_cases _ _ _ H) as [-> | ->]; reflexivity.
Qed.

Lemma make_company_unknown (r : record) (c : context) :
  dict_lookup (register_art r) SCHEMES = None ->
  make_company r c = (c, Raise (KeyError (register_art r))).
Proof. intros H. unfold make_company. now rewrite H. Qed.

(** The officers of a record, their roles all known: each relationship
    goes out before the officer it names. *)
Lemma officers_stream (company : entity) (os : list officer) (c : context) :
  memo_wf c ->
  Forall (fun o => dict_lookup (o_position o) REL_SCHEMS <> None) os ->
  exists subs c',
    for_each os (make_officer_and_rel company) c = (c', Ok tt)
    /\ memo_wf c'
    /\ emitted c' = emitted c ++ edge_first subs
    /\ Forall (officer_ok company) subs.
Proof.
  revert c. induction os as [|o os IH]; intros c Hwf Hos.
  - exists [], c. repeat split; [assumption| |constructor].
    cbn. now rewrite app_nil_r.
  - inversion Hos as [|? ? Ho Hos']; subst.
    destruct (dict_lookup (o_position o) REL_SCHEMS) as [sch|] eqn:R;
      [|contradiction].
    destruct (make_officer_and_rel_known company o c sch Hwf R)
      as (c1 & e & s & rel & _ & Hrun & Hl & He & Hwf1 & Hem & _).
    assert (Hwf2 : memo_wf (emit_all [rel; e] c1))
      by now apply (memo_wf_same c1).
    destruct (IH _ Hwf2 Hos') as (subs & c' & Hrest & Hwf' & Hem' & Hsubs).
    exists ((e, rel) :: subs), c'. repeat split; try assumption.
    + cbn [for_each]. unfold bind. now rewrite Hrun.
    + rewrite Hem'. cbn [emit_all emitted edge_first flat_map fst snd].
      rewrite Hem. now rewrite <- !app_assoc.
    + now constructor.
Qed.

(** One record whose register and roles are known: the company first,
    then each relationship followed by its officer. *)
Lemma parse_record_stream (r : record) (c : context) (sch : string)
    (form : str) :
  memo_wf c ->
  dict_lookup (register_art r) SCHEMES = Some (sch, form) ->
  Forall (fun o => dict_lookup (o_position o) REL_SCHEMS <> None)
    (officers r) ->
  exists company subs c',
    parse_record r c = (c', Ok tt)
    /\ emitted c' = emitted c ++ company :: edge_first subs
    /\ is_relationship company = false
    /\ Forall (officer_ok company) subs.
Proof.
  intros Hwf Hreg Hos.
  destruct (make_company_run r c sch form Hreg) as (company & Hc & Hrel).
  assert (Hwf1 : memo_wf (emit_all [company] c))
    by now apply (memo_wf_same c).
  destruct (officers_stream company (officers r) _ Hwf1 Hos)
    as (subs & c' & Hrun & _ & Hem & Hsubs).
  exists company, subs, c'. repeat split; try assumption.
  - unfold parse_record, bind. now rewrite Hc.
  - rewrite Hem. cbn [emit_all emitted]. now rewrite <- app_assoc.
Qed.

(** ** The table stays well formed all along a run *)

Lemma make_officer_and_rel_keeps (company : entity) (data : officer) :
  triple memo_wf (make_officer_and_rel company data)
    (fun _ => memo_wf) memo_wf.
Proof.
  intros c Hwf.
  destruct (dict_lookup (o_position data) REL_SCHEMS) as [sch|] eqn:R.
  - destruct (make_officer_and_rel_known company data c sch Hwf R)
      as (c1 & e & s & rel & _ & -> & _ & _ & Hwf1 & _).
    now apply (memo_wf_same c1).
  - now destruct (make_officer_and_rel_unknown company data c Hwf R)
      as (c1 & -> & Hwf1 & _).
Qed.

Lemma make_company_keeps (r : record) :
  triple memo_wf (make_company r) (fun _ => memo_wf) memo_wf.
Proof.
  intros c Hwf. unfold make_company.
  destruct (dict_lookup (register_art r) SCHEMES) as [[sch form]|];
    [|exact Hwf].
  unfold bind, emit, ret. now apply (memo_wf_same c).
Qed.

Lemma log_keeps (l : level) (m : string) (a : list pyval) :
  triple memo_wf (log l m a) (fun _ => memo_wf) memo_wf.
Proof. intros c Hwf. now apply (memo_wf_same c). Qed.

Lemma parse_record_keeps (r : record) :
  triple memo_wf (parse_record r) (fun _ => memo_wf) memo_wf.
Proof.
  unfold parse_record. eapply triple_bind; [apply make_company_keeps|].
  intros company. apply triple_for_each.
  intros data. apply make_officer_and_rel_keeps.
Qed.

Lemma parse_from_keeps (ix : N) (records : list record) :
  triple memo_wf (parse_from ix records) (fun _ => memo_wf) memo_wf.
Proof.
  revert ix. induction records as [|r records IH]; intros ix;
    cbn [parse_from].
  - destruct (ix =? 0)%N; [now apply triple_ret|apply log_keeps].
  - eapply triple_bind; [apply parse_record_keeps|]. intros _u.
    eapply triple_bind; [|intros _v; apply IH].
    destruct ((ix + 1) mod 10000 =? 0)%N;
      [apply log_keeps|now apply triple_ret].
Qed.

(** Every context a run of [parse] goes through has a well-formed table. *)
Lemma parse_keeps (records : list record) :
  memo_wf (fst (parse records start)).
Proof.
  pose proof (parse_from_keeps 0 records start memo_wf_start) as H.
  unfold parse. now destruct (parse_from 0 records start) as [c [[]|e]].
Qed.

(** A record that raises ends the run: the records after it are not read. *)
Lemma parse_from_raise (ix : N) (r : record) (records : list record)
    (c c' : context) (e : exn) :
  parse_record r c = (c', Raise e) ->
  parse_from ix (r :: records) c = (c', Raise e).
Proof. intros H. cbn [parse_from]. unfold bind at 1. now rewrite H. Qed.

End Officers.
End DeFacts.

(* ===================================================================== *)
(** * cy_companies: ids, dates and the loop over organisations *)
(* ===================================================================== *)

Module CyFacts.
Import CyCompanies PyFacts CtxFacts.

Lemma lstrip_head (s r : str) (c : char) :
  lstrip s = c :: r -> isspace c = false.
Proof.
  induction s as [|x s IH]; cbn [lstrip]; [discriminate|].
  destruct (isspace x) eqn:E; [exact IH|].
  now intros [= <- _].
Qed.

Lemma lstrip_nil (s : str) : lstrip s = [] <-> forallb isspace s = true.
Proof.
  induction s as [|x s IH]; cbn [lstrip forallb]; [easy|].
  destruct (isspace x); cbn [andb]; [exact IH|easy].
Qed.

(** A string strips to nothing exactly when it is all whitespace. *)
Lemma strip_nil (s : str) : (len (strip s) =? 0) = forallb isspace s.
Proof.
  unfold strip, rstrip, len.
  destruct (forallb isspace s) eqn:E.
  - apply lstrip_nil in E. now rewrite E.
  - destruct (lstrip s) as [|c r] eqn:L.
    + apply lstrip_nil in L. congruence.
    + apply lstrip_head in L as Hc.
      assert (Hlast : lstrip (rev (c :: r)) <> []).
      { intros H. apply lstrip_nil in H. rewrite forallb_forall in H.
        specialize (H c). rewrite <- in_rev in H.
        rewrite H in Hc by now left. discriminate. }
      destruct (lstrip (rev (c :: r))) as [|y l]; [contradiction|].
      rewrite length_rev. reflexivity.
Qed.

Lemma whitespace_only (s : str) : forallb isspace (filter isspace s) = true.
Proof.
  apply forallb_forall. intros c H. now apply filter_In in H.
Qed.

Lemma types_cases (t oc : str) :
  dict_get t TYPES = Some oc ->
  (t = py "C" /\ oc = py "HE") \/ (t = py "P" /\ oc = py "S")
  \/ (t = py "O" /\ oc = py "AE") \/ (t = py "N" /\ oc = py "BN")
  \/ (t = py "B" /\ oc = py "B").
Proof.
  unfold TYPES. cbn [dict_get].
  repeat match goal with
         | |- context [str_eqb t ?k] =>
             destruct (str_eqb t k) eqn:E;
             [apply str_eqb_eq in E; intros [= <-]; tauto|clear E]
         end.
  discriminate.
Qed.

Lemma not_skipped (t oc : str) :
  dict_get t TYPES = Some oc ->
  str_eqb t [] || str_eqb t trade_name = false.
Proof.
  intros H.
  destruct (types_cases t oc H) as [[-> _]|[[-> _]|[[-> _]|[[-> _]|[-> _]]]]];
    reflexivity.
Qed.

Lemma lower_digits (r : str) : all_digits r = true -> lower r = r.
Proof.
  unfold all_digits, lower. induction r as [|c r IH]; cbn [forallb map];
    [reflexivity|].
  intros H. apply andb_true_iff in H as [Hc Hr]. rewrite (IH Hr).
  f_equal. unfold ascii_digit in Hc. unfold lower_char.
  destruct ((65 <=? c) && (c <=? 90))%N eqn:E; [|reflexivity].
  apply andb_true_iff in Hc as [_ H1]. apply andb_true_iff in E as [H2 _].
  apply N.leb_le in H1, H2. lia.
Qed.

Lemma company_id_digits (t r oc : str) :
  dict_get t TYPES = Some oc -> all_digits r = true ->
  company_id t r = Ok (py "oc-companies-cy-" ++ lower oc ++ r).
Proof.
  intros Ht Hr. unfold company_id. rewrite Ht. f_equal.
  unfold lower. rewrite !map_app. fold (lower r). rewrite (lower_digits r Hr).
  reflexivity.
Qed.

Section Dates.
Context {ext : Externals}.

(** [parse_date]: [None] stays [None], whitespace gives [None], anything
    else goes to [strptime], whose failure is a [ValueError]. *)
Lemma parse_date_text (t : str) :
  parse_date (Some t)
  = if forallb isspace t then Ok None
    else match strptime_dmy t with
         | Some d => Ok (Some d)
         | None => Raise ValueError
         end.
Proof. unfold parse_date. now rewrite strip_nil. Qed.

Lemma parse_date_exn (t : option str) (e : exn) :
  parse_date t = Raise e -> e = ValueError.
Proof.
  unfold parse_date. destruct t as [t|]; [|discriminate].
  destruct (len (strip t) =? 0); [discriminate|].
  destruct (strptime_dmy t); [discriminate|]. now intros [= <-].
Qed.

(** A row whose date does not parse raises before anything went out or
    was logged. *)
Lemma parse_organisation_bad_date (addresses : list (str * str))
    (row : organisation) (c : context) (oc : str) :
  dict_get (ORGANISATION_TYPE_CODE row) TYPES = Some oc ->
  parse_date (REGISTRATION_DATE row) = Raise ValueError
  \/ parse_date (ORGANISATION_STATUS_DATE row) = Raise ValueError ->
  parse_organisation addresses row c = (c, Raise ValueError).
Proof.
  intros Ht Hd. unfold parse_organisation.
  rewrite (not_skipped _ _ Ht). unfold company_id. rewrite Ht.
  unfold bind, lift, ret. cbv beta iota.
  destruct (parse_date (REGISTRATION_DATE row)) as [d1|e1] eqn:D1.
  - destruct Hd as [Hd|Hd]; [discriminate|]. now rewrite Hd.
  - now rewrite (parse_date_exn _ _ D1).
Qed.

End Dates.
End CyFacts.

(* ===================================================================== *)
(** * The claims on md_companies *)
(* ===================================================================== *)

Section MdClaims.
Import MdCompanies PyFacts CtxFacts MdFacts.
Context {ext : Externals}.

(** C5.  The directors field "Alice [Director], Bob [Secretary]" has
    exactly two sub-records, Alice with the role Director and Bob with the
    role Secretary; [parse_directors] emits, for each in turn, the director
    and the Directorship with that role, and nothing else.  The role is cut
    off at the last opening bracket: whatever the body [body] holds, opening
    brackets included, a tag without one is split off whole. *)
Theorem directors_example (company : entity) (c : context) :
  director_records (py "Alice [Director], Bob [Secretary]")
  = [(py "Alice", Some (py "Director")); (py "Bob", Some (py "Secretary"))]
  /\ parse_directors company (VStr (py "Alice [Director], Bob [Secretary]")) c
     = (emit_all
          (director_pair company (py "Alice", Some (py "Director"))
           ++ director_pair company (py "Bob", Some (py "Secretary"))) c,
        Ok tt)
  /\ director_records (py "Alice [Smith] [Director]")
     = [(py "Alice [Smith]", Some (py "Director"))]
  /\ forall body tag : str,
       rsplit1 (py "[")
         (body ++ py "[" ++ filter (fun x => negb (x =? 91)%N) tag)
       = Some (body, filter (fun x => negb (x =? 91)%N) tag).
Proof.
  assert (E : director_records (py "Alice [Director], Bob [Secretary]")
              = [(py "Alice", Some (py "Director"));
                 (py "Bob", Some (py "Secretary"))])
    by (vm_compute; reflexivity).
  split; [exact E|]. split; [|split].
  - rewrite parse_directors_run, E. cbn [flat_map]. now rewrite app_nil_r.
  - vm_compute. reflexivity.
  - intros body tag. apply (rsplit1_char_last 91%N). apply not_in_filter.
Qed.

(** C3, at the input where the code leaves the claim.  The directors field
    "Alice [Director]," has one sub-record, the empty fragment after the
    last separator being dropped by the length test of [parse_directors].
    [parse_founders] and [parse_owners] have no such test: on
    "Alice (50%)," and "Alice (MD)," the empty fragment is a sub-record of
    its own, with an entity whose name is empty and an Ownership to it. *)
Theorem trailing_fragment (company : entity) (c : context) :
  director_records (py "Alice [Director],")
  = [(py "Alice", Some (py "Director"))]
  /\ parse_directors company (VStr (py "Alice [Director],")) c
     = (emit_all (director_pair company (py "Alice", Some (py "Director"))) c,
        Ok tt)
  /\ founder_records (py "Alice (50%),")
     = [(py "Alice", Some (py "50%")); ([], None)]
  /\ parse_founders company (VStr (py "Alice (50%),")) c
     = (emit_all
          (founder_pair company (py "Alice", Some (py "50%"))
           ++ founder_pair company ([], None)) c,
        Ok tt)
  /\ emitted (fst (parse_owners company (VStr (py "Alice (MD),")) c))
     = emitted c
       ++ owner_pair company (py "Alice", Some (py "MD"))
       ++ owner_pair company ([], None).
Proof.
  assert (E1 : director_records (py "Alice [Director],")
               = [(py "Alice", Some (py "Director"))])
    by (vm_compute; reflexivity).
  assert (E2 : founder_records (py "Alice (50%),")
               = [(py "Alice", Some (py "50%")); ([], None)])
    by (vm_compute; reflexivity).
  assert (E3 : founder_records (py "Alice (MD),")
               = [(py "Alice", Some (py "MD")); ([], None)])
    by (vm_compute; reflexivity).
  repeat split; try assumption.
  - rewrite parse_directors_run, E1. cbn [flat_map]. now rewrite app_nil_r.
  - rewrite parse_founders_run, E2. cbn [flat_map]. now rewrite app_nil_r.
  - destruct (parse_owners_run company (py "Alice (MD),") c) as [-> _].
    rewrite E3. cbn [flat_map]. now rewrite app_nil_r.
Qed.


(** C4, at the input where the code leaves the claim.  Only
    [parse_founders] tests for an [int]: it logs the value and returns with
    nothing emitted.  [parse_directors] and [parse_owners] call [.split] on
    the integer, which raises [AttributeError]; nothing is logged.  A value
    that is neither a string nor an integer raises in all three. *)
Theorem decomposers_on_int (company : entity) (z : Z) (other : str)
    (c : context) :
  parse_founders company (VInt z) c
  = (log_all [{| lvl := Warning; msg := "last line: %s";
                 args := [VInt z] |}] c, Ok tt)
  /\ parse_directors company (VInt z) c = (c, Raise AttributeError)
  /\ parse_owners company (VInt z) c = (c, Raise AttributeError)
  /\ parse_founders company (VOther other) c = (c, Raise AttributeError)
  /\ parse_directors company (VOther other) c = (c, Raise AttributeError)
  /\ parse_owners company (VOther other) c = (c, Raise AttributeError).
Proof. repeat split. Qed.

(** C10.  What [parse_founders] and [parse_owners] emit for a field is, for
    each sub-record, an entity and an Ownership.  The id of the Ownership is
    [make_id] of the kind, the company id and the body and of nothing else:
    two sub-records of a company with the same body get Ownerships with the
    same id, whatever their tags and whatever entity they point to.  The id
    of a Directorship is [make_id] of the kind, the company id, the body
    and the role. *)
Theorem ownership_id_ignores_tag (company : entity) :
  (forall founders c,
     parse_founders company (VStr founders) c
     = (emit_all (flat_map (founder_pair company) (founder_records founders)) c,
        Ok tt))
  /\ (forall owners c,
     emitted (fst (parse_owners company (VStr owners) c))
     = emitted c ++ flat_map (owner_pair company) (founder_records owners))
  /\ (forall body tag tag',
     map id (filter is_relationship (founder_pair company (body, tag)))
     = [make_id [VStr (py "Ownership"); ref company; VStr body]]
     /\ map id (filter is_relationship (founder_pair company (body, tag)))
        = map id (filter is_relationship (founder_pair company (body, tag')))
     /\ map id (filter is_relationship (owner_pair company (body, tag)))
        = map id (filter is_relationship (owner_pair company (body, tag'))))
  /\ (forall body role,
     map id (filter is_relationship (director_pair company (body, role)))
     = [make_id [VStr (py "Directorship"); ref company; VStr body;
                 of_opt role]]).
Proof.
  split; [intros; apply parse_founders_run|].
  split; [intros; apply parse_owners_run|].
  split; intros; repeat split.
Qed.

End MdClaims.

(* ===================================================================== *)
(** * The claim on the order of the output stream *)
(* ===================================================================== *)

Section StreamClaims.
Import MdCompanies DeOffeneregister MdFacts DeFacts Samples.

(** C1 does not hold as stated.  With one director, [parse_company] sends
    out the director, the Directorship and only then the company the
    Directorship names as its organization; [parse_record] sends out the
    Directorship of an officer before the officer.  Neither stream has the
    ordering invariant. *)
Lemma emission_order_counterexample :
  map schema (emitted (fst (parse_company (ext := Plain.externals) md_row start)))
  = ["LegalEntity"; "Directorship"; "Company"]%string
  /\ ordered (emitted (fst (parse_company (ext := Plain.externals) md_row start)))
     = false
  /\ map schema
       (emitted (fst (parse_record (ext := Plain.externals)
                        (de_record "HRB" "Hamburg HRB 1"
                           [officer_of "person" "Erika Mustermann" "Vorstand"])
                        start)))
     = ["Company"; "Directorship"; "Person"]%string
  /\ ordered
       (emitted (fst (parse_record (ext := Plain.externals)
                        (de_record "HRB" "Hamburg HRB 1"
                           [officer_of "person" "Erika Mustermann" "Vorstand"])
                        start)))
     = false.
Proof. vm_compute. repeat split. Qed.

(** C1, as amended.  Each relationship has one of its two ends emitted
    before it and the other after it.  In md_companies the entity of a
    sub-record goes out immediately before its edge, and the company all
    the edges point to goes out last, after every one of them (and not at
    all when a decomposer raised).  In de_offeneregister the company goes
    out first, and for each officer the relationship goes out immediately
    before the officer it names. *)
Theorem emission_order {ext : Externals} (data : row) (r : record)
    (sch : string) (form : str) (c : context) :
  memo_wf c ->
  dict_lookup (register_art r) SCHEMES = Some (sch, form) ->
  Forall (fun o => dict_lookup (o_position o) REL_SCHEMS <> None)
    (officers r) ->
  company_stream data c /\ record_stream r c.
Proof.
  intros Hwf Hreg Hos. split; [apply parse_company_stream|].
  destruct (parse_record_stream r c sch form Hwf Hreg Hos)
    as (company & subs & c' & Hrun & Hem & Hrel & Hsubs).
  exists company, subs. rewrite Hrun. now repeat split.
Qed.

Lemma emission_order_witness :
  memo_wf (ext := Plain.externals) start
  /\ dict_lookup (VStr (py "HRB")) SCHEMES
     = Some ("Company"%string, py "Kapitalgesellschaft")
  /\ company_stream (ext := Plain.externals) md_row start
  /\ record_stream (ext := Plain.externals)
       (de_record "HRB" "Hamburg HRB 1"
          [officer_of "person" "Erika Mustermann" "Vorstand"]) start.
Proof.
  split; [apply memo_wf_start|]. split; [reflexivity|].
  apply (emission_order (ext := Plain.externals) md_row
           (de_record "HRB" "Hamburg HRB 1"
              [officer_of "person" "Erika Mustermann" "Vorstand"])
           "Company" (py "Kapitalgesellschaft") start).
  - apply memo_wf_start.
  - reflexivity.
  - repeat constructor. vm_compute. discriminate.
Defined.

End StreamClaims.

(* ===================================================================== *)
(** * The claims on de_offeneregister *)
(* ===================================================================== *)

Section DeClaims.
Import Re DeOffeneregister PyFacts CtxFacts DeFacts Samples.

(** C6, and the input where the code leaves it.  The example of the
    docstring matches the first pattern of RE_PATTERNS, the one with a
    city, with the groups name "HA Invest GmbH", city "Hamburg", reg
    "Hamburg", reg_type "HRB", reg_nr "125617" and summary "."; this is
    what the extractor returns when the string comes up for the first time
    in a run.  The dict it returns is the one its [lru_cache] keeps, and
    [make_officer_and_rel] pops every key of it: once an officer with this
    name has been built, the extractor applied to the same string returns
    the empty dict, with no group at all. *)
Theorem extractor_example {ext : Externals} (company : entity)
    (data : officer) (c : context) :
  memo_wf c ->
  memo_find ha_invest (memo c) = None ->
  o_type data = VStr (py "company") ->
  o_name data = ha_invest ->
  match_groupdict pattern_with_city ha_invest = Some ha_invest_groups
  /\ first_match RE_PATTERNS ha_invest = Some ha_invest_groups
  /\ snd (parse_officer_company_name ha_invest c) = Ok (Some ha_invest_groups)
  /\ snd (parse_officer_company_name ha_invest
            (fst (make_officer company data c)))
     = Ok (Some []).
Proof.
  intros Hwf Hmiss T N.
  assert (E : match_groupdict pattern_with_city ha_invest
              = Some ha_invest_groups) by (vm_compute; reflexivity).
  assert (F : first_match RE_PATTERNS ha_invest = Some ha_invest_groups).
  { unfold RE_PATTERNS. cbn [first_match]. now rewrite E. }
  assert (C : cached ha_invest c = Some ha_invest_groups).
  { unfold cached. now rewrite Hmiss, F. }
  repeat split; try assumption.
  - rewrite parse_officer_company_name_run. cbn [snd]. now rewrite C.
  - pose proof (make_officer_company company data c Hwf T) as H.
    cbv zeta in H. rewrite N, C in H. unfold ha_invest_groups at 1 in H.
    rewrite H. rewrite parse_officer_company_name_run. cbn [fst snd].
    unfold cached. cbn [memo set_memo memo_find].
    now rewrite str_eqb_refl.
Qed.

Lemma extractor_example_witness :
  memo_wf (ext := Plain.externals) start
  /\ memo_find ha_invest (memo start) = None
  /\ snd (parse_officer_company_name (ext := Plain.externals) ha_invest start)
     = Ok (Some ha_invest_groups)
  /\ snd (parse_officer_company_name (ext := Plain.externals) ha_invest
            (fst (make_officer (ext := Plain.externals) de_company
                    (officer_of "company"
                       "HA Invest GmbH, Hamburg (Amtsgericht Hamburg HRB 125617)."
                       "Inhaber") start)))
     = Ok (Some []).
Proof.
  split; [apply memo_wf_start|]. split; [reflexivity|].
  apply (extractor_example (ext := Plain.externals) de_company
           (officer_of "company"
              "HA Invest GmbH, Hamburg (Amtsgericht Hamburg HRB 125617)."
              "Inhaber") start memo_wf_start eq_refl eq_refl eq_refl).
Defined.

(** C7.  For a name that no pattern of RE_PATTERNS matches, in a run whose
    table is well formed, the extractor returns [None] and the caller
    builds the officer without raising: a Company whose only property so
    far is the whole text as its name and whose id is the slug of
    "officer" and of the hash of the parent company's id and the
    fingerprint of the text.  With a role that REL_SCHEMS knows the
    relationship and this officer go out; with another role the
    [KeyError] comes from [make_rel], not from the fallback. *)
Theorem unmatched_name_falls_back {ext : Externals} (company : entity)
    (data : officer) (c : context) :
  memo_wf c ->
  first_match RE_PATTERNS (o_name data) = None ->
  o_type data = VStr (py "company") ->
  snd (parse_officer_company_name (o_name data) c) = Ok None
  /\ props (opaque_officer "Company" company (o_name data))
     = [("name"%string, VStr (o_name data))]
  /\ id (add_mapped (o_other data)
           (opaque_officer "Company" company (o_name data)))
     = make_slug [VStr (py "officer");
                  of_opt (make_entity_id
                            [ref company; of_opt (fp (o_name data))])]
  /\ exists c1,
       make_officer company data c
       = (c1, Ok (add_mapped (o_other data)
                    (opaque_officer "Company" company (o_name data)), None))
       /\ match dict_lookup (o_position data) REL_SCHEMS with
          | Some _ =>
              exists rel,
                make_officer_and_rel company data c
                = (emit_all
                     [rel; add_mapped (o_other data)
                             (opaque_officer "Company" company (o_name data))]
                     c1, Ok tt)
          | None =>
              make_officer_and_rel company data c
              = (c1, Raise (KeyError (o_position data)))
          end.
Proof.
  intros Hwf Hnone T.
  assert (C : cached (o_name data) c = None).
  { destruct (cached_ok (o_name data) c Hwf) as [H|[_ H]];
      [congruence|contradiction]. }
  split; [rewrite parse_officer_company_name_run; cbn [snd]; now rewrite C|].
  split; [reflexivity|].
  split; [now destruct (add_mapped_same (o_other data)
                          (opaque_officer "Company" company (o_name data)))
            as (_ & -> & _)|].
  pose proof (make_officer_company company data c Hwf T) as H.
  cbv zeta in H. rewrite C in H.
  eexists. split; [exact H|].
  unfold make_officer_and_rel, bind. rewrite H. cbn [fst snd].
  destruct (dict_lookup (o_position data) REL_SCHEMS) as [sch|] eqn:R.
  - destruct (make_rel_known company
                (add_mapped (o_other data)
                   (opaque_officer "Company" company (o_name data)))
                data None
                (set_memo
                   ((o_name data, None)
                    :: firstn 127 (memo_drop (o_name data) (memo c))) c)
                sch R) as (rel & -> & _).
    exists rel. unfold emit, emit_all. cbn [emitted logged memo].
    now rewrite <- app_assoc.
  - now rewrite make_rel_unknown.
Qed.

Lemma unmatched_name_falls_back_witness :
  memo_wf (ext := Plain.externals) start
  /\ first_match (ext := Plain.externals) RE_PATTERNS
       (py "Hausverwaltung Nord") = None
  /\ snd (make_officer_and_rel (ext := Plain.externals) de_company
            (officer_of "company" "Hausverwaltung Nord" "Prokurist") start)
     = Ok tt.
Proof.
  split; [apply memo_wf_start|]. split; [vm_compute; reflexivity|].
  destruct (unmatched_name_falls_back (ext := Plain.externals) de_company
              (officer_of "company" "Hausverwaltung Nord" "Prokurist") start
              memo_wf_start eq_refl eq_refl)
    as (_ & _ & _ & c1 & _ & H).
  hnf in H. destruct H as (rel & H). now rewrite H.
Defined.

(** C8 does not hold as stated.  An officer of an unknown type is not
    skipped: its relationship and the officer itself, as a LegalEntity, go
    out.  A role that REL_SCHEMS does not know, or a register that SCHEMES
    does not know, raises a [KeyError] that ends the run: the record after
    it is not read, and nothing is logged. *)
Lemma unknown_codes_counterexample :
  map schema
    (emitted (fst (make_officer_and_rel (ext := Plain.externals) de_company
                     (officer_of "trust" "Erika Mustermann" "Vorstand") start)))
  = ["Directorship"; "LegalEntity"]%string
  /\ (let run :=
        parse (ext := Plain.externals)
          [de_record "HRB" "Hamburg HRB 1"
             [officer_of "person" "Erika Mustermann" "Aufsichtsrat"];
           de_record "HRB" "Hamburg HRB 2" []] start in
      map schema (emitted (fst run)) = ["Company"%string]
      /\ logged (fst run) = []
      /\ snd run = Raise (KeyError (VStr (py "Aufsichtsrat"))))
  /\ (let run :=
        parse (ext := Plain.externals)
          [de_record "XYZ" "Hamburg XYZ 1" [];
           de_record "HRB" "Hamburg HRB 2" []] start in
      emitted (fst run) = []
      /\ logged (fst run) = []
      /\ snd run = Raise (KeyError (VStr (py "XYZ")))).
Proof. vm_compute. repeat split. Qed.

(** C8, as amended.  An officer type other than "company" and "person" is
    logged in a warning with the type, and the officer is processed all
    the same: the relationship and the officer, a LegalEntity with the
    opaque id, go out.  A role absent from REL_SCHEMS makes [make_rel]
    raise [KeyError] with the role before anything of the officer went
    out, and a register absent from SCHEMES makes [make_company] raise
    [KeyError] with the register before anything of the record went out;
    neither is logged, and either ends [parse]: the officers and the
    records after it are not read. *)
Theorem unknown_codes {ext : Externals} (company : entity) (u v : officer)
    (sch : string) (r : record) (later : list record) (ix : N)
    (c : context) :
  memo_wf c ->
  type_known (o_type u) = false ->
  dict_lookup (o_position u) REL_SCHEMS = Some sch ->
  dict_lookup (o_position v) REL_SCHEMS = None ->
  dict_lookup (register_art r) SCHEMES = None ->
  (exists rel,
     make_officer_and_rel company u c
     = (emit_all
          [rel; add_mapped (o_other u)
                  (opaque_officer "LegalEntity" company (o_name u))]
          (log_all [unknown_type (o_type u)] c), Ok tt)
     /\ links rel
          (add_mapped (o_other u)
             (opaque_officer "LegalEntity" company (o_name u))) company)
  /\ (exists c1,
     make_officer_and_rel company v c = (c1, Raise (KeyError (o_position v)))
     /\ emitted c1 = emitted c
     /\ logged c1 = logged c ++
          (if type_known (o_type v) then [] else [unknown_type (o_type v)])
     /\ forall after,
          for_each (v :: after) (make_officer_and_rel company) c
          = (c1, Raise (KeyError (o_position v))))
  /\ make_company r c = (c, Raise (KeyError (register_art r)))
  /\ parse_from ix (r :: later) c = (c, Raise (KeyError (register_art r))).
Proof.
  intros Hwf Hu Hrole Hv Hr. split; [|split; [|split]].
  - unfold make_officer_and_rel, bind.
    rewrite (make_officer_unknown company u c Hu). cbn [fst snd].
    destruct (make_rel_known company
                (add_mapped (o_other u)
                   (opaque_officer "LegalEntity" company (o_name u)))
                u None (log_all [unknown_type (o_type u)] c) sch Hrole)
      as (rel & -> & Hl).
    exists rel. split; [|exact Hl].
    unfold emit, emit_all. cbn [emitted logged memo].
    now rewrite <- app_assoc.
  - destruct (make_officer_and_rel_unknown company v c Hwf Hv)
      as (c1 & Hrun & _ & Hem & Hlog).
    exists c1. repeat split; try assumption.
    intros after. cbn [for_each]. unfold bind. now rewrite Hrun.
  - now apply make_company_unknown.
  - apply parse_from_raise. unfold parse_record, bind.
    now rewrite (make_company_unknown r c Hr).
Qed.

Lemma unknown_codes_witness :
  memo_wf (ext := Plain.externals) start
  /\ type_known (VStr (py "trust")) = false
  /\ dict_lookup (VStr (py "Vorstand")) REL_SCHEMS = Some "Directorship"%string
  /\ dict_lookup (VStr (py "Aufsichtsrat")) REL_SCHEMS = None
  /\ dict_lookup (VStr (py "XYZ")) SCHEMES = None
  /\ parse_from (ext := Plain.externals) 0
       [de_record "XYZ" "Hamburg XYZ 1" []; de_record "HRB" "Hamburg HRB 2" []]
       start
     = (start, Raise (KeyError (VStr (py "XYZ")))).
Proof.
  split; [apply memo_wf_start|]. repeat (split; [reflexivity|]).
  apply (unknown_codes (ext := Plain.externals) de_company
           (officer_of "trust" "Erika Mustermann" "Vorstand")
           (officer_of "person" "Erika Mustermann" "Aufsichtsrat")
           "Directorship" (de_record "XYZ" "Hamburg XYZ 1" [])
           [de_record "HRB" "Hamburg HRB 2" []] 0 start);
    [apply memo_wf_start|reflexivity..].
Defined.

(** The table of [lru_cache] holds the dict that [make_officer_and_rel]
    empties by its pops.  In a run whose table is well formed, an officer
    of type "company" whose name is matched gets the registry id when the
    name comes up for the first time, and the next officer with the same
    name gets the empty dict from the table and so the opaque id. *)
Theorem repeated_name_gets_opaque_id {ext : Externals}
    (company company' : entity) (data data' : officer) (c : context)
    (d : groupdict) :
  memo_wf c ->
  o_type data = VStr (py "company") ->
  o_type data' = VStr (py "company") ->
  o_name data' = o_name data ->
  memo_find (o_name data) (memo c) = None ->
  first_match RE_PATTERNS (o_name data) = Some d ->
  exists c1 c2,
    make_officer company data c
    = (c1, Ok (add_mapped (o_other data)
                 (registered_officer (dict_value "name" d)
                    (dict_value "city" d) (dict_value "reg" d)
                    (dict_value "reg_type" d) (dict_value "reg_nr" d)),
               dict_value "summary" d))
    /\ memo_find (o_name data) (memo c1) = Some (Some [])
    /\ make_officer company' data' c1
       = (c2, Ok (add_mapped (o_other data')
                    (opaque_officer "Company" company' (o_name data)), None)).
Proof.
  intros Hwf T T' N Hmiss Hd.
  assert (C : cached (o_name data) c = Some d)
    by (unfold cached; now rewrite Hmiss).
  pose proof (make_officer_company company data c Hwf T) as H.
  cbv zeta in H. rewrite C in H.
  assert (Hne : exists x d0, d = x :: d0).
  { destruct (first_match_shape _ _ Hd)
      as [(v1&v2&v3&v4&v5&v6&->)|(v1&v3&v4&v5&v6&->)]; eauto. }
  destruct Hne as (x & d0 & ->).
  eexists _, _. split; [exact H|].
  assert (F : memo_find (o_name data)
                (memo (set_memo
                         ((o_name data, Some [])
                          :: firstn 127 (memo_drop (o_name data) (memo c))) c))
              = Some (Some [])).
  { cbn [memo set_memo memo_find]. now rewrite str_eqb_refl. }
  split; [exact F|].
  assert (Hwf1 : memo_wf (set_memo
                            ((o_name data, Some [])
                             :: firstn 127 (memo_drop (o_name data) (memo c)))
                            c)).
  { apply (memo_wf_touch (o_name data) (Some [])); [assumption|].
    right. split; [reflexivity|congruence]. }
  pose proof (make_officer_company company' data' _ Hwf1 T') as H'.
  cbv zeta in H'. rewrite N in H'. unfold cached in H'. rewrite F in H'.
  exact H'.
Qed.

Lemma repeated_name_gets_opaque_id_witness :
  memo_wf (ext := Plain.externals) start
  /\ first_match (ext := Plain.externals) RE_PATTERNS ha_invest
     = Some ha_invest_groups
  /\ exists c1 c2,
       fst (make_officer (ext := Plain.externals) de_company
              (officer_of "company"
                 "HA Invest GmbH, Hamburg (Amtsgericht Hamburg HRB 125617)."
                 "Inhaber") start) = c1
       /\ make_officer (ext := Plain.externals) de_company
            (officer_of "company"
               "HA Invest GmbH, Hamburg (Amtsgericht Hamburg HRB 125617)."
               "Prokurist") c1
          = (c2, Ok (opaque_officer (ext := Plain.externals) "Company"
                       de_company ha_invest, None)).
Proof.
  split; [apply memo_wf_start|]. split; [vm_compute; reflexivity|].
  destruct (repeated_name_gets_opaque_id (ext := Plain.externals)
              de_company de_company
              (officer_of "company"
                 "HA Invest GmbH, Hamburg (Amtsgericht Hamburg HRB 125617)."
                 "Inhaber")
              (officer_of "company"
                 "HA Invest GmbH, Hamburg (Amtsgericht Hamburg HRB 125617)."
                 "Prokurist")
              start ha_invest_groups memo_wf_start eq_refl eq_refl eq_refl
              eq_refl)
    as (c1 & c2 & H1 & _ & H2); [vm_compute; reflexivity|].
  exists c1, c2. split; [now rewrite H1|exact H2].
Defined.

End DeClaims.

(* ===================================================================== *)
(** * The claims on cy_companies *)
(* ===================================================================== *)

Section CyClaims.
Import CyCompanies PyFacts CtxFacts CyFacts Samples.

(** C2 does not hold as stated.  [company_id] puts the prefix of the type
    and the registration number side by side and lowers the result: type N
    with number "1" and type B with number "N1" are two keys with one id.
    No hash is involved. *)
Lemma company_id_collision :
  str_eqb (py "N") (py "B") = false
  /\ company_id (py "N") (py "1") = Ok (py "oc-companies-cy-bn1")
  /\ company_id (py "B") (py "N1") = Ok (py "oc-companies-cy-bn1").
Proof. vm_compute. repeat split. Qed.

(** C2, as amended.  For registration numbers made of decimal digits, two
    different keys whose types are among the five of TYPES have different
    ids. *)
Theorem company_id_distinct_on_digits (t r t' r' : str) :
  all_digits r = true -> all_digits r' = true ->
  dict_get t TYPES <> None -> dict_get t' TYPES <> None ->
  (t, r) <> (t', r') ->
  company_id t r <> company_id t' r'.
Proof.
  intros Hr Hr' Ht Ht' Hne.
  destruct (dict_get t TYPES) as [oc|] eqn:E; [|contradiction].
  destruct (dict_get t' TYPES) as [oc'|] eqn:E'; [|contradiction].
  rewrite (company_id_digits t r oc E Hr), (company_id_digits t' r' oc' E' Hr').
  intros [= H]. apply Hne.
  destruct (types_cases t oc E)
    as [[-> ->]|[[-> ->]|[[-> ->]|[[-> ->]|[-> ->]]]]];
  destruct (types_cases t' oc' E')
    as [[-> ->]|[[-> ->]|[[-> ->]|[[-> ->]|[-> ->]]]]];
  cbn in H; try discriminate; injection H as H; subst;
    try reflexivity; try discriminate.
Qed.

Lemma company_id_distinct_on_digits_witness :
  all_digits (py "1") = true
  /\ company_id (py "N") (py "1") <> company_id (py "B") (py "1").
Proof.
  split; [reflexivity|].
  apply (company_id_distinct_on_digits (py "N") (py "1") (py "B") (py "1"));
    try reflexivity; vm_compute; discriminate.
Defined.

(** C9 does not hold as stated.  A row whose registration date is the 31st
    of February makes [parse_organisations] raise [ValueError]: the row is
    not logged, and the row after it, which alone gives one Company, is
    never read. *)
Lemma bad_date_counterexample :
  parse_organisations (ext := Plain.externals)
    [cy_row "1" "31/02/2020"; cy_row "2" "01/03/2020"] [] start
  = (start, Raise ValueError)
  /\ map schema
       (emitted (fst (parse_organisations (ext := Plain.externals)
                        [cy_row "2" "01/03/2020"] [] start)))
     = ["Company"%string].
Proof. vm_compute. repeat split. Qed.

(** C9, as amended.  [parse_date] returns [None] for [None] and for a text
    of whitespace only, and hands any other text to [strptime] with the
    day/month/year format, whose failure is a [ValueError].
    [parse_organisations] does not catch it: a row of a known type whose
    registration date or status date does not parse raises before anything
    of the row went out or was logged, and the loop ends there, the rows
    after it unread. *)
Theorem bad_date_ends_the_run {ext : Externals} (addresses : list (str * str))
    (before after : list organisation) (row : organisation) (oc : str)
    (c c' : context) :
  dict_get (ORGANISATION_TYPE_CODE row) TYPES = Some oc ->
  parse_date (REGISTRATION_DATE row) = Raise ValueError
  \/ parse_date (ORGANISATION_STATUS_DATE row) = Raise ValueError ->
  parse_organisations before addresses c = (c', Ok tt) ->
  parse_date None = Ok None
  /\ (forall t, parse_date (Some (filter isspace t)) = Ok None)
  /\ (forall t,
        parse_date (Some t)
        = if forallb isspace t then Ok None
          else match strptime_dmy t with
               | Some d => Ok (Some d)
               | None => Raise ValueError
               end)
  /\ parse_organisation addresses row c' = (c', Raise ValueError)
  /\ parse_organisations (before ++ row :: after) addresses c
     = (c', Raise ValueError).
Proof.
  intros Ht Hd Hb.
  pose proof (parse_organisation_bad_date addresses row c' oc Ht Hd) as Hrow.
  split; [reflexivity|]. split; [|split; [|split]].
  - intros t. now rewrite parse_date_text, whitespace_only.
  - apply parse_date_text.
  - exact Hrow.
  - unfold parse_organisations.
    now apply (for_each_raise _ before after row c c').
Qed.

Lemma bad_date_ends_the_run_witness :
  dict_get (py "C") TYPES = Some (py "HE")
  /\ parse_date (ext := Plain.externals) (Some (py "31/02/2020"))
     = Raise ValueError
  /\ parse_organisations (ext := Plain.externals)
       [cy_row "2" "01/03/2020"; cy_row "1" "31/02/2020";
        cy_row "3" "02/03/2020"] [] start
     = (fst (parse_organisations (ext := Plain.externals)
               [cy_row "2" "01/03/2020"] [] start),
        Raise ValueError).
Proof.
  split; [reflexivity|]. split; [vm_compute; reflexivity|].
  apply (bad_date_ends_the_run (ext := Plain.externals) []
           [cy_row "2" "01/03/2020"] [cy_row "3" "02/03/2020"]
           (cy_row "1" "31/02/2020") (py "HE") start).
  - reflexivity.
  - left. vm_compute. reflexivity.
  - vm_compute. reflexivity.
Defined.

End CyClaims.

(* ===================================================================== *)
(** * More on the string operations: stripping, removing, cutting *)
(* ===================================================================== *)

Module StrFacts.
Import PyFacts CyFacts.

Lemma lstrip_idem (s : str) : lstrip (lstrip s) = lstrip s.
Proof.
  induction s as [|c s IH]; [reflexivity|].
  cbn [lstrip]. destruct (isspace c) eqn:E; [exact IH|].
  cbn [lstrip]. now rewrite E.
Qed.

Lemma lstrip_incl (s : str) (c : char) : In c (lstrip s) -> In c s.
Proof.
  induction s as [|x s IH]; [easy|].
  cbn [lstrip]. destruct (isspace x); [|easy].
  intros H. right. now apply IH.
Qed.

Lemma lstrip_snoc (s : str) (c : char) :
  isspace c = false -> lstrip (s ++ [c]) = lstrip s ++ [c].
Proof.
  intros Hc. induction s as [|x s IH]; cbn [lstrip app].
  - now rewrite Hc.
  - destruct (isspace x); [exact IH|reflexivity].
Qed.

Lemma rstrip_cons (s : str) (c : char) :
  isspace c = false -> rstrip (c :: s) = c :: rstrip s.
Proof.
  intros Hc. unfold rstrip. cbn [rev].
  rewrite lstrip_snoc by assumption.
  now rewrite rev_app_distr.
Qed.

Lemma strip_incl (s : str) (c : char) : In c (strip s) -> In c s.
Proof.
  unfold strip, rstrip. intros H.
  apply in_rev in H. apply lstrip_incl in H. apply in_rev in H.
  now apply lstrip_incl.
Qed.

(** Stripping twice is stripping once. *)
Lemma strip_idem (s : str) : strip (strip s) = strip s.
Proof.
  assert (Hr : forall u, rstrip (rstrip u) = rstrip u).
  { intros u. unfold rstrip. now rewrite rev_involutive, lstrip_idem. }
  unfold strip. destruct (lstrip s) as [|c u] eqn:E; [reflexivity|].
  pose proof (lstrip_head _ _ _ E) as Hc.
  rewrite rstrip_cons by assumption.
  cbn [lstrip]. rewrite Hc.
  rewrite <- rstrip_cons by assumption. apply Hr.
Qed.

(** [s.replace(c, "")] for a single character takes out every [c] and
    leaves the rest as it is. *)
Lemma remove_all_filter (c : char) (s : str) :
  remove_all [c] s = filter (fun x => negb (x =? c)%N) s.
Proof.
  unfold remove_all, split.
  assert (H : forall n t, length t <= n ->
            concat (split_fuel n [c] t)
            = filter (fun x => negb (x =? c)%N) t).
  { assert (Hkeep : forall a, ~ In c a ->
              filter (fun x => negb (x =? c)%N) a = a).
    { induction a as [|x a IH]; [reflexivity|]. intros Hn. cbn [filter].
      destruct (N.eqb_spec x c) as [->|Hx].
      - exfalso. apply Hn. now left.
      - cbn [negb]. f_equal. apply IH. intros Hin. apply Hn. now right. }
    induction n as [|n IH]; intros t Hlen.
    - destruct t; [reflexivity|cbn in Hlen; lia].
    - cbn [split_fuel].
      destruct (in_dec N.eq_dec c t) as [Hin|Hnot].
      + destruct (char_occurs c t Hin) as (a & b & -> & Ha).
        rewrite partition_char_first by assumption.
        cbn [concat]. rewrite IH.
        * rewrite filter_app. cbn [filter]. rewrite N.eqb_refl. cbn [negb].
          f_equal. symmetry. now apply Hkeep.
        * rewrite length_app in Hlen. cbn in Hlen. lia.
      + rewrite partition_char_none by assumption.
        cbn [concat]. rewrite app_nil_r. symmetry. now apply Hkeep. }
  now apply H.
Qed.

Lemma remove_all_clean (c x : char) (s : str) :
  In x (remove_all [c] s) <-> In x s /\ x <> c.
Proof.
  rewrite remove_all_filter, filter_In.
  destruct (N.eqb_spec x c); cbn [negb]; intuition congruence.
Qed.

(** The one cut of [rsplit] is at the last occurrence. *)
Lemma rsplit1_char_spec (c : char) (s a b : str) :
  rsplit1 [c] s = Some (a, b) -> s = a ++ c :: b /\ ~ In c b.
Proof.
  intros H.
  destruct (in_dec N.eq_dec c s) as [Hin|Hnot].
  - apply in_rev in Hin.
    destruct (char_occurs c (rev s) Hin) as (x & y & E & Hx).
    assert (Es : s = rev y ++ c :: rev x).
    { rewrite <- (rev_involutive s), E, rev_app_distr. cbn [rev].
      now rewrite <- app_assoc. }
    assert (Hb : ~ In c (rev x)) by (now rewrite <- in_rev).
    rewrite Es in H. rewrite rsplit1_char_last in H by assumption.
    injection H as <- <-. now split.
  - rewrite rsplit1_char_none in H by assumption. discriminate.
Qed.

End StrFacts.

(* ===================================================================== *)
(** * md_companies: what a sub-record holds *)
(* ===================================================================== *)

Section MdRecords.
Import MdCompanies PyFacts StrFacts.

(** The sub-records of a directors field are clean: the body is stripped,
    a role is stripped and holds no bracket, and a sub-record without a
    role has no opening bracket in its body. *)
Theorem director_records_clean (directors body : str) (role : option str) :
  In (body, role) (director_records directors) ->
  strip body = body
  /\ match role with
     | Some r => strip r = r /\ ~ In (ch "[") r /\ ~ In (ch "]") r
     | None => ~ In (ch "[") body
     end.
Proof.
  unfold director_records. intros H.
  apply filter_In in H. destruct H as [H _].
  apply in_map_iff in H. destruct H as (d & E & _).
  unfold director_fields in E.
  destruct (rsplit1 (py "[") d) as [[d' r]|] eqn:R.
  - injection E as <- <-.
    apply (rsplit1_char_spec (ch "[")) in R. destruct R as [_ Hr].
    split; [apply strip_idem|]. split; [apply strip_idem|].
    split; intros Hin; apply strip_incl in Hin;
      apply (remove_all_clean (ch "]")) in Hin; destruct Hin as [Hin Hne].
    + now apply Hr.
    + now apply Hne.
  - injection E as <- <-.
    split; [apply strip_idem|].
    intros Hin. apply strip_incl in Hin.
    destruct (rsplit1_char_some (ch "[") d Hin) as (a & b & E).
    change (@cons char (ch "[") (@nil char)) with (py "[") in E.
    rewrite E in R. discriminate.
Qed.

Lemma director_records_clean_witness :
  In (py "Alice", Some (py "Director"))
    (director_records (py "Alice [Director], Bob [Secretary]"))
  /\ strip (py "Alice") = py "Alice"
  /\ ~ In (ch "]") (py "Director").
Proof.
  assert (H : In (py "Alice", Some (py "Director"))
                (director_records (py "Alice [Director], Bob [Secretary]"))).
  { vm_compute. now left. }
  split; [exact H|].
  destruct (director_records_clean _ _ _ H) as (Hb & _ & _ & Hr).
  now split.
Defined.

(** The sub-records of a founders or owners field: the body is stripped and
    holds no closing parenthesis; a tag holds no parenthesis at all, and is
    kept as it stands, unstripped; a sub-record without a tag has no
    opening parenthesis in its body. *)
Theorem founder_records_clean (founders body : str) (tag : option str) :
  In (body, tag) (founder_records founders) ->
  strip body = body
  /\ ~ In (ch ")") body
  /\ match tag with
     | Some t => ~ In (ch "(") t /\ ~ In (ch ")") t
     | None => ~ In (ch "(") body
     end.
Proof.
  unfold founder_records. intros H.
  apply in_flat_map in H. destruct H as (f & _ & H).
  unfold founder_fields in H.
  set (g := remove_all (py ")") f) in *.
  assert (Hg : ~ In (ch ")") g).
  { intros Hx. apply (remove_all_clean (ch ")")) in Hx. now destruct Hx. }
  destruct (contains (py "(") g) eqn:C.
  - destruct (rsplit1 (py "(") g) as [[a p]|] eqn:R; [|destruct H].
    destruct H as [H|[]]. injection H as <- <-.
    apply (rsplit1_char_spec (ch "(")) in R. destruct R as [E Hp].
    split; [apply strip_idem|]. split; [|split; [exact Hp|]].
    + intros Hin. apply strip_incl in Hin.
      apply Hg. rewrite E. apply in_or_app. now left.
    + intros Hin. apply Hg.
      rewrite E. apply in_or_app. right. now right.
  - destruct H as [H|[]]. injection H as <- <-.
    split; [apply strip_idem|]. split.
    + intros Hin. apply strip_incl in Hin. now apply Hg.
    + intros Hin. apply strip_incl in Hin.
      apply (contains_char (ch "(")) in Hin.
      change (contains (py "(") g = true) in Hin. congruence.
Qed.

Lemma founder_records_clean_witness :
  In (py "Alice", Some (py "50% "))
    (founder_records (py " Alice (50% ), Bob"))
  /\ ~ In (ch ")") (py "Alice").
Proof.
  assert (H : In (py "Alice", Some (py "50% "))
                (founder_records (py " Alice (50% ), Bob"))).
  { vm_compute. now left. }
  split; [exact H|].
  now destruct (founder_records_clean _ _ _ H) as (_ & Hb & _).
Defined.

End MdRecords.

(* ===================================================================== *)
(** * Dicts: what is read after a write or a pop *)
(* ===================================================================== *)

Module DictFacts.
Import PyFacts.

Lemma str_eqb_sym (a b : str) : str_eqb a b = str_eqb b a.
Proof.
  destruct (str_eqb a b) eqn:E.
  - apply str_eqb_eq in E. subst. now rewrite str_eqb_refl.
  - symmetry. apply str_eqb_neq. apply str_eqb_neq in E. congruence.
Qed.

Lemma dict_get_set_same {V} (k : str) (v : V) (d : list (str * V)) :
  dict_get k (dict_set k v d) = Some v.
Proof.
  induction d as [|[k' v'] d IH]; cbn [dict_set dict_get].
  - now rewrite str_eqb_refl.
  - destruct (str_eqb k k') eqn:E; cbn [dict_get]; now rewrite E.
Qed.

Lemma dict_get_set_other {V} (k k' : str) (v : V) (d : list (str * V)) :
  str_eqb k' k = false -> dict_get k' (dict_set k v d) = dict_get k' d.
Proof.
  intros Hk. induction d as [|[k0 v0] d IH]; cbn [dict_set dict_get].
  - now rewrite Hk.
  - destruct (str_eqb k k0) eqn:E; cbn [dict_get].
    + apply str_eqb_eq in E. subst k0. now rewrite Hk.
    + now rewrite IH.
Qed.

Lemma pop_key_none {V} (k : str) (d : list (str * V)) :
  dict_get k d = None -> pop_key k d = None.
Proof.
  induction d as [|[k' v'] d IH]; cbn [pop_key dict_get]; [easy|].
  destruct (str_eqb k k'); [easy|]. intros H. now rewrite IH.
Qed.

(** A pop gives the value that a read gives, and no other key sees it. *)
Lemma pop_key_some {V} (k : str) (d : list (str * V)) (v : V) :
  dict_get k d = Some v ->
  exists d',
    pop_key k d = Some (v, d')
    /\ forall k', str_eqb k' k = false -> dict_get k' d' = dict_get k' d.
Proof.
  induction d as [|[k0 v0] d IH]; cbn [pop_key dict_get]; [easy|].
  destruct (str_eqb k k0) eqn:E.
  - intros [= ->]. exists d. split; [reflexivity|].
    intros k' Hk'. apply str_eqb_eq in E. subst k0. now rewrite Hk'.
  - intros H. destruct (IH H) as (d' & -> & Hd'). exists ((k0, v0) :: d').
    split; [reflexivity|].
    intros k' Hk'. cbn [dict_get]. now rewrite Hd'.
Qed.

Lemma pop_run (k : str) (d d' : list (str * pyval)) (v : pyval)
    (c : context) :
  pop_key k d = Some (v, d') -> pop k d c = (c, Ok (v, d')).
Proof. intros H. unfold pop. now rewrite H. Qed.

Lemma pop_missing (k : str) (d : list (str * pyval)) (c : context) :
  dict_get k d = None -> pop k d c = (c, Raise (KeyError (VStr k))).
Proof. intros H. unfold pop. now rewrite pop_key_none. Qed.

End DictFacts.

(* ===================================================================== *)
(** * md_companies: from the sheet to the company *)
(* ===================================================================== *)

Module MdWorkbookFacts.
Import MdWorkbook PyFacts DictFacts.

(** One pop of a label that is there: the statement goes on with the value,
    and the labels still to come are read as before. *)
Ltac pop_label H :=
  let d' := fresh "d" in
  let Hp := fresh "Hp" in
  let Hk := fresh "Hk" in
  destruct (pop_key_some _ _ _ H) as (d' & Hp & Hk);
  unfold bind at 1;
  rewrite (pop_run _ _ _ _ _ Hp);
  cbv beta iota; cbn [fst snd];
  repeat match goal with
         | G : dict_get ?k _ = _ |- _ =>
             rewrite <- (Hk k eq_refl) in G
         end;
  clear Hp Hk H.

(** The pop of a label that is missing ends the statement. *)
Ltac pop_fails H :=
  unfold bind at 1; rewrite (pop_missing _ _ _ H); cbv beta iota.

Lemma bind_ext {A B} (m : M A) (k1 k2 : A -> M B) (c : context) :
  (forall a c', k1 a c' = k2 a c') -> bind m k1 c = bind m k2 c.
Proof.
  intros H. unfold bind. destruct (m c) as [c' [a|e]]; [apply H|reflexivity].
Qed.

Section Company.
Context {ext : Externals}.

Lemma parse_company_fields (data : list (str * pyval))
    (v1 v2 v3 v4 v5 v6 v7 v8 v9 : pyval) (c : context) :
  dict_get IDNO data = Some v1 ->
  dict_get DENUMIREA data = Some v2 ->
  dict_get ADRESA data = Some v3 ->
  dict_get DATA_INREGISTRARII data = Some v4 ->
  dict_get DATA_LICHIDARII data = Some v5 ->
  dict_get FORMA data = Some v6 ->
  dict_get LISTA_CONDUCATORILOR data = Some v7 ->
  dict_get LISTA_FONDATORILOR data = Some v8 ->
  dict_get LISTA_BENEFICIARILOR data = Some v9 ->
  parse_company data c
  = MdCompanies.parse_company
      {| MdCompanies.idno := v1; MdCompanies.name := v2;
         MdCompanies.address := v3; MdCompanies.registered := v4;
         MdCompanies.liquidated := v5; MdCompanies.legal_form := v6;
         MdCompanies.directors := v7; MdCompanies.founders := v8;
         MdCompanies.owners := v9 |} c.
Proof.
  intros H1 H2 H3 H4 H5 H6 H7 H8 H9.
  unfold parse_company, MdCompanies.parse_company,
    MdCompanies.company_entity, MdCompanies.company_key.
  cbn [MdCompanies.idno MdCompanies.name MdCompanies.address
       MdCompanies.registered MdCompanies.liquidated MdCompanies.legal_form
       MdCompanies.directors MdCompanies.founders MdCompanies.owners].
  pop_label H1. pop_label H2. pop_label H3.
  assert (Hrest : forall company : entity,
    (p4 <- pop DATA_INREGISTRARII d1 ;;
     p5 <- pop DATA_LICHIDARII (snd p4) ;;
     p6 <- pop FORMA (snd p5) ;;
     p7 <- pop LISTA_CONDUCATORILOR (snd p6) ;;
     MdCompanies.parse_directors
       (add "legalForm" (fst p6)
          (add "address" v3
             (add "jurisdiction" (VStr (py "md"))
                (add "dissolutionDate" (fst p5)
                   (add "incorporationDate" (fst p4) company)))))
       (fst p7) ;;
     p8 <- pop LISTA_FONDATORILOR (snd p7) ;;
     MdCompanies.parse_founders
       (add "legalForm" (fst p6)
          (add "address" v3
             (add "jurisdiction" (VStr (py "md"))
                (add "dissolutionDate" (fst p5)
                   (add "incorporationDate" (fst p4) company)))))
       (fst p8) ;;
     p9 <- pop LISTA_BENEFICIARILOR (snd p8) ;;
     MdCompanies.parse_owners
       (add "legalForm" (fst p6)
          (add "address" v3
             (add "jurisdiction" (VStr (py "md"))
                (add "dissolutionDate" (fst p5)
                   (add "incorporationDate" (fst p4) company)))))
       (fst p9) ;;
     emit
       (add "legalForm" (fst p6)
          (add "address" v3
             (add "jurisdiction" (VStr (py "md"))
                (add "dissolutionDate" (fst p5)
                   (add "incorporationDate" (fst p4) company)))))) c
    = (let company :=
         add "legalForm" v6
           (add "address" v3
              (add "jurisdiction" (VStr (py "md"))
                 (add "dissolutionDate" v5
                    (add "incorporationDate" v4 company)))) in
       MdCompanies.parse_directors company v7 ;;
       MdCompanies.parse_founders company v8 ;;
       MdCompanies.parse_owners company v9 ;;
       emit company) c).
  { intros company.
    pop_label H4. pop_label H5. pop_label H6. pop_label H7.
    apply bind_ext. intros [] c1.
    pop_label H8.
    apply bind_ext. intros [] c2.
    pop_label H9. reflexivity. }
  destruct v1; cbv beta iota;
    try (destruct (make_id [v2; v3]); [|reflexivity]);
    apply Hrest.
Qed.

End Company.
End MdWorkbookFacts.

Module MdSheetFacts.
Import MdWorkbook PyFacts DictFacts MdWorkbookFacts.

(** The test for a key, once the first three labels are popped. *)
Ltac key_step v Hk :=
  destruct v; cbv beta iota zeta in Hk |- *;
  [match type of Hk with
   | ?K <> None => destruct K; [|congruence]
   end; cbv beta iota zeta | ..].

Section Sheet.
Context {ext : Externals}.

(** What [parse_company] comes to when the label [k] is the first one that
    is missing, seen from any property [Q] of its result: it raises, and a
    label that is popped before the first decomposer runs raises with
    nothing done. *)
Lemma parse_company_first_missing (data : list (str * pyval)) (k : str)
    (c : context) (Q : context * outcome unit -> Prop) :
  find (missing data) labels = Some k ->
  In k (firstn 3 labels) \/ MdCompanies.company_key (row_of data) <> None ->
  (forall c' e,
     (In k (firstn 7 labels) -> c' = c /\ e = KeyError (VStr k)) ->
     Q (c', Raise e)) ->
  Q (parse_company data c).
Proof.
  intros Hfind Hkey HQ.
  pose proof (find_some _ _ Hfind) as [_ Hmiss]. unfold missing in Hmiss.
  unfold labels in Hfind. cbn [find] in Hfind. unfold missing in Hfind.
  unfold parse_company.
  destruct (dict_get IDNO data) as [v1|] eqn:H1;
    [|injection Hfind as <-; pop_fails H1; now apply HQ].
  destruct (dict_get DENUMIREA data) as [v2|] eqn:H2;
    [|injection Hfind as <-; pop_label H1; pop_fails H2; now apply HQ].
  destruct (dict_get ADRESA data) as [v3|] eqn:H3;
    [|injection Hfind as <-; pop_label H1; pop_label H2; pop_fails H3;
      now apply HQ].
  assert (Hk : MdCompanies.company_key (row_of data) <> None).
  { destruct Hkey as [Hin|Hk]; [exfalso|exact Hk].
    cbn [firstn labels In] in Hin.
    destruct Hin as [<-|[<-|[<-|[]]]].
    - rewrite H1 in Hmiss. discriminate.
    - rewrite H2 in Hmiss. discriminate.
    - rewrite H3 in Hmiss. discriminate. }
  clear Hkey Hmiss.
  unfold MdCompanies.company_key, row_of, field in Hk.
  cbn [MdCompanies.idno MdCompanies.name MdCompanies.address] in Hk.
  rewrite H1, H2, H3 in Hk.
  assert (Hlate : forall l,
            In l [LISTA_FONDATORILOR; LISTA_BENEFICIARILOR] ->
            ~ In l (firstn 7 labels)).
  { intros l [<-|[<-|[]]] Hin; cbn [firstn labels In] in Hin;
      repeat (destruct Hin as [Hin|Hin];
              [vm_compute in Hin; discriminate Hin|]);
      destruct Hin. }
  destruct (dict_get DATA_INREGISTRARII data) as [v4|] eqn:H4.
  2:{ injection Hfind as <-. pop_label H1. pop_label H2. pop_label H3.
      key_step v1 Hk; pop_fails H4; now apply HQ. }
  destruct (dict_get DATA_LICHIDARII data) as [v5|] eqn:H5.
  2:{ injection Hfind as <-. pop_label H1. pop_label H2. pop_label H3.
      key_step v1 Hk; pop_label H4; pop_fails H5; now apply HQ. }
  destruct (dict_get FORMA data) as [v6|] eqn:H6.
  2:{ injection Hfind as <-. pop_label H1. pop_label H2. pop_label H3.
      key_step v1 Hk; pop_label H4; pop_label H5; pop_fails H6; now apply HQ. }
  destruct (dict_get LISTA_CONDUCATORILOR data) as [v7|] eqn:H7.
  2:{ injection Hfind as <-. pop_label H1. pop_label H2. pop_label H3.
      key_step v1 Hk; pop_label H4; pop_label H5; pop_label H6; pop_fails H7;
        now apply HQ. }
  destruct (dict_get LISTA_FONDATORILOR data) as [v8|] eqn:H8.
  2:{ injection Hfind as <-. pop_label H1. pop_label H2. pop_label H3.
      key_step v1 Hk; pop_label H4; pop_label H5; pop_label H6; pop_label H7;
        unfold bind at 1;
        destruct (MdCompanies.parse_directors _ v7 c) as [c1 [[]|e]];
        try pop_fails H8; apply HQ; intros Hin; exfalso;
        apply (Hlate LISTA_FONDATORILOR); solve [now left|exact Hin]. }
  destruct (dict_get LISTA_BENEFICIARILOR data) as [v9|] eqn:H9;
    [discriminate Hfind|].
  injection Hfind as <-. pop_label H1. pop_label H2. pop_label H3.
  assert (Hno : ~ In LISTA_BENEFICIARILOR (firstn 7 labels)).
  { apply Hlate. right. now left. }
  key_step v1 Hk; pop_label H4; pop_label H5; pop_label H6; pop_label H7;
    unfold bind at 1;
    (destruct (MdCompanies.parse_directors _ v7 c) as [c1 [[]|e]];
     [|now apply HQ]);
    pop_label H8;
    unfold bind at 1;
    (destruct (MdCompanies.parse_founders _ v8 c1) as [c2 [[]|e]];
     [|now apply HQ]);
    pop_fails H9; now apply HQ.
Qed.

(** The rows above the header row are passed over. *)
Lemma parse_rows_before_header (pre rows : list (list pyval)) :
  Forall (fun cells => existsb is_label cells = false) pre ->
  forall idx c,
    parse_rows idx None (pre ++ rows) c
    = parse_rows (idx + N.of_nat (length pre)) None rows c.
Proof.
  induction 1 as [|cells pre Hc _ IH]; intros idx c.
  - cbn [app length N.of_nat]. now rewrite N.add_0_r.
  - cbn [app parse_rows]. rewrite Hc, IH. f_equal.
    cbn [length]. lia.
Qed.

End Sheet.
End MdSheetFacts.

(* ===================================================================== *)
(** * md_companies: the sheet, its header row and its columns *)
(* ===================================================================== *)

Section MdSheet.
Import MdWorkbook PyFacts DictFacts MdWorkbookFacts MdSheetFacts Samples
  Samples2.
Context {ext : Externals}.

(** On a dict that has the nine labels, [parse_company] as written, pop by
    pop, does what the function on the row of the nine values does: the
    dict is read but for these nine values, and in no other way. *)
Theorem parse_company_of_row (data : list (str * pyval)) (c : context) :
  Forall (fun k => dict_get k data <> None) labels ->
  parse_company data c = MdCompanies.parse_company (row_of data) c.
Proof.
  intros H. unfold labels in H.
  repeat match type of H with
         | Forall _ (_ :: _) =>
             let Hd := fresh "Hd" in
             apply Forall_cons_iff in H; destruct H as [Hd H]
         end.
  clear H. unfold row_of, field.
  destruct (dict_get IDNO data) as [v1|] eqn:H1; [|congruence].
  destruct (dict_get DENUMIREA data) as [v2|] eqn:H2; [|congruence].
  destruct (dict_get ADRESA data) as [v3|] eqn:H3; [|congruence].
  destruct (dict_get DATA_INREGISTRARII data) as [v4|] eqn:H4; [|congruence].
  destruct (dict_get DATA_LICHIDARII data) as [v5|] eqn:H5; [|congruence].
  destruct (dict_get FORMA data) as [v6|] eqn:H6; [|congruence].
  destruct (dict_get LISTA_CONDUCATORILOR data) as [v7|] eqn:H7;
    [|congruence].
  destruct (dict_get LISTA_FONDATORILOR data) as [v8|] eqn:H8; [|congruence].
  destruct (dict_get LISTA_BENEFICIARILOR data) as [v9|] eqn:H9;
    [|congruence].
  now apply parse_company_fields.
Qed.

(** When a label is missing, [parse_company] raises, unless it has returned
    before for want of a key: the company does not go out.  The [KeyError]
    names the first missing label, and when this label is popped before the
    first decomposer runs, nothing has gone out and nothing is logged. *)
Theorem parse_company_missing_label (data : list (str * pyval)) (k : str)
    (c : context) :
  find (missing data) labels = Some k ->
  In k (firstn 3 labels) \/ MdCompanies.company_key (row_of data) <> None ->
  exists c' e,
    parse_company data c = (c', Raise e)
    /\ (In k (firstn 7 labels) -> c' = c /\ e = KeyError (VStr k)).
Proof.
  intros Hfind Hkey.
  apply (parse_company_first_missing data k c
           (fun r => exists c' e,
              r = (c', Raise e)
              /\ (In k (firstn 7 labels) -> c' = c /\ e = KeyError (VStr k))));
    [assumption|assumption|].
  intros c' e H. now exists c', e.
Qed.

(** [parse_companies] reads nothing until a row has a cell that is the
    label of the name column, as it stands: the rows above it are passed
    over, and a sheet without such a row gives nothing, without a word in
    the log.  The label with a note in parentheses behind it does not
    count.  The headers are the cells of that row up to the first such
    note: each of the nine labels, with or without a note, is a header
    that [parse_company] finds. *)
Theorem header_row_found (pre rows : list (list pyval)) (h : list pyval)
    (c : context) :
  Forall (fun cells => existsb is_label cells = false) pre ->
  existsb is_label h = true ->
  parse_companies pre c = (c, Ok tt)
  /\ parse_companies (pre ++ h :: rows) c
     = parse_rows (N.of_nat (length pre) + 1) (Some (map header_of h)) rows c
  /\ (forall note, is_label (VStr (DENUMIREA ++ py " (" ++ note)) = false)
  /\ (forall k note,
        In k labels ->
        header_of (VStr k) = k
        /\ header_of (VStr (k ++ py " (" ++ note)) = k).
Proof.
  intros Hpre Hh. unfold parse_companies. repeat split.
  - rewrite <- (app_nil_r pre) at 1.
    now rewrite parse_rows_before_header.
  - rewrite parse_rows_before_header by assumption.
    cbn [parse_rows]. now rewrite Hh, N.add_0_l.
  - destruct H as [<-|H]; [reflexivity|].
    repeat (destruct H as [<-|H]; [reflexivity|]). destruct H.
  - destruct H as [<-|H]; [reflexivity|].
    repeat (destruct H as [<-|H]; [reflexivity|]). destruct H.
Qed.

End MdSheet.

Lemma parse_company_of_row_witness :
  MdWorkbook.row_of
    (dict_zip (map MdWorkbook.header_of Samples2.header_row)
       Samples2.data_row)
  = Samples.md_row
  /\ MdWorkbook.parse_company (ext := Plain.externals)
       (dict_zip (map MdWorkbook.header_of Samples2.header_row)
          Samples2.data_row) start
     = MdCompanies.parse_company (ext := Plain.externals) Samples.md_row start.
Proof.
  split; [reflexivity|].
  change Samples.md_row
    with (MdWorkbook.row_of
            (dict_zip (map MdWorkbook.header_of Samples2.header_row)
               Samples2.data_row)).
  apply (parse_company_of_row (ext := Plain.externals)).
  repeat constructor; discriminate.
Defined.

Lemma parse_company_missing_label_witness :
  find (MdWorkbook.missing [(MdWorkbook.IDNO, VInt 7)]) MdWorkbook.labels
  = Some MdWorkbook.DENUMIREA
  /\ exists c' e,
       MdWorkbook.parse_company (ext := Plain.externals)
         [(MdWorkbook.IDNO, VInt 7)] start = (c', Raise e)
       /\ (In MdWorkbook.DENUMIREA (firstn 7 MdWorkbook.labels) ->
           c' = start /\ e = KeyError (VStr MdWorkbook.DENUMIREA)).
Proof.
  split; [reflexivity|].
  apply (parse_company_missing_label (ext := Plain.externals)).
  - reflexivity.
  - left. right. now left.
Defined.

Lemma header_row_found_witness :
  existsb MdWorkbook.is_label Samples2.title_row = false
  /\ existsb MdWorkbook.is_label Samples2.header_row = true
  /\ MdWorkbook.parse_companies (ext := Plain.externals)
       [Samples2.title_row] start = (start, Ok tt)
  /\ MdWorkbook.parse_companies (ext := Plain.externals)
       ([Samples2.title_row] ++ Samples2.header_row :: [Samples2.data_row])
       start
     = MdWorkbook.parse_rows (ext := Plain.externals) (N.of_nat 1 + 1)
         (Some (map MdWorkbook.header_of Samples2.header_row))
         [Samples2.data_row] start.
Proof.
  split; [reflexivity|]. split; [reflexivity|].
  destruct (header_row_found (ext := Plain.externals) [Samples2.title_row]
              [Samples2.data_row] Samples2.header_row start)
    as (H1 & H2 & _).
  - repeat constructor.
  - reflexivity.
  - split; [exact H1|exact H2].
Defined.

(* ===================================================================== *)
(** * md_companies: fragments, warnings and short rows *)
(* ===================================================================== *)

Module MdMoreFacts.
Import MdCompanies MdOwners PyFacts CtxFacts MdFacts DictFacts.

Lemma split_fuel_not_nil (n : nat) (sep s : str) : split_fuel n sep s <> [].
Proof.
  destruct n; cbn [split_fuel]; [discriminate|].
  destruct (partition sep s) as [[a rest]|]; discriminate.
Qed.

Lemma founder_records_length (founders : str) :
  length (founder_records founders) = length (split (py "),") founders).
Proof.
  unfold founder_records.
  induction (split (py "),") founders) as [|f fs IH]; [reflexivity|].
  cbn [flat_map]. destruct (founder_fields_total f) as (r & ->).
  cbn [app length]. now rewrite IH.
Qed.

Lemma pairs_length {R} (mk : R -> list entity) (recs : list R) :
  (forall r, length (mk r) = 2) ->
  length (flat_map mk recs) = 2 * length recs.
Proof.
  intros H. induction recs as [|r recs IH]; [reflexivity|].
  cbn [flat_map length]. rewrite length_app, H, IH. lia.
Qed.

(** A loop whose body emits and logs, and does nothing else. *)
Lemma for_each_emits_and_logs {A} (f : A -> list entity)
    (g : A -> list log_entry) (body : A -> M unit) (xs : list A) :
  (forall x c, body x c = (log_all (g x) (emit_all (f x) c), Ok tt)) ->
  forall c,
    for_each xs body c
    = (log_all (flat_map g xs) (emit_all (flat_map f xs) c), Ok tt).
Proof.
  intros Hbody. induction xs as [|x xs IH]; intros c; cbn [for_each flat_map].
  - unfold ret, log_all, emit_all. cbn [emitted logged memo].
    rewrite !app_nil_r. now destruct c.
  - unfold bind. rewrite Hbody, IH.
    unfold log_all, emit_all. cbn [emitted logged memo].
    now rewrite !app_assoc.
Qed.

Lemma dict_get_set_none {V} (k k0 : str) (v : V) (d : list (str * V)) :
  dict_get k (dict_set k0 v d) = None <-> dict_get k d = None /\ k <> k0.
Proof.
  destruct (str_eqb k k0) eqn:E.
  - apply str_eqb_eq in E. subst k0. rewrite dict_get_set_same.
    split; [discriminate|]. now intros [_ H].
  - rewrite dict_get_set_other by assumption.
    apply str_eqb_neq in E. tauto.
Qed.

Lemma dict_get_fold_none {V} (k : str) (l : list (str * V)) :
  forall acc,
    dict_get k (fold_left (fun d kv => dict_set (fst kv) (snd kv) d) l acc)
    = None
    <-> dict_get k acc = None /\ ~ In k (map fst l).
Proof.
  induction l as [|[k0 v0] l IH]; intros acc; cbn [fold_left map In fst snd].
  - tauto.
  - rewrite IH, dict_get_set_none. intuition congruence.
Qed.

Lemma fst_combine {A B} (xs : list A) (ys : list B) :
  map fst (combine xs ys) = firstn (length ys) xs.
Proof.
  revert ys. induction xs as [|x xs IH]; intros [|y ys]; cbn; try reflexivity.
  now rewrite IH.
Qed.

End MdMoreFacts.

Section MdMoreClaims.
Import MdCompanies MdWorkbook MdOwners PyFacts CtxFacts MdFacts DictFacts
  MdMoreFacts.
Context {ext : Externals}.

(** [parse_founders] and [parse_owners] drop no fragment: a field that is
    a string gives one sub-record for each piece between the separators,
    so at least one, also for the empty string, and two entities go out
    for each. *)
Theorem founders_drop_nothing (company : entity) (field : str)
    (c : context) :
  length (founder_records field) = length (split (py "),") field)
  /\ founder_records field <> []
  /\ length (emitted (fst (parse_founders company (VStr field) c)))
     = length (emitted c) + 2 * length (split (py "),") field)
  /\ length (emitted (fst (parse_owners company (VStr field) c)))
     = length (emitted c) + 2 * length (split (py "),") field).
Proof.
  pose proof (founder_records_length field) as Hlen.
  split; [exact Hlen|]. split; [|split].
  - intros E. rewrite E in Hlen. cbn [length] in Hlen.
    symmetry in Hlen. apply length_zero_iff_nil in Hlen.
    now apply (split_fuel_not_nil _ _ _ Hlen).
  - rewrite parse_founders_run. cbn [fst emit_all emitted].
    rewrite length_app, pairs_length by reflexivity. now rewrite Hlen.
  - destruct (parse_owners_run company field c) as [-> _].
    rewrite length_app, pairs_length by reflexivity. now rewrite Hlen.
Qed.

(** [parse_owners] on a string returns, never raises, and what it logs is
    one warning for each sub-record whose tag is not a country that
    followthemoney knows, in order; the owner of such a sub-record, and
    its Ownership, go out like the others. *)
Theorem owners_warnings (company : entity) (owners : str) (c : context) :
  parse_owners company (VStr owners) c
  = (log_all (flat_map country_warning (founder_records owners))
       (emit_all (flat_map (owner_pair company) (founder_records owners)) c),
     Ok tt).
Proof.
  unfold parse_owners, founder_records.
  rewrite !flat_map_flat_map.
  apply for_each_emits_and_logs. intros f c0.
  destruct (founder_fields_total f) as ([owner country] & ->).
  unfold bind, lift. cbv beta iota. cbn [flat_map]. rewrite !app_nil_r.
  unfold country_warning, owner_pair. cbn [fst snd].
  destruct country as [t|].
  - destruct (country_known t).
    + unfold ret. cbv beta iota. rewrite emit_run. cbv beta iota.
      rewrite emit_run. rewrite <- emit_all_app.
      unfold log_all, emit_all. cbn [emitted logged memo app].
      now rewrite app_nil_r.
    + unfold log, emit, log_all, emit_all. cbn [emitted logged memo app].
      now rewrite <- app_assoc.
  - unfold ret. cbv beta iota. rewrite emit_run. cbv beta iota.
    rewrite emit_run. rewrite <- emit_all_app.
    unfold log_all, emit_all. cbn [emitted logged memo app].
    now rewrite app_nil_r.
Qed.

(** The dict of a row has a header as a key exactly when the header stands
    among the first headers, as many as the row has cells: the columns
    beyond the last cell of a short row are missing.  A row without a cell
    has no key at all, and [parse_company] raises on its first pop. *)
Theorem short_row_lacks_columns (headers : list str) (cells : list pyval)
    (k : str) (c : context) :
  (dict_get k (dict_zip headers cells) = None
   <-> ~ In k (firstn (length cells) headers))
  /\ MdWorkbook.parse_company (dict_zip headers []) c
     = (c, Raise (KeyError (VStr IDNO))).
Proof.
  split.
  - unfold dict_zip. rewrite dict_get_fold_none, fst_combine.
    cbn [dict_get]. tauto.
  - assert (E : dict_zip headers (@nil pyval) = []).
    { unfold dict_zip. now destruct headers. }
    rewrite E. reflexivity.
Qed.

End MdMoreClaims.

(* ===================================================================== *)
(** * de_offeneregister: more on relationships, the log and the patterns *)
(* ===================================================================== *)

Module DeMoreFacts.
Import Re DeOffeneregister DeMore PyFacts CtxFacts ReFacts DeFacts.

Section Officers.
Context {ext : Externals}.

(** A property that names an end of a relationship is not one the loop
    over "other_attributes" writes. *)
Lemma added_mapped (prop : string) (items : list (str * pyval)) (p : entity) :
  is_end prop = true -> added prop (add_mapped items p) = added prop p.
Proof.
  intros Hend. revert p.
  induction items as [|[key value] items IH]; intros p; cbn [add_mapped];
    [reflexivity|].
  rewrite IH. destruct (dict_get key MAPPING) as [q|] eqn:E; [|reflexivity].
  apply mapping_not_end in E.
  unfold added, add. cbn [props]. rewrite filter_app, map_app.
  cbn [filter fst]. destruct (String.eqb_spec q prop) as [->|_].
  - congruence.
  - cbn [map]. now rewrite app_nil_r.
Qed.

Lemma schema_mapped (items : list (str * pyval)) (p : entity) :
  schema (add_mapped items p) = schema p.
Proof. now destruct (add_mapped_same items p). Qed.

(** The relationship of a known role, with its schema. *)
Lemma make_rel_schema (company officer_proxy : entity) (data : officer)
    (summary : option str) (c : context) (sch : string) :
  dict_lookup (o_position data) REL_SCHEMS = Some sch ->
  exists rel,
    make_rel company officer_proxy data summary c = (emit_all [rel] c, Ok tt)
    /\ schema rel = rel_schema (schema company) (o_position data)
    /\ is_relationship rel = true
    /\ (if String.eqb (schema rel) "Ownership"
        then added "owner" rel = [ref officer_proxy]
             /\ added "asset" rel = [ref company]
        else added "director" rel = [ref officer_proxy]
             /\ added "organization" rel = [ref company]).
Proof.
  intros H. unfold make_rel, rel_schema. rewrite H.
  eexists. split; [reflexivity|].
  rewrite !added_mapped by reflexivity.
  unfold is_relationship. rewrite !schema_mapped.
  destruct (String.eqb_spec sch "Ownership") as [->|Hs];
    [destruct (is_a_Asset (schema company))|]; cbn [andb];
    cbv; repeat split.
Qed.

(** One officer with a known role: the relationship, then the officer. *)
Lemma make_officer_and_rel_schema (company : entity) (data : officer)
    (c : context) (sch : string) :
  memo_wf c -> dict_lookup (o_position data) REL_SCHEMS = Some sch ->
  exists c1 e rel,
    make_officer_and_rel company data c = (emit_all [rel; e] c1, Ok tt)
    /\ memo_wf c1 /\ emitted c1 = emitted c
    /\ is_relationship e = false
    /\ is_relationship rel = true
    /\ schema rel = rel_schema (schema company) (o_position data).
Proof.
  intros Hwf Hrole.
  destruct (make_officer_wf company data c Hwf)
    as (c1 & e & s & Ho & Hwf1 & Hem & Hrel & _).
  destruct (make_rel_schema company e data s c1 sch Hrole)
    as (rel & Hr & Hs & Hisrel & _).
  exists c1, e, rel. repeat split; try assumption.
  unfold make_officer_and_rel, bind. rewrite Ho. cbn [fst snd].
  rewrite Hr. unfold emit, emit_all. cbn [emitted logged memo].
  now rewrite <- app_assoc.
Qed.

Lemma officers_schemas (company : entity) (os : list officer) (c : context) :
  memo_wf c ->
  Forall (fun o => dict_lookup (o_position o) REL_SCHEMS <> None) os ->
  exists es c',
    for_each os (make_officer_and_rel company) c = (c', Ok tt)
    /\ emitted c' = emitted c ++ es
    /\ map schema (filter is_relationship es)
       = map (fun o => rel_schema (schema company) (o_position o)) os.
Proof.
  revert c. induction os as [|o os IH]; intros c Hwf Hos.
  - exists [], c. repeat split. cbn. now rewrite app_nil_r.
  - inversion Hos as [|? ? Ho Hos']; subst.
    destruct (dict_lookup (o_position o) REL_SCHEMS) as [sch|] eqn:R;
      [|contradiction].
    destruct (make_officer_and_rel_schema company o c sch Hwf R)
      as (c1 & e & rel & Hrun & Hwf1 & Hem & He & Hrel & Hs).
    assert (Hwf2 : memo_wf (emit_all [rel; e] c1))
      by now apply (memo_wf_same c1).
    destruct (IH _ Hwf2 Hos') as (es & c' & Hrest & Hem' & Hsch).
    exists (rel :: e :: es), c'. repeat split.
    + cbn [for_each]. unfold bind. now rewrite Hrun.
    + rewrite Hem'. cbn [emit_all emitted]. rewrite Hem.
      now rewrite <- app_assoc.
    + cbn [filter]. rewrite Hrel, He. cbn [map]. now rewrite Hs, Hsch.
Qed.

Lemma make_company_schema (r : record) (c : context) (sch : string)
    (form : str) :
  dict_lookup (register_art r) SCHEMES = Some (sch, form) ->
  exists company,
    make_company r c = (emit_all [company] c, Ok company)
    /\ schema company = sch.
Proof.
  intros H. unfold make_company. rewrite H.
  eexists. split; [reflexivity|].
  cbn [schema add set_id]. rewrite previous_names_schema. reflexivity.
Qed.

(** The last line of the log of a run that came to its end. *)
Lemma parse_from_last_entry (records : list record) :
  forall ix c c',
    parse_from ix records c = (c', Ok tt) ->
    (ix + N.of_nat (length records) <> 0)%N ->
    exists before,
      logged c'
      = before ++ [parsed_entry (ix + N.of_nat (length records))].
Proof.
  induction records as [|r records IH]; intros ix c c' Hrun Hpos;
    cbn [parse_from] in Hrun.
  - cbn [length N.of_nat] in *. rewrite N.add_0_r in *.
    destruct (N.eqb_spec ix 0) as [->|_]; [now contradict Hpos|].
    injection Hrun as <-. now exists (logged c).
  - unfold bind in Hrun.
    destruct (parse_record r c) as [c1 [[]|e]]; [|discriminate].
    match type of Hrun with
    | context [if ?b then _ else _] => destruct b
    end.
    + cbn [log] in Hrun. apply IH in Hrun; [|lia].
      destruct Hrun as (before & ->). exists before.
      do 3 f_equal. cbn [length]. lia.
    + cbn [ret] in Hrun. apply IH in Hrun; [|lia].
      destruct Hrun as (before & ->). exists before.
      do 3 f_equal. cbn [length]. lia.
Qed.

End Officers.

Section Patterns.
Context {ext : Externals}.

Lemma rounds_none_on (Q : str -> Prop)
    (step : str -> captures -> cont -> option captures) (k : cont) :
  (forall s g k',
     Q s -> (forall s' g', Q s' -> k' s' g' = None) -> step s g k' = None) ->
  (forall s g, Q s -> k s g = None) ->
  forall n s g, Q s -> rounds step k n s g = None.
Proof.
  intros Hstep Hk. induction n as [|n IH]; intros s g Hs; cbn [rounds].
  - now apply Hk.
  - rewrite Hstep; [now apply Hk|assumption|].
    intros s' g' Hs'. destruct (length s' <? length s); [now apply IH|easy].
Qed.

(** What follows a pattern is called on what is left of the text: when it
    fails on every text of a kind that the rest of a text of this kind is
    of, the pattern fails on the texts of this kind. *)
Lemma run_none_on (Q : str -> Prop) :
  (forall c s, Q (c :: s) -> Q s) ->
  forall (r : regex) s g (k : cont),
    Q s -> (forall s' g', Q s' -> k s' g' = None) -> run r s g k = None.
Proof.
  intros Htl.
  induction r as [|p| |items|a IHa b IHb|a IHa b IHb|a IHa|name a IHa];
    intros s g k Hs Hk; cbn [run].
  - now apply Hk.
  - destruct s as [|c s]; [reflexivity|].
    destruct (same_letter p c); [|reflexivity]. apply Hk. now apply (Htl c).
  - destruct s as [|c s]; [reflexivity|].
    destruct (c =? 10)%N; [reflexivity|]. apply Hk. now apply (Htl c).
  - destruct s as [|c s]; [reflexivity|].
    destruct (existsb _ items); [|reflexivity]. apply Hk. now apply (Htl c).
  - apply IHa; [assumption|]. intros s' g' Hs'. now apply IHb.
  - rewrite IHa by assumption. now apply IHb.
  - now apply rounds_none_on with (Q := Q).
  - apply IHa; [assumption|]. intros s' g' Hs'. now apply Hk.
Qed.

(** A pattern that cannot do without the literal [p] matches no text in
    which no character is taken for [p]. *)
Lemma requires_none (p : char) (r : regex) :
  requires p r = true ->
  forall s g (k : cont),
    (forall c, In c s -> same_letter p c = false) -> run r s g k = None.
Proof.
  induction r as [|q| |items|a IHa b IHb|a IHa b IHb|a IHa|name a IHa];
    cbn [requires]; try discriminate; intros Hreq s g k Hs; cbn [run].
  - apply N.eqb_eq in Hreq. subst q.
    destruct s as [|c s]; [reflexivity|].
    rewrite Hs; [reflexivity|now left].
  - apply orb_true_iff in Hreq. destruct Hreq as [Ha|Hb].
    + now apply IHa.
    + apply (run_none_on (fun s => forall c, In c s -> same_letter p c = false)).
      * intros c s0 H x Hx. apply H. now right.
      * assumption.
      * intros s' g' Hs'. now apply IHb.
  - apply andb_true_iff in Hreq. destruct Hreq as [Ha Hb].
    rewrite IHa by assumption. now apply IHb.
  - now apply IHa.
Qed.

End Patterns.
End DeMoreFacts.

Section DeMoreClaims.
Import Re DeOffeneregister DeMore PyFacts CtxFacts DeFacts DeMoreFacts Samples.
Context {ext : Externals}.

(** [make_rel] makes an Ownership only when REL_SCHEMS gives Ownership for
    the role and the company is a Company; every other relationship is a
    Directorship.  For a record whose register and roles are known, the
    relationships that go out have, officer by officer, the schema that
    this rule gives; in a record of the registers VR, PR and GnR, which
    make an Organization, no Ownership goes out at all, whatever the
    roles. *)
Theorem ownership_needs_a_company (r : record) (c : context) (sch : string)
    (form : str) :
  memo_wf c ->
  dict_lookup (register_art r) SCHEMES = Some (sch, form) ->
  Forall (fun o => dict_lookup (o_position o) REL_SCHEMS <> None)
    (officers r) ->
  exists es,
    emitted (fst (parse_record r c)) = emitted c ++ es
    /\ map schema (filter is_relationship es)
       = map (fun o => rel_schema sch (o_position o)) (officers r)
    /\ (sch = "Organization"%string ->
        Forall (fun e => schema e <> "Ownership"%string) es).
Proof.
  intros Hwf Hreg Hos.
  destruct (make_company_schema r c sch form Hreg) as (company & Hc & Hsch).
  assert (Hnot : is_relationship company = false).
  { unfold is_relationship. rewrite Hsch.
    destruct (schemes_cases _ _ _ Hreg) as [-> | ->]; reflexivity. }
  assert (Hwf1 : memo_wf (emit_all [company] c))
    by now apply (memo_wf_same c).
  destruct (officers_schemas company (officers r) _ Hwf1 Hos)
    as (es & c' & Hrun & Hem & Hs).
  rewrite Hsch in Hs.
  assert (Hfilter : map schema (filter is_relationship (company :: es))
                    = map (fun o => rel_schema sch (o_position o))
                        (officers r)).
  { cbn [filter]. now rewrite Hnot. }
  exists (company :: es). split; [|split].
  - unfold parse_record, bind. rewrite Hc, Hrun. cbn [fst].
    rewrite Hem. cbn [emit_all emitted]. now rewrite <- app_assoc.
  - exact Hfilter.
  - intros ->. apply Forall_forall. intros e He Hown.
    assert (Hin : In (schema e) (map schema (filter is_relationship
                                               (company :: es)))).
    { apply in_map. apply filter_In. split; [assumption|].
      unfold is_relationship. now rewrite Hown. }
    rewrite Hfilter in Hin. apply in_map_iff in Hin.
    destruct Hin as (o & Ho & _). rewrite Hown in Ho.
    unfold rel_schema in Ho.
    destruct (dict_lookup (o_position o) REL_SCHEMS) as [s|];
      [|discriminate].
    rewrite andb_false_r in Ho. discriminate.
Qed.

(** A run of [parse] that came to its end over at least one record closes
    its log with the number of records plus one: the count is bumped after
    each record and once more in the last message.  Over no record at all
    nothing is logged. *)
Theorem parse_reports_one_too_many (records : list record)
    (c : context) :
  records <> [] ->
  snd (parse records c) = Ok tt ->
  (exists before,
     logged (fst (parse records c))
     = before ++ [{| lvl := Info; msg := "Parsed %d records.";
                     args := [VInt (Z.of_nat (length records) + 1)] |}])
  /\ parse [] c = (c, Ok tt).
Proof.
  intros Hne Hok. split; [|reflexivity].
  unfold parse in *.
  destruct (parse_from 0 records c) as [c' [[]|e]] eqn:Hrun;
    [|discriminate].
  destruct (parse_from_last_entry records 0 c c' Hrun) as (before & Hlog).
  - destruct records; [contradiction|cbn [length]; lia].
  - exists before. cbn [fst]. rewrite Hlog. unfold parsed_entry.
    replace (Z.of_N (0 + N.of_nat (length records) + 1))
      with (Z.of_nat (length records) + 1)%Z by lia.
    reflexivity.
Qed.

(** Both patterns of RE_PATTERNS need an opening parenthesis: a name in
    which no character is one, also under IGNORECASE, is matched by none
    of them, and the officer is built from the whole text.  A character of
    the ASCII range is taken for the parenthesis only when it is one. *)
Theorem name_without_parenthesis (name : str) :
  Forall (fun x => x <> ch "("
                   /\ ((128 <= x)%N -> uni_ignorecase (ch "(") x = false))
    name ->
  first_match RE_PATTERNS name = None.
Proof.
  intros H.
  assert (Hs : forall x, In x name -> same_letter (ch "(") x = false).
  { intros x Hx. rewrite Forall_forall in H. destruct (H x Hx) as [Hne Hu].
    unfold same_letter. destruct (N.ltb_spec x 128) as [Hlt|Hge].
    - apply N.eqb_neq. intros E. apply Hne. unfold lower_char in E.
      change (ch "(") with 40%N in *.
      destruct ((65 <=? x) && (x <=? 90))%N eqn:B; cbn in E; [|exact E].
      apply andb_true_iff in B. destruct B as [B _].
      apply N.leb_le in B. lia.
    - now apply Hu. }
  unfold RE_PATTERNS. cbn [first_match]. unfold match_groupdict.
  rewrite (requires_none (ch "(") pattern_with_city) by (reflexivity || exact Hs).
  rewrite (requires_none (ch "(") pattern_without_city)
    by (reflexivity || exact Hs).
  reflexivity.
Qed.

End DeMoreClaims.

Lemma ownership_needs_a_company_witness :
  DeOffeneregister.memo_wf (ext := Plain.externals) start
  /\ exists es,
       emitted (fst (DeOffeneregister.parse_record (ext := Plain.externals)
                       (Samples.de_record "VR" "Hamburg VR 1"
                          [Samples.officer_of "person" "Erika Mustermann"
                             "Inhaber"]) start))
       = emitted start ++ es
       /\ map schema (filter is_relationship es) = ["Directorship"%string]
       /\ ("Organization"%string = "Organization"%string ->
           Forall (fun e => schema e <> "Ownership"%string) es).
Proof.
  split; [apply DeFacts.memo_wf_start|].
  apply (ownership_needs_a_company (ext := Plain.externals)
           (Samples.de_record "VR" "Hamburg VR 1"
              [Samples.officer_of "person" "Erika Mustermann" "Inhaber"])
           start "Organization" (py "Verein")).
  - apply DeFacts.memo_wf_start.
  - reflexivity.
  - repeat constructor; discriminate.
Defined.

Lemma parse_reports_one_too_many_witness :
  snd (DeOffeneregister.parse (ext := Plain.externals)
         [Samples.de_record "HRB" "Hamburg HRB 1" []] start) = Ok tt
  /\ exists before,
       logged (fst (DeOffeneregister.parse (ext := Plain.externals)
                      [Samples.de_record "HRB" "Hamburg HRB 1" []] start))
       = before ++ [{| lvl := Info; msg := "Parsed %d records.";
                       args := [VInt 2] |}].
Proof.
  split; [reflexivity|].
  apply (parse_reports_one_too_many (ext := Plain.externals)
           [Samples.de_record "HRB" "Hamburg HRB 1" []] start).
  - discriminate.
  - reflexivity.
Defined.

Lemma name_without_parenthesis_witness :
  DeOffeneregister.first_match (ext := Plain.externals)
    DeOffeneregister.RE_PATTERNS (py "Hausverwaltung Nord GmbH, Kiel") = None.
Proof.
  apply (name_without_parenthesis (ext := Plain.externals)).
  repeat constructor; try discriminate; intros H; reflexivity.
Defined.

(* ===================================================================== *)
(** * cy_companies: the rows that go through, and the addresses *)
(* ===================================================================== *)

Module CyMoreFacts.
Import CyCompanies CyArchive PyFacts CtxFacts CyFacts DictFacts.




(** A type that passes the test of [parse_officials] is a key of TYPES. *)
Lemma in_types_get (t : str) :
  in_types t = true -> exists oc, dict_get t TYPES = Some oc.
Proof.
  unfold in_types, TYPES. cbn [map fst existsb dict_get].
  repeat match goal with
         | |- context [str_eqb t ?k] =>
             destruct (str_eqb t k); [intros _; eexists; reflexivity|]
         end.
  discriminate.
Qed.

Lemma not_in_types (t : str) :
  in_types t = false -> dict_get t TYPES = None.
Proof.
  unfold in_types, TYPES. cbn [map fst existsb dict_get].
  repeat match goal with
         | |- context [str_eqb t ?k] =>
             destruct (str_eqb t k); [discriminate|]
         end.
  reflexivity.
Qed.

(** [audit_data] may log, and does nothing else. *)
Lemma audit_data_run (left : list (str * pyval)) (ignore : list str)
    (c : context) :
  emitted (fst (audit_data left ignore c)) = emitted c
  /\ snd (audit_data left ignore c) = Ok tt.
Proof.
  unfold audit_data. destruct (filter _ left); now split.
Qed.

Section Rows.
Context {ext : Externals}.

Lemma parse_organisation_passed_over (addresses : list (str * str))
    (row : organisation) (c : context) :
  passed_over row = true -> parse_organisation addresses row c = (c, Ok tt).
Proof.
  unfold passed_over, parse_organisation. now intros ->.
Qed.

(** A row of a known type whose dates parse: one Company goes out. *)
Lemma parse_organisation_run (addresses : list (str * str))
    (row : organisation) (c : context) (oc : str) (d1 d2 : option date) :
  dict_get (ORGANISATION_TYPE_CODE row) TYPES = Some oc ->
  parse_date (REGISTRATION_DATE row) = Ok d1 ->
  parse_date (ORGANISATION_STATUS_DATE row) = Ok d2 ->
  exists e c',
    parse_organisation addresses row c = (c', Ok tt)
    /\ emitted c' = emitted c ++ [e]
    /\ schema e = "Company"%string
    /\ id e = Some (lower (py "oc-companies-cy-" ++ oc ++ REGISTRATION_NO row))
    /\ added "address" e
       = [of_opt (dict_get (ADDRESS_SEQ_NO row) addresses)]
    /\ added "incorporationDate" e = [date_value d1]
    /\ added "modifiedAt" e = [date_value d2].
Proof.
  intros Ht Hd1 Hd2. unfold parse_organisation.
  rewrite (not_skipped _ _ Ht). unfold company_id. rewrite Ht, Hd1, Hd2.
  unfold bind, lift, ret, emit. cbv beta iota.
  match goal with
  | |- context [audit_data ?l ?i ?c1] =>
      destruct (audit_data_run l i c1) as [Hem Hok];
      destruct (audit_data l i c1) as [c' o]
  end.
  cbn [fst snd] in Hem, Hok. subst o.
  eexists. exists c'. split; [reflexivity|]. split; [exact Hem|].
  destruct (str_eqb (ORGANISATION_TYPE_CODE row) (py "O"));
    repeat split.
Qed.

Lemma parse_official_run (row : official) (c : context) :
  exists es,
    parse_official row c = (emit_all es c, Ok tt)
    /\ map schema es
       = (if in_types (official_type_code row)
          then ["LegalEntity"; "Directorship"]%string else [])
    /\ Forall (fun e =>
         schema e = "Directorship"%string ->
         exists cid,
           company_id (official_type_code row) (official_registration_no row)
           = Ok cid
           /\ added "organization" e = [VStr cid]
           /\ added "role" e = [VStr (OFFICIAL_POSITION row)]) es.
Proof.
  unfold parse_official.
  change (existsb (str_eqb (official_type_code row)) (map fst TYPES))
    with (in_types (official_type_code row)).
  destruct (in_types (official_type_code row)) eqn:T; cbn [negb].
  - destruct (in_types_get _ T) as (oc & Hoc).
    unfold company_id. rewrite Hoc.
    eexists. split; [|split].
    + unfold bind, lift. cbv beta iota. rewrite emit_run.
      cbv beta iota. rewrite emit_run. rewrite <- emit_all_app.
      reflexivity.
    + reflexivity.
    + repeat constructor; [discriminate|].
      intros _. eexists. repeat split.
  - exists []. split; [|split].
    + now rewrite emit_all_nil.
    + reflexivity.
    + constructor.
Qed.

End Rows.
End CyMoreFacts.

Section CyMoreClaims.
Import CyCompanies CyArchive PyFacts CtxFacts CyFacts DictFacts CyMoreFacts.


Section WithLibraries.
Context {ext : Externals} {norm : Normality}.

(** What [load_addresses] returns holds, for each number, the address of
    the last row with this number that has an address after the cleaning:
    a row without a number, or whose address comes to nothing, changes
    nothing, and a later row replaces an earlier one. *)
Theorem load_addresses_lookup (rows : list office) (k : str) :
  dict_get k (load_addresses rows) = last_address k rows.
Proof.
  unfold load_addresses, last_address.
  assert (H : forall (acc : list (str * str)) (found : option str),
            dict_get k acc = found ->
            dict_get k
              (fold_left (fun addresses row =>
                 match office_seq_no row with
                 | None => addresses
                 | Some seq_no =>
                     match office_address row with
                     | Some address => dict_set seq_no address addresses
                     | None => addresses
                     end
                 end) rows acc)
            = fold_left (fun found row =>
                match office_seq_no row with
                | None => found
                | Some k' =>
                    if str_eqb k k' then
                      match office_address row with
                      | Some address => Some address
                      | None => found
                      end
                    else found
                end) rows found).
  { induction rows as [|row rows IH]; intros acc found Hacc; cbn [fold_left];
      [exact Hacc|].
    apply IH.
    destruct (office_seq_no row) as [seq|]; [|exact Hacc].
    destruct (office_address row) as [a|];
      [|now destruct (str_eqb k seq)].
    destruct (str_eqb k seq) eqn:E.
    - apply str_eqb_eq in E. subst seq. apply dict_get_set_same.
    - now rewrite dict_get_set_other. }
  now apply H.
Qed.

(** The addresses that [parse] hands to [parse_organisations] are those of
    the last member of the archive whose name starts with
    "registered_office_", whatever stands before it, and wherever the
    members with the organisations stand; an archive without such a member
    gives no address: the second loop of [parse] runs over all the
    members with this one table.  No name sends a member to both
    [parse_organisations] and [parse_officials]. *)
Theorem archive_addresses_last (before after : list member) (m : member) :
  startswith (py "registered_office_") (member_name m) = true ->
  Forall (fun m' =>
    startswith (py "registered_office_") (member_name m') = false) after ->
  archive_addresses (before ++ m :: after) = load_addresses (office_rows m)
  /\ (forall data_path c,
        parse data_path (before ++ m :: after) c
        = for_each (before ++ m :: after)
            (read_member data_path (load_addresses (office_rows m))) c)
  /\ archive_addresses after = []
  /\ (forall name,
        startswith (py "organisations_") name = true ->
        startswith (py "organisation_officials_") name = false).
Proof.
  intros Hm Hafter.
  assert (Hskip : forall acc,
            fold_left (fun addresses m' =>
              if startswith (py "registered_office_") (member_name m')
              then load_addresses (office_rows m') else addresses) after acc
            = acc).
  { induction Hafter as [|m' after Hm' _ IH]; intros acc; cbn [fold_left];
      [reflexivity|].
    now rewrite Hm', IH. }
  assert (E : archive_addresses (before ++ m :: after)
              = load_addresses (office_rows m)).
  { unfold archive_addresses. rewrite fold_left_app. cbn [fold_left].
    now rewrite Hm, Hskip. }
  split; [exact E|]. split; [|split].
  - intros data_path c. unfold parse. now rewrite E.
  - apply Hskip.
  - intros name H. unfold startswith in H.
    destruct (after_prefix (py "organisations_") name) as [rest|] eqn:P;
      [|discriminate].
    apply after_prefix_app in P. subst name. reflexivity.
Qed.

(** Over rows that are passed over, or whose type is a key of TYPES and
    whose two dates parse, [parse_organisations] returns, and what went out
    is one Company for each row that is not passed over, in the order of
    the rows, with the id that [company_id] gives and with the address
    that the table has under the row's address number, if any. *)
Theorem parse_organisations_emits (rows : list organisation)
    (addresses : list (str * str)) (c : context) :
  Forall (fun row =>
    passed_over row = true
    \/ (dict_get (ORGANISATION_TYPE_CODE row) TYPES <> None
        /\ parses (REGISTRATION_DATE row) = true
        /\ parses (ORGANISATION_STATUS_DATE row) = true)) rows ->
  exists es c',
    parse_organisations rows addresses c = (c', Ok tt)
    /\ emitted c' = emitted c ++ es
    /\ map (fun e => (schema e, id e, added "address" e)) es
       = map (fun row =>
           ("Company"%string,
            match company_id (ORGANISATION_TYPE_CODE row)
                    (REGISTRATION_NO row) with
            | Ok i => Some i
            | Raise _ => None
            end,
            [of_opt (dict_get (ADDRESS_SEQ_NO row) addresses)]))
           (filter (fun row => negb (passed_over row)) rows).
Proof.
  intros H. revert c. unfold parse_organisations.
  induction H as [|row rows Hrow _ IH]; intros c.
  - exists [], c. repeat split. cbn. now rewrite app_nil_r.
  - cbn [for_each filter]. unfold bind.
    destruct (passed_over row) eqn:P.
    + rewrite parse_organisation_passed_over by assumption.
      cbn [negb]. apply IH.
    + destruct Hrow as [Hrow|(Ht & Hd1 & Hd2)]; [discriminate|].
      destruct (dict_get (ORGANISATION_TYPE_CODE row) TYPES) as [oc|] eqn:T;
        [|contradiction].
      unfold parses in Hd1, Hd2.
      destruct (parse_date (REGISTRATION_DATE row)) as [d1|] eqn:D1;
        [|discriminate].
      destruct (parse_date (ORGANISATION_STATUS_DATE row)) as [d2|] eqn:D2;
        [|discriminate].
      destruct (parse_organisation_run addresses row c oc d1 d2 T D1 D2)
        as (e & c1 & -> & Hem & Hs & Hi & Ha & _).
      destruct (IH c1) as (es & c' & -> & Hem' & Hmap).
      exists (e :: es), c'. split; [reflexivity|]. split.
      * rewrite Hem', Hem. now rewrite <- app_assoc.
      * cbn [negb map]. rewrite Hmap, Hs, Hi, Ha.
        unfold company_id. now rewrite T.
Qed.

(** [parse_officials] never raises and never logs: a row whose type is not
    a key of TYPES is passed over without a word, and every other row
    gives a LegalEntity and then a Directorship whose organization is the
    id that [company_id] gives.  [parse_organisations] has no such test: a
    row whose type is neither a key of TYPES nor one of the two it passes
    over raises [KeyError] with nothing gone out, and ends the loop. *)
Theorem parse_officials_never_raises (rows : list official)
    (c : context) :
  (exists es,
     parse_officials rows c = (emit_all es c, Ok tt)
     /\ map schema es
        = flat_map (fun row =>
            if in_types (official_type_code row)
            then ["LegalEntity"; "Directorship"]%string else []) rows
     /\ Forall (fun e =>
          schema e = "Directorship"%string ->
          exists row cid,
            In row rows
            /\ company_id (official_type_code row)
                 (official_registration_no row) = Ok cid
            /\ added "organization" e = [VStr cid]
            /\ added "role" e = [VStr (OFFICIAL_POSITION row)]) es)
  /\ (forall (row : organisation) (rest : list organisation)
        (addresses : list (str * str)),
        in_types (ORGANISATION_TYPE_CODE row) = false ->
        passed_over row = false ->
        parse_organisations (row :: rest) addresses c
        = (c, Raise (KeyError (VStr (ORGANISATION_TYPE_CODE row))))).
Proof.
  split.
  - unfold parse_officials. revert c.
    induction rows as [|row rows IH]; intros c.
    + exists []. split; [|split]; [|reflexivity|constructor].
      cbn. now rewrite emit_all_nil.
    + destruct (parse_official_run row c) as (es1 & Hrun & Hs & Hd).
      destruct (IH (emit_all es1 c)) as (es2 & Hrest & Hs2 & Hd2).
      exists (es1 ++ es2). split; [|split].
      * cbn [for_each]. unfold bind. rewrite Hrun, Hrest.
        now rewrite emit_all_app.
      * cbn [flat_map]. now rewrite map_app, Hs, Hs2.
      * apply Forall_app. split.
        -- eapply Forall_impl; [|exact Hd]. cbv beta.
           intros e He Hsch. destruct (He Hsch) as (cid & H1 & H2 & H3).
           exists row, cid. repeat split; try assumption. now left.
        -- eapply Forall_impl; [|exact Hd2]. cbv beta.
           intros e He Hsch.
           destruct (He Hsch) as (row' & cid & H0 & H1 & H2 & H3).
           exists row', cid. repeat split; try assumption. now right.
  - intros row rest addresses Ht Hp.
    unfold parse_organisations. cbn [for_each]. unfold bind.
    unfold parse_organisation at 1. unfold passed_over in Hp. rewrite Hp.
    unfold company_id. rewrite (not_in_types _ Ht). reflexivity.
Qed.

End WithLibraries.
End CyMoreClaims.

Lemma archive_addresses_last_witness :
  startswith (py "registered_office_") (py "registered_office_2.csv") = true
  /\ CyArchive.archive_addresses (norm := Samples2.plain_normality)
       ([Samples2.cy_member "organisations_1.csv" []
           [Samples.cy_row "1" "01/03/2020"];
         Samples2.cy_member "registered_office_1.csv"
           [Samples2.office_of "7" "Old Street 1"] []]
        ++ Samples2.cy_member "registered_office_2.csv"
             [Samples2.office_of "7" "_New Street 2 "] []
           :: [Samples2.cy_member "readme.txt" [] []])
     = [(py "7", py "New Street 2 , Nicosia")]
  /\ map (added "address")
       (emitted (fst (CyArchive.parse (norm := Samples2.plain_normality)
                        (ext := Plain.externals) (py "data.zip")
                        [Samples2.cy_member "organisations_1.csv" []
                           [Samples.cy_row "1" "01/03/2020"];
                         Samples2.cy_member "registered_office_2.csv"
                           [Samples2.office_of "7" "_New Street 2 "] []]
                        start)))
     = [[VStr (py "New Street 2 , Nicosia")]].
Proof.
  split; [reflexivity|]. split; [|reflexivity].
  destruct (archive_addresses_last (norm := Samples2.plain_normality)
              (ext := Plain.externals)
              [Samples2.cy_member "organisations_1.csv" []
                 [Samples.cy_row "1" "01/03/2020"];
               Samples2.cy_member "registered_office_1.csv"
                 [Samples2.office_of "7" "Old Street 1"] []]
              [Samples2.cy_member "readme.txt" [] []]
              (Samples2.cy_member "registered_office_2.csv"
                 [Samples2.office_of "7" "_New Street 2 "] []))
    as (H & _).
  - reflexivity.
  - repeat constructor.
  - rewrite H. reflexivity.
Defined.

Lemma parse_organisations_emits_witness :
  exists es c',
    CyCompanies.parse_organisations (ext := Plain.externals)
      [Samples.cy_row "1" "01/03/2020"; Samples.cy_row "2" " "]
      [(py "7", py "New Street 2, Nicosia")] start = (c', Ok tt)
    /\ emitted c' = emitted start ++ es
    /\ map (fun e => (schema e, id e, added "address" e)) es
       = [("Company"%string, Some (py "oc-companies-cy-he1"),
           [VStr (py "New Street 2, Nicosia")]);
          ("Company"%string, Some (py "oc-companies-cy-he2"),
           [VStr (py "New Street 2, Nicosia")])].
Proof.
  apply (parse_organisations_emits (ext := Plain.externals)
           [Samples.cy_row "1" "01/03/2020"; Samples.cy_row "2" " "]
           [(py "7", py "New Street 2, Nicosia")] start).
  apply Forall_cons; [right; repeat split; discriminate|].
  apply Forall_cons; [right; repeat split; discriminate|].
  apply Forall_nil.
Defined.

(* ===================================================================== *)
(** * When a parser returns *)
(* ===================================================================== *)

Module ReturnsFacts.
Import MdCompanies MdOwners DeOffeneregister DeMore PyFacts CtxFacts MdFacts
  DeFacts.

(** Two statements in a row return when both do, as long as whether each
    returns does not hang on the context. *)
Lemma seq_returns (m k : M unit) (P Q : Prop) :
  (forall c, snd (m c) = Ok tt <-> P) ->
  (forall c, snd (k c) = Ok tt <-> Q) ->
  forall c, snd ((m ;; k) c) = Ok tt <-> P /\ Q.
Proof.
  intros Hm Hk c. unfold bind. specialize (Hm c).
  destruct (m c) as [c1 [[]|e]]; cbn [snd] in *.
  - rewrite Hk. tauto.
  - split; [discriminate|]. intros [HP _]. now apply Hm in HP.
Qed.

Section Md.
Context {ext : Externals}.

Lemma parse_directors_returns (company : entity) (v : pyval) (c : context) :
  snd (parse_directors company v c) = Ok tt <-> is_text v = true.
Proof.
  destruct v; try (split; discriminate).
  - now split.
  - rewrite parse_directors_run. now split.
Qed.

Lemma parse_founders_returns (company : entity) (v : pyval) (c : context) :
  snd (parse_founders company v c) = Ok tt <-> is_text_or_int v = true.
Proof.
  destruct v; try (split; discriminate); try (now split).
  rewrite parse_founders_run. now split.
Qed.

Lemma parse_owners_returns (company : entity) (v : pyval) (c : context) :
  snd (parse_owners company v c) = Ok tt <-> is_text v = true.
Proof.
  destruct v; try (split; discriminate).
  - now split.
  - destruct (parse_owners_run company s c) as [_ ->]. now split.
Qed.

End Md.

Section De.
Context {ext : Externals}.

Lemma officers_count (company : entity) (os : list officer) (c : context) :
  memo_wf c ->
  Forall (fun o => dict_lookup (o_position o) REL_SCHEMS <> None) os ->
  exists c',
    for_each os (make_officer_and_rel company) c = (c', Ok tt)
    /\ memo_wf c'
    /\ length (emitted c') = length (emitted c) + 2 * length os.
Proof.
  revert c. induction os as [|o os IH]; intros c Hwf Hos.
  - exists c. repeat split; [assumption|cbn; lia].
  - inversion Hos as [|? ? Ho Hos']; subst.
    destruct (dict_lookup (o_position o) REL_SCHEMS) as [sch|] eqn:R;
      [|contradiction].
    destruct (make_officer_and_rel_known company o c sch Hwf R)
      as (c1 & e & s & rel & _ & Hrun & _ & _ & Hwf1 & Hem & _).
    assert (Hwf2 : memo_wf (emit_all [rel; e] c1))
      by now apply (memo_wf_same c1).
    destruct (IH _ Hwf2 Hos') as (c' & Hrest & Hwf' & Hlen).
    exists c'. repeat split; [|assumption|].
    + cbn [for_each]. unfold bind. now rewrite Hrun.
    + rewrite Hlen. cbn [emit_all emitted length].
      rewrite length_app, Hem. cbn [length]. lia.
Qed.

Lemma parse_record_count (r : record) (c : context) :
  memo_wf c -> known_codes r ->
  exists c',
    parse_record r c = (c', Ok tt)
    /\ memo_wf c'
    /\ length (emitted c') = length (emitted c) + record_size r.
Proof.
  intros Hwf [Hreg Hos].
  destruct (dict_lookup (register_art r) SCHEMES) as [[sch form]|] eqn:S;
    [|contradiction].
  destruct (make_company_run r c sch form S) as (company & Hc & _).
  assert (Hwf1 : memo_wf (emit_all [company] c))
    by now apply (memo_wf_same c).
  destruct (officers_count company (officers r) _ Hwf1 Hos)
    as (c' & Hrun & Hwf' & Hlen).
  exists c'. repeat split; [|assumption|].
  - unfold parse_record, bind. now rewrite Hc.
  - rewrite Hlen. cbn [emit_all emitted]. rewrite length_app.
    unfold record_size. cbn [length]. lia.
Qed.

Lemma parse_from_count (records : list record) :
  forall ix c,
    memo_wf c -> Forall known_codes records ->
    exists c',
      parse_from ix records c = (c', Ok tt)
      /\ length (emitted c')
         = length (emitted c) + list_sum (map record_size records).
Proof.
  induction records as [|r records IH]; intros ix c Hwf Hall;
    cbn [parse_from].
  - destruct (ix =? 0)%N; eexists; (split; [reflexivity|]); cbn; lia.
  - inversion Hall as [|? ? Hr Hall']; subst.
    destruct (parse_record_count r c Hwf Hr) as (c1 & Hrun & Hwf1 & Hlen).
    unfold bind. rewrite Hrun.
    destruct ((ix + 1) mod 10000 =? 0)%N.
    + cbn [log].
      match goal with
      | |- context [parse_from _ records ?c2] =>
          destruct (IH (ix + 1)%N c2) as (c' & -> & Hlen');
            [now apply (memo_wf_same c1)|assumption|]
      end.
      exists c'. split; [reflexivity|].
      rewrite Hlen'. cbn [emitted map]. unfold list_sum.
      cbn [fold_right]. lia.
    + cbn [ret].
      destruct (IH (ix + 1)%N c1 Hwf1 Hall') as (c' & -> & Hlen').
      exists c'. split; [reflexivity|].
      rewrite Hlen'. cbn [map]. unfold list_sum. cbn [fold_right]. lia.
Qed.

End De.
End ReturnsFacts.

Section ReturnsClaims.
Import MdCompanies MdOwners DeOffeneregister DeMore PyFacts CtxFacts MdFacts
  DeFacts ReturnsFacts.
Context {ext : Externals}.

(** [parse_company] returns exactly when no key can be made, or when the
    cells of the directors and of the owners are [None] or a string and
    the cell of the founders is [None], a string or an integer.  In every
    other case a decomposer raises, and the company does not go out. *)
Theorem parse_company_returns (data : row) (c : context) :
  snd (MdCompanies.parse_company data c) = Ok tt
  <-> company_key data = None
      \/ is_text (directors data) && is_text_or_int (founders data)
         && is_text (owners data) = true.
Proof.
  unfold MdCompanies.parse_company.
  destruct (company_key data) as [key|].
  - rewrite (seq_returns _ _ (is_text (directors data) = true)
               (is_text_or_int (founders data) = true
                /\ is_text (owners data) = true /\ True)).
    + rewrite !andb_true_iff.
      split; [intros (H1 & H2 & H3 & _); right; tauto|].
      intros [H|[[H1 H2] H3]]; [discriminate|tauto].
    + intros c0. apply parse_directors_returns.
    + apply seq_returns; [intros c0; apply parse_founders_returns|].
      apply seq_returns; [intros c0; apply parse_owners_returns|].
      intros c0. now split.
  - split; [now left|reflexivity].
Qed.

(** [parse] comes to its end over records whose registers are keys of
    SCHEMES and whose officers' roles are keys of REL_SCHEMS, whatever
    else they hold: one entity goes out for the company of each record and
    two for each of its officers. *)
Theorem parse_completes (records : list record) (c : context) :
  memo_wf c ->
  Forall known_codes records ->
  exists c',
    parse records c = (c', Ok tt)
    /\ length (emitted c')
       = length (emitted c) + list_sum (map record_size records).
Proof.
  intros Hwf Hall. unfold parse. now apply parse_from_count.
Qed.

End ReturnsClaims.

Lemma parse_completes_witness :
  DeOffeneregister.memo_wf (ext := Plain.externals) start
  /\ exists c',
       DeOffeneregister.parse (ext := Plain.externals)
         [Samples.de_record "HRB" "Hamburg HRB 1"
            [Samples.officer_of "person" "Erika Mustermann" "Vorstand"];
          Samples.de_record "VR" "Hamburg VR 2" []] start = (c', Ok tt)
       /\ length (emitted c') = length (emitted start) + 4.
Proof.
  split; [apply DeFacts.memo_wf_start|].
  apply (parse_completes (ext := Plain.externals)
           [Samples.de_record "HRB" "Hamburg HRB 1"
              [Samples.officer_of "person" "Erika Mustermann" "Vorstand"];
            Samples.de_record "VR" "Hamburg VR 2" []] start).
  - apply DeFacts.memo_wf_start.
  - repeat (apply Forall_cons || apply Forall_nil || split); discriminate.
Defined.
